(** * Evaluation harness of the marketing-content assistant

    A shallow embedding of [eval/evaluation_utils.py] and of the scoring
    loop of [eval/test_recommendations.py].

    Python [float] is IEEE-754 binary64: it is embedded as Rocq's primitive
    [float], whose operations are the same correctly rounded ones.  Python
    [int] is [Z], [str] is the list of its code points, and a raised
    exception is the [Raise] branch of [result].  Where a score variable
    holds the int [0] it holds the float [0] here: the two are equal and
    give the same sums and products.

    The facts on floats are proved from the specification of the primitive
    operations in [FloatAxioms], by way of the exact value of a float in
    units of [2 ^ -1074]. *)

From Stdlib Require Import ZArith List Bool Lia String Ascii Floats Permutation.
Import ListNotations.

Set Implicit Arguments.
Set Warnings "-inexact-float".

(** ** Exceptions *)

Inductive exn : Type :=
| ZeroDivisionError
| OverflowError
| KeyError (key : string)
| ValueError
| re_error
| JSONDecodeError
| AssertionError.

Inductive result (A : Type) : Type :=
| Ok (a : A)
| Raise (e : exn).

Arguments Ok {A} a.
Arguments Raise {A} e.

Definition bind {A B : Type} (c : result A) (k : A -> result B) : result B :=
  match c with
  | Ok a => k a
  | Raise e => Raise e
  end.

Notation "x <- c ;; k" := (bind c (fun x => k))
  (at level 61, c at next level, right associativity).

(** ** Numbers *)

Module PyFloat.

(** An [int] read as an exact, not yet rounded, binary value. *)
Definition Z2SF (z : Z) : spec_float :=
  match z with
  | Z0 => S754_zero false
  | Zpos p => S754_finite false p 0
  | Zneg p => S754_finite true p 0
  end.

(** [a / b] on two [int]s: the correctly rounded quotient, whatever the
    size of the operands. *)
Definition int_truediv (a b : Z) : result float :=
  if (b =? 0)%Z then Raise ZeroDivisionError
  else
    let q := SF2Prim (SF64div (Z2SF a) (Z2SF b)) in
    if is_infinity q then Raise OverflowError else Ok q.

(** [float(n)] for an [int] [n], as implicit in [x / n] with [x] a float. *)
Definition float_of_int (z : Z) : float :=
  SF2Prim (binary_normalize prec emax z 0 false).

(** [x / n] with [x] a float and [n] an int. *)
Definition float_div_int (x : float) (n : Z) : result float :=
  if (n =? 0)%Z then Raise ZeroDivisionError
  else Ok (x / float_of_int n)%float.

(** The integer nearest to [a / b] ([0 < b]), halves going to the even one. *)
Definition rne_div (a b : Z) : Z :=
  let q := (a / b)%Z in
  match (2 * (a mod b) ?= b)%Z with
  | Lt => q
  | Gt => (q + 1)%Z
  | Eq => if Z.even q then q else (q + 1)%Z
  end.

(** [round(x, ndigits)] for [0 <= ndigits]: the float nearest to the
    decimal with [ndigits] places nearest to the exact value of [x]. *)
Definition py_round (x : float) (ndigits : N) : float :=
  match Prim2SF x with
  | S754_finite s m e =>
      let p := (10 ^ Z.of_N ndigits)%Z in
      let n := match e with
               | Zneg k => rne_div (Zpos m * p) (2 ^ Zpos k)
               | _ => (Zpos m * p * 2 ^ e)%Z
               end in
      match n with
      | Z0 => SF2Prim (S754_zero s)
      | _ => SF2Prim (SF64div (Z2SF (if s then - n else n)%Z) (Z2SF p))
      end
  | _ => x
  end.

(** [sum(xs)]: the running float total, started from the int [0], as
    CPython adds it up to version 3.11; later versions also carry the
    rounding error along, which changes nothing for a single term. *)
Definition py_sum (xs : list float) : float :=
  fold_left PrimFloat.add xs 0%float.

End PyFloat.
Export PyFloat.

(** ** Binary64 values, for the proofs

    Every finite binary64 value is a whole number of units of [2 ^ -1074].
    The notions below say what the exact result of an operation is in
    these units and what rounding it to the nearest float, halves to even,
    gives. *)

(** Where [rem / b] lies between 0 and 1, as a rounding location. *)
Definition loc_of (rem b : Z) : location :=
  if (rem =? 0)%Z then loc_Exact else loc_Inexact (2 * rem ?= b)%Z.

(** The record holds the integer part of [a / b] and the place of the rest. *)
Definition describes (mrs : shr_record) (a b : Z) : Prop :=
  shr_m mrs = (a / b)%Z /\ loc_of_shr_record mrs = loc_of (a mod b) b.

(** A zero, or a positive finite binary64 value in canonical form. *)
Definition good (f : spec_float) : Prop :=
  match f with
  | S754_zero _ => True
  | S754_finite false m e => bounded prec emax m e = true
  | _ => False
  end.

(** The value of a float in units of [2 ^ -1074]. *)
Definition sval (f : spec_float) : Z :=
  match f with
  | S754_finite _ m e => (Zpos m * 2 ^ (e + 1074))%Z
  | _ => 0%Z
  end.

(** The exact value [n / d], in units, rounded to binary64. *)
Definition round_units (n d : Z) : Z :=
  let s := Z.max (Zdigits2 (n / d) - 53) 0 in
  (rne_div n (d * 2 ^ s) * 2 ^ s)%Z.

Definition fgood (x : float) : Prop := good (Prim2SF x).

Definition fval (x : float) : Z := sval (Prim2SF x).

(** A zero or positive finite float of at most [2 ^ k] units. *)
Definition within (k : Z) (x : float) : Prop := fgood x /\ (fval x <= 2 ^ k)%Z.

(** A score between 0 and 1, as the comparison of floats tells it. *)
Definition in_unit_interval (x : float) : bool := ((0 <=? x) && (x <=? 1))%float.

(** ** Strings *)

Definition str : Type := list N.

Definition of_ascii (s : string) : str :=
  map N_of_ascii (list_ascii_of_string s).

Definition between (lo hi c : N) : bool := ((lo <=? c) && (c <=? hi))%N.

(** [str.isspace] on one code point. *)
Definition isspace (c : N) : bool :=
  between 9 13 c || between 28 32 c || (c =? 133)%N || (c =? 160)%N
  || (c =? 5760)%N || between 8192 8202 c || (c =? 8232)%N || (c =? 8233)%N
  || (c =? 8239)%N || (c =? 8287)%N || (c =? 12288)%N.

(** [s.split()]: the maximal runs without white space.  [cur] is the run
    being read, last character first. *)
Fixpoint split_from (cur : str) (s : str) : list str :=
  match s with
  | [] => match cur with [] => [] | _ => [rev cur] end
  | c :: s' =>
      if isspace c
      then match cur with
           | [] => split_from [] s'
           | _ => rev cur :: split_from [] s'
           end
      else split_from (c :: cur) s'
  end.

Definition split (s : str) : list str := split_from [] s.

(** [sep.join(parts)]. *)
Fixpoint join (sep : str) (parts : list str) : str :=
  match parts with
  | [] => []
  | [p] => p
  | p :: ps => p ++ sep ++ join sep ps
  end.

Fixpoint starts_with (p s : str) : bool :=
  match p, s with
  | [], _ => true
  | _ :: _, [] => false
  | a :: p', b :: s' => (a =? b)%N && starts_with p' s'
  end.

(** [sub in s]. *)
Fixpoint contains (sub s : str) : bool :=
  starts_with sub s ||
  match s with
  | [] => false
  | _ :: s' => contains sub s'
  end.

Definition ascii_lower (c : N) : N :=
  if between 65 90 c then (c + 32)%N else c.

Definition ascii_alnum (c : N) : bool :=
  between 48 57 c || between 65 90 c || between 97 122 c.

(** The two ranges of the emoji test of [evaluate_social_post]. *)
Definition emoji_range (c : N) : bool :=
  between 127744 129535 c || between 128512 128591 c.

(** A code point whose lower case is known without the Unicode tables:
    ASCII, or in the pictograph blocks, which have no case. *)
Definition plain (c : N) : bool := (c <? 128)%N || between 127744 129535 c.

(** What [re.IGNORECASE] compares for a literal ASCII character: the
    simple lower case, with dotless i and long s joined to [i] and [s]. *)
Definition sre_fold (c : N) : N :=
  if between 65 90 c then (c + 32)%N
  else if (c =? 8490)%N then 107%N
  else if (c =? 304)%N || (c =? 305)%N then 105%N
  else if (c =? 383)%N then 115%N
  else c.

(** The characters with a meaning of their own in a pattern, [|] apart. *)
Definition re_special (c : N) : bool :=
  existsb (N.eqb c) [46; 94; 36; 42; 43; 63; 123; 125; 91; 93; 92; 40; 41]%N.

(** A pattern made of ASCII literals and [|] only. *)
Definition literal_pattern (p : str) : bool :=
  forallb (fun c => (c <? 128)%N && negb (re_special c)) p.

(** The alternatives of a literal pattern. *)
Fixpoint alternatives_from (cur : str) (p : str) : list str :=
  match p with
  | [] => [rev cur]
  | c :: p' =>
      if (c =? 124)%N then rev cur :: alternatives_from [] p'
      else alternatives_from (c :: cur) p'
  end.

Definition alternatives (p : str) : list str := alternatives_from [] p.

(** [bool(re.search(r"#\w+", s))], given the word characters. *)
Fixpoint hashtag_in (is_word : N -> bool) (s : str) : bool :=
  match s with
  | c :: ((d :: _) as s') => ((c =? 35)%N && is_word d) || hashtag_in is_word s'
  | _ => false
  end.

(** ** The records of the harness *)

Record EvaluationResult : Type := {
  scenario : str;
  relevance_score : float;
  personalization_score : float;
  trend_alignment : float;
  event_coverage : float;
  post_quality_avg : float;
  overall_score : float;
  passed : bool
}.

(** The [expected] mapping of a scenario; an absent key is [None]. *)
Record Expected : Type := {
  category : option str;
  season : option str;
  age_group : option str;
  gender : option str;
  market : option str;
  trends : option (list str);
  events : option (list str);
  required_keywords : option (list str);
  social_post_quality : option float
}.

Record Item : Type := {
  id : Z;
  user_input : str;
  expected : Expected
}.

(** What [evaluate_social_post] returns. *)
Record PostEval : Type := {
  quality : float;
  keyword_coverage : float
}.

(** What [compute_overall_score] returns. *)
Record Summary : Type := {
  total_scenarios : Z;
  pass_rate : float;
  avg_overall_score : float;
  best_scenario : str;
  worst_scenario : str
}.

(** The agent's answer.  [recommendations] is a mapping, of which only
    [suggestions] is read, or another object, of which only [str()] is. *)
Inductive Recommendations : Type :=
| RecDict (suggestions : option str)
| RecOther (as_str : str).

Record Promotion : Type := {
  offer : option str;
  discount : option str
}.

Record AgentOutput : Type := {
  recommendations : option Recommendations;
  promotions : option (list Promotion);
  social_posts : option (list (str * str))
}.

(** [d.get(key, default)]. *)
Definition get {A : Type} (field : option A) (default : A) : A :=
  match field with
  | Some v => v
  | None => default
  end.

(** The two built-in scenarios of [load_evaluation_dataset]. *)
Definition fallback_dataset : list Item :=
  [ {| id := 1;
       user_input := of_ascii "I want to create sales and promotion event from November to December, target customer group is 20-40 years old women in Singapore";
       expected :=
         {| category := Some (of_ascii "beauty|perfume|skincare|fragrance");
            season := Some (of_ascii "Nov.*Dec|Christmas|Black Friday|Holiday");
            age_group := Some (of_ascii "20-40");
            gender := Some (of_ascii "women");
            market := Some (of_ascii "Singapore");
            trends := Some (map of_ascii ["floral"; "gift set"; "sustainable"; "long-lasting"]%string);
            events := Some (map of_ascii ["Black Friday"; "Christmas"; "12.12"; "New Year"]%string);
            required_keywords := Some (map of_ascii ["discount"; "bundle"; "gift"; "limited"; "holiday"; "Singapore"]%string);
            social_post_quality := Some 0.8%float |} |};
    {| id := 2;
       user_input := of_ascii "Perfume promotion for Christmas and New Year, women 25-35 in US";
       expected :=
         {| category := Some (of_ascii "perfume|fragrance");
            season := Some (of_ascii "Christmas|New Year|Winter");
            age_group := None;
            gender := None;
            market := None;
            trends := None;
            events := Some (map of_ascii ["Christmas"; "After Christmas Sale"; "New Year"]%string);
            required_keywords := Some (map of_ascii ["perfume"; "gift"; "holiday"; "scent"; "bundle"]%string);
            social_post_quality := None |} |} ].

(** What opening and parsing the dataset file comes to. *)
Inductive DatasetFile : Type :=
| FileMissing
| FileMalformed
| FileParsed (dataset : list Item).

Definition load_evaluation_dataset (file : DatasetFile) : result (list Item) :=
  match file with
  | FileParsed dataset => Ok dataset
  | FileMissing => Ok fallback_dataset
  | FileMalformed => Raise JSONDecodeError
  end.

(** The frame [compute_overall_score] builds: one row per result, and the
    three columns only when there is a row to take them from. *)
Record Row : Type := {
  row_scenario : str;
  row_overall : float;
  row_passed : bool
}.

Record DataFrame : Type := {
  columns : list string;
  rows : list Row
}.

Definition DataFrame_of (records : list Row) : DataFrame :=
  {| columns := match records with
                | [] => []
                | _ :: _ => ["scenario"; "overall"; "passed"]%string
                end;
     rows := records |}.

(** [df[name]]. *)
Definition column {A : Type} (df : DataFrame) (name : string) (field : Row -> A)
  : result (list A) :=
  if existsb (String.eqb name) (columns df)
  then Ok (map field (rows df))
  else Raise (KeyError name).

(** [df.empty]. *)
Definition empty (df : DataFrame) : bool :=
  match columns df, rows df with
  | _ :: _, _ :: _ => false
  | _, _ => true
  end.

(** [.mean()] of a column of booleans. *)
Definition mean_bool (l : list bool) : float :=
  match int_truediv (Z.of_nat (List.length (filter (fun b => b) l))) (Z.of_nat (List.length l)) with
  | Ok v => v
  | Raise _ => nan
  end.

(** First position of the best value among those that are not NaN. *)
Fixpoint idx_from (better : float -> float -> bool) (xs : list float) (i : nat)
    (best : option (nat * float)) : option nat :=
  match xs with
  | [] => option_map fst best
  | x :: xs' =>
      let best' :=
        if is_nan x then best
        else match best with
             | None => Some (i, x)
             | Some (_, b) => if better x b then Some (i, x) else best
             end in
      idx_from better xs' (S i) best'
  end.

Definition idxmax (xs : list float) : result nat :=
  match idx_from (fun x b => b <? x)%float xs 0 None with
  | Some i => Ok i
  | None => Raise ValueError
  end.

Definition idxmin (xs : list float) : result nat :=
  match idx_from (fun x b => x <? b)%float xs 0 None with
  | Some i => Ok i
  | None => Raise ValueError
  end.

(** [df.loc[i, "scenario"]]. *)
Definition loc_scenario (df : DataFrame) (i : nat) : result str :=
  labels <- column df "scenario" row_scenario ;;
  match nth_error labels i with
  | Some s => Ok s
  | None => Raise (KeyError "scenario")
  end.

(** The local variables of one turn of the scoring loop. *)
Module Locals.
Record t : Type := {
  relevance : float;
  personalization : float;
  trend_align : float;
  event_cov : float;
  post_quality_avg : float;
  overall : float;
  passed : bool
}.
End Locals.

Fixpoint map_result {A B : Type} (f : A -> result B) (l : list A) : result (list B) :=
  match l with
  | [] => Ok []
  | a :: l' => b <- f a ;; bs <- map_result f l' ;; Ok (b :: bs)
  end.

(** ** Inputs on which the harness is run in the proofs *)

(** The post of [tests/test_scenarios.py] taken up by the specification,
    and its expected keywords. *)
Definition festive_post : str :=
  of_ascii "Unwrap festive scents this Christmas! 20% off perfume bundles for her. #HolidayGifts".

Definition festive_keywords : list str :=
  map of_ascii ["perfume"; "discount"; "bundle"; "gift"; "holiday"]%string.

(** The same post with the missing keyword and a wrapped-gift emoji. *)
Definition festive_post_full : str :=
  festive_post ++ of_ascii " discount " ++ [127873%N].

(** A post of 53 words with a hashtag and an emoji. *)
Definition long_post : str :=
  join (of_ascii " ") (repeat (of_ascii "gift") 50) ++ of_ascii " bonus #gift " ++ [127873%N].

Definition only_post : AgentOutput :=
  {| recommendations := None;
     promotions := None;
     social_posts := Some [(of_ascii "X", long_post)] |}.

(** A scenario without a word for the vectorizer, with the given trends. *)
Definition gift_item (trend_patterns : list str) : Item :=
  {| id := 3;
     user_input := of_ascii "?";
     expected :=
       {| category := None;
          season := None;
          age_group := None;
          gender := None;
          market := None;
          trends := Some trend_patterns;
          events := Some [of_ascii "gift"];
          required_keywords := Some [of_ascii "gift"];
          social_post_quality := None |} |}.

(** Every trend found: the overall score is 0.75. *)
Definition borderline_item : Item := gift_item [of_ascii "gift"].

(** One trend in 400 missed: the overall score is just below 0.75. *)
Definition near_miss_item : Item :=
  gift_item (repeat (of_ascii "gift") 399 ++ [of_ascii "zzz"]).

(** The record of [borderline_item] when the agent answers [only_post]. *)
Definition borderline_record : EvaluationResult :=
  {| scenario := of_ascii "?";
     relevance_score := 0;
     personalization_score := 1;
     trend_alignment := 1;
     event_coverage := 1;
     post_quality_avg := 1;
     overall_score := 0.75;
     passed := true |}.

(** The second built-in scenario, which has no [age_group] and no [gender]. *)
Definition perfume_item : Item := nth 1 fallback_dataset borderline_item.

Definition festive_only : AgentOutput :=
  {| recommendations := None;
     promotions := None;
     social_posts := Some [(of_ascii "X", festive_post)] |}.

(** Library behaviour to run the harness with: nothing beyond ASCII is a
    letter or has a case, no pattern beyond the literal ones compiles, the
    vectorizer finds no vocabulary, and the mean is the running sum over
    the count.  The inputs above only reach the vectorizer, on a text that
    has no word. *)
Definition no_letters : N -> bool := fun _ => false.

Definition no_case : str -> str := fun s => s.

Definition no_engine : str -> option (str -> bool) := fun _ => None.

Definition no_vocabulary : str -> str -> option float := fun _ _ => None.

Definition running_mean (xs : list float) : float :=
  (py_sum xs / float_of_int (Z.of_nat (List.length xs)))%float.

Definition always (output : AgentOutput) : str -> option AgentOutput :=
  fun _ => Some output.


(** A scenario that expects nothing, and an answer without any post. *)
Definition bare_item : Item :=
  {| id := 4;
     user_input := of_ascii "?";
     expected :=
       {| category := None;
          season := None;
          age_group := None;
          gender := None;
          market := None;
          trends := None;
          events := None;
          required_keywords := None;
          social_post_quality := None |} |}.

Definition no_answer : AgentOutput :=
  {| recommendations := None; promotions := None; social_posts := None |}.

(** A part of [re] beyond the literal patterns, to run the harness on the
    built-in scenarios: the patterns of ASCII literals and [.], which
    stands for any character but the newline. *)
Fixpoint dot_starts (p s : str) : bool :=
  match p, s with
  | [], _ => true
  | _ :: _, [] => false
  | a :: p', b :: s' =>
      (if (a =? 46)%N then negb (b =? 10)%N else (sre_fold a =? sre_fold b)%N)
      && dot_starts p' s'
  end.

Fixpoint dot_search (p s : str) : bool :=
  dot_starts p s ||
  match s with
  | [] => false
  | _ :: s' => dot_search p s'
  end.

Definition dot_engine (p : str) : option (str -> bool) :=
  if forallb (fun c => (c <? 128)%N && negb (c =? 124)%N
                       && (negb (re_special c) || (c =? 46)%N)) p
  then Some (dot_search p)
  else None.

Section Harness.

(** The libraries the harness calls, where they are not written out above:
    [str.isalnum] and [str.lower] beyond ASCII, [re] beyond literal
    patterns, the TF-IDF cosine of scikit-learn ([None] when it raises),
    and the mean of a float column of pandas. *)
Variable unicode_isalnum : N -> bool.
Variable unicode_lower : str -> str.
Variable re_engine : str -> option (str -> bool).
Variable tfidf_cosine : str -> str -> option float.
Variable series_mean : list float -> float.

(** [\w]. *)
Definition is_word (c : N) : bool :=
  if (c <? 128)%N then ascii_alnum c || (c =? 95)%N else unicode_isalnum c.

(** [s.lower()]. *)
Definition lower (s : str) : str :=
  if forallb plain s then map ascii_lower s else unicode_lower s.

(** [bool(re.search(pattern, text, re.IGNORECASE))]. *)
Definition re_search (pattern text : str) : result bool :=
  if literal_pattern pattern
  then Ok (existsb (fun alt => contains (map sre_fold alt) (map sre_fold text))
                   (alternatives pattern))
  else match re_engine pattern with
       | Some matches => Ok (matches text)
       | None => Raise re_error
       end.

(** A pattern [re] compiles. *)
Definition valid_pattern (pattern : str) : Prop :=
  literal_pattern pattern = true \/ re_engine pattern <> None.

(** The patterns of a list that are found in the text. *)
Definition matching (text : str) (patterns : list str) : list str :=
  filter (fun pattern => match re_search pattern text with
                         | Ok found => found
                         | Raise _ => false
                         end) patterns.

Definition cosine_text_similarity (text1 text2 : str) : float :=
  match tfidf_cosine text1 text2 with
  | Some v => v
  | None => 0%float
  end.

(** The loop of [regex_match_score], [score] being its counter. *)
Fixpoint count_matches (text : str) (patterns : list str) (score : Z) : result Z :=
  match patterns with
  | [] => Ok score
  | pattern :: rest =>
      found <- re_search pattern text ;;
      count_matches text rest (if found then score + 1 else score)%Z
  end.

Definition regex_match_score (text : str) (patterns : list str) : result float :=
  score <- count_matches text patterns 0%Z ;;
  int_truediv score (Z.max (Z.of_nat (List.length patterns)) 1).

Definition length_ok (post : str) : bool :=
  let words := Z.of_nat (List.length (split post)) in
  ((50 <=? words) && (words <=? 280))%Z.

Definition has_hashtag (post : str) : bool := hashtag_in is_word post.

Definition has_emoji (post : str) : bool := existsb emoji_range post.

(** The keywords counted by [evaluate_social_post]. *)
Definition keywords_found (post : str) (expected_keywords : list str) : Z :=
  Z.of_nat (List.length (filter (fun kw => contains (lower kw) (lower post)) expected_keywords)).

(** The weighted sum of [evaluate_social_post]. *)
Definition quality_of (keyword_score : float) (length_ok has_hashtag has_emoji : bool) : float :=
  (0.3 * keyword_score
   + 0.3 * (if length_ok then 1 else 0)
   + 0.2 * (if has_hashtag then 1 else 0)
   + 0.2 * (if has_emoji then 1 else 0))%float.

Definition evaluate_social_post (post : str) (expected_keywords : list str) : result PostEval :=
  keyword_score <- int_truediv (keywords_found post expected_keywords)
                               (Z.of_nat (List.length expected_keywords)) ;;
  Ok {| quality := quality_of keyword_score (length_ok post) (has_hashtag post) (has_emoji post);
        keyword_coverage := keyword_score |}.

Definition compute_overall_score (results : list EvaluationResult) : result Summary :=
  let df := DataFrame_of
              (map (fun r => {| row_scenario := scenario r;
                                row_overall := overall_score r;
                                row_passed := passed r |}) results) in
  let total := Z.of_nat (List.length (rows df)) in
  passed_column <- column df "passed" row_passed ;;
  overall_column <- column df "overall" row_overall ;;
  best <- (if negb (empty df)
           then (c <- column df "overall" row_overall ;; i <- idxmax c ;; loc_scenario df i)
           else Ok (of_ascii "N/A")) ;;
  worst <- (if negb (empty df)
            then (c <- column df "overall" row_overall ;; i <- idxmin c ;; loc_scenario df i)
            else Ok (of_ascii "N/A")) ;;
  Ok {| total_scenarios := total;
        pass_rate := mean_bool passed_column;
        avg_overall_score := series_mean overall_column;
        best_scenario := best;
        worst_scenario := worst |}.

(** ** The scoring loop of [test_full_evaluation_suite] *)

Definition rec_text_of (recommendations : Recommendations) : str :=
  match recommendations with
  | RecDict suggestions => get suggestions []
  | RecOther as_str => as_str
  end.

Definition promo_text_of (promotions : list Promotion) : str :=
  join (of_ascii " | ")
       (map (fun p => get (offer p) [] ++ of_ascii " " ++ get (discount p) []) promotions).

(** Lines 46 to 79: from the agent's output to [overall] and [passed]. *)
Definition score_scenario (item : Item) (output : AgentOutput) : result Locals.t :=
  let user_input := user_input item in
  let expected := expected item in
  let recommendations := get (recommendations output) (RecDict None) in
  let promotions := get (promotions output) [] in
  let social_posts := get (social_posts output) [] in
  let rec_text := rec_text_of recommendations in
  let promo_text := promo_text_of promotions in
  let all_posts := join (of_ascii " ") (map snd social_posts) in
  let relevance :=
    cosine_text_similarity (user_input ++ of_ascii " " ++ rec_text ++ promo_text) user_input in
  personalization <- regex_match_score all_posts
                       [ get (age_group expected) [];
                         get (gender expected) [];
                         get (market expected) (of_ascii "Singapore|US") ] ;;
  trend_align <- regex_match_score all_posts (get (trends expected) []) ;;
  event_cov <- regex_match_score all_posts (get (events expected) []) ;;
  post_qualities <- map_result
                      (fun post =>
                         e <- evaluate_social_post post (get (required_keywords expected) []) ;;
                         Ok (quality e))
                      (map snd social_posts) ;;
  post_quality_avg <- match post_qualities with
                      | [] => Ok 0%float
                      | _ :: _ => float_div_int (py_sum post_qualities)
                                                (Z.of_nat (List.length post_qualities))
                      end ;;
  let overall :=
    (0.25 * relevance
     + 0.20 * personalization
     + 0.15 * trend_align
     + 0.15 * event_cov
     + 0.25 * post_quality_avg)%float in
  let passed := (0.75 <=? overall)%float in
  Ok {| Locals.relevance := relevance;
        Locals.personalization := personalization;
        Locals.trend_align := trend_align;
        Locals.event_cov := event_cov;
        Locals.post_quality_avg := post_quality_avg;
        Locals.overall := overall;
        Locals.passed := passed |}.

(** Lines 81 to 90: the record kept for the scenario. *)
Definition record_of (item : Item) (l : Locals.t) : EvaluationResult :=
  {| scenario := firstn 50 (user_input item);
     relevance_score := py_round (Locals.relevance l) 3;
     personalization_score := py_round (Locals.personalization l) 3;
     trend_alignment := py_round (Locals.trend_align l) 3;
     event_coverage := py_round (Locals.event_cov l) 3;
     post_quality_avg := py_round (Locals.post_quality_avg l) 3;
     overall_score := py_round (Locals.overall l) 3;
     passed := Locals.passed l |}.

(** Lines 38 to 43: the record kept when the agent raised or timed out. *)
Definition failed_record (item : Item) : EvaluationResult :=
  {| scenario := firstn 50 (user_input item);
     relevance_score := 0;
     personalization_score := 0;
     trend_alignment := 0;
     event_coverage := 0;
     post_quality_avg := 0;
     overall_score := 0;
     passed := false |}.

(** One turn of the loop; [agent] answers [None] when the call raised or
    ran out of its 60 seconds. *)
Definition evaluate_item (agent : str -> option AgentOutput) (item : Item)
  : result EvaluationResult :=
  match agent (user_input item) with
  | None => Ok (failed_record item)
  | Some output => l <- score_scenario item output ;; Ok (record_of item l)
  end.

Fixpoint evaluate_dataset (agent : str -> option AgentOutput) (dataset : list Item)
    (results : list EvaluationResult) : result (list EvaluationResult) :=
  match dataset with
  | [] => Ok results
  | item :: rest =>
      r <- evaluate_item agent item ;;
      evaluate_dataset agent rest (results ++ [r])
  end.

(** The whole test: the records written to [eval_results.json] when the
    final assertion holds. *)
Definition test_full_evaluation_suite (agent : str -> option AgentOutput)
    (file : DatasetFile) : result (list EvaluationResult) :=
  dataset <- load_evaluation_dataset file ;;
  results <- evaluate_dataset agent dataset [] ;;
  summary <- compute_overall_score results ;;
  if (0.7 <=? pass_rate summary)%float then Ok results else Raise AssertionError.

(** * Proofs

    First the arithmetic of binary64: the shifts and the rounding of
    [SpecFloat] are related to the division of integers, which gives each
    primitive operation as the rounding of its exact result and shows that
    rounding keeps the order.  Then the order and the bounds of the float
    expressions of the harness, then the harness itself, one theorem for
    each property. *)

Unset Implicit Arguments.
Local Open Scope Z_scope.

(** ** Rounding to binary64 *)

Lemma digits2_bounds p :
  2 ^ (Zpos (digits2_pos p) - 1) <= Zpos p < 2 ^ Zpos (digits2_pos p).
Proof.
  induction p as [p IH | p IH |]; cbn [digits2_pos].
  - rewrite Pos2Z.inj_succ, Z.pow_succ_r by lia.
    replace (Z.succ (Zpos (digits2_pos p)) - 1) with (Z.succ (Zpos (digits2_pos p) - 1)) by lia.
    rewrite Z.pow_succ_r by lia. lia.
  - rewrite Pos2Z.inj_succ, Z.pow_succ_r by lia.
    replace (Z.succ (Zpos (digits2_pos p)) - 1) with (Z.succ (Zpos (digits2_pos p) - 1)) by lia.
    rewrite Z.pow_succ_r by lia. lia.
  - cbn. lia.
Qed.

Lemma Zdigits2_bounds m :
  0 < m -> 2 ^ (Zdigits2 m - 1) <= m < 2 ^ Zdigits2 m.
Proof. destruct m; try lia. intros _. apply digits2_bounds. Qed.

Lemma Zdigits2_nonneg m : 0 <= Zdigits2 m.
Proof. destruct m; cbn; lia. Qed.

Lemma Zdigits2_unique m k :
  2 ^ (k - 1) <= m < 2 ^ k -> 0 < m -> Zdigits2 m = k.
Proof.
  intros [Hl Hu] Hm.
  destruct (Zdigits2_bounds m Hm) as [Dl Du].
  assert (0 <= Zdigits2 m) by apply Zdigits2_nonneg.
  assert (0 < k). { destruct (Z_lt_le_dec 0 k); auto. destruct (Z.eq_dec k 0); [subst; cbn in *; lia|]. rewrite Z.pow_neg_r in Hu by lia. lia. }
  assert (Zdigits2 m - 1 < k). { apply (Z.pow_lt_mono_r_iff 2); lia. }
  assert (k - 1 < Zdigits2 m). { apply (Z.pow_lt_mono_r_iff 2); lia. }
  lia.
Qed.

Ltac one_of_four :=
  first [ left; repeat split; (reflexivity || lia)
        | right; left; repeat split; (reflexivity || lia)
        | right; right; left; repeat split; (reflexivity || lia)
        | right; right; right; repeat split; (reflexivity || lia) ].

Ltac finish_loc H :=
  destruct H as [(-> & -> & ?) | [(-> & -> & ? & ?) | [(-> & -> & ? & ?) | (-> & -> & ? & ?)]]];
  cbn [orb]; one_of_four.

Lemma loc_of_cases rem b mrs :
  loc_of_shr_record mrs = loc_of rem b ->
  (shr_r mrs = false /\ shr_s mrs = false /\ rem = 0) \/
  (shr_r mrs = false /\ shr_s mrs = true /\ rem <> 0 /\ 2 * rem < b) \/
  (shr_r mrs = true /\ shr_s mrs = false /\ rem <> 0 /\ 2 * rem = b) \/
  (shr_r mrs = true /\ shr_s mrs = true /\ rem <> 0 /\ 2 * rem > b).
Proof.
  destruct mrs as [m r s]. unfold loc_of. cbn [loc_of_shr_record shr_r shr_s].
  destruct (Z.eqb_spec rem 0) as [E | E].
  - destruct r, s; intros Hloc; try discriminate Hloc. one_of_four.
  - destruct (Z.compare_spec (2 * rem) b); destruct r, s; intros Hloc;
      try discriminate Hloc; one_of_four.
Qed.

Lemma loc_of_intro rem b m r s :
  (r = false /\ s = false /\ rem = 0) \/
  (r = false /\ s = true /\ rem <> 0 /\ 2 * rem < b) \/
  (r = true /\ s = false /\ rem <> 0 /\ 2 * rem = b) \/
  (r = true /\ s = true /\ rem <> 0 /\ 2 * rem > b) ->
  loc_of_shr_record (Build_shr_record m r s) = loc_of rem b.
Proof.
  unfold loc_of. cbn [loc_of_shr_record].
  intros [(-> & -> & ->) | [(-> & -> & N & L) | [(-> & -> & N & L) | (-> & -> & N & L)]]].
  - reflexivity.
  - destruct (Z.eqb_spec rem 0); [lia|]. destruct (Z.compare_spec (2 * rem) b); try lia; reflexivity.
  - destruct (Z.eqb_spec rem 0); [lia|]. destruct (Z.compare_spec (2 * rem) b); try lia; reflexivity.
  - destruct (Z.eqb_spec rem 0); [lia|]. destruct (Z.compare_spec (2 * rem) b); try lia; reflexivity.
Qed.

(** One shift to the right halves the fraction that the record describes. *)
Lemma shr_1_describes mrs a b :
  0 <= a -> 0 < b -> describes mrs a b -> describes (shr_1 mrs) a (b * 2).
Proof.
  intros Ha Hb [Hm Hl].
  assert (Hdiv : a / (b * 2) = (a / b) / 2) by (rewrite Z.div_div by lia; reflexivity).
  assert (Hmod : a mod (b * 2) = a mod b + b * ((a / b) mod 2)) by (apply Z.rem_mul_r; lia).
  assert (Hr : 0 <= a mod b < b) by (apply Z.mod_pos_bound; lia).
  assert (Hq : 0 <= a / b) by (apply Z.div_pos; lia).
  apply loc_of_cases in Hl.
  destruct mrs as [m r s]. cbn [shr_m shr_r shr_s] in *.
  unfold describes. rewrite Hdiv, Hmod, <- Hm. clear Hdiv Hmod.
  destruct m as [| [p | p |] |]; cbn [shr_1 shr_m]; try lia.
  - change (0 / 2) with 0. change (0 mod 2) with 0.
    split; [reflexivity|]. apply loc_of_intro. finish_loc Hl.
  - rewrite Pos2Z.inj_xI.
    assert (E1 : (2 * Zpos p + 1) / 2 = Zpos p) by (Z.div_mod_to_equations; lia).
    assert (E2 : (2 * Zpos p + 1) mod 2 = 1) by (Z.div_mod_to_equations; lia).
    rewrite E1, E2. split; [reflexivity|]. apply loc_of_intro. finish_loc Hl.
  - rewrite Pos2Z.inj_xO.
    assert (E1 : (2 * Zpos p) / 2 = Zpos p) by (Z.div_mod_to_equations; lia).
    assert (E2 : (2 * Zpos p) mod 2 = 0) by (Z.div_mod_to_equations; lia).
    rewrite E1, E2. split; [reflexivity|]. apply loc_of_intro. finish_loc Hl.
  - change (1 / 2) with 0. change (1 mod 2) with 1.
    split; [reflexivity|]. apply loc_of_intro. finish_loc Hl.
Qed.

Lemma iter_shr_describes n : forall mrs a b,
  0 <= a -> 0 < b -> describes mrs a b ->
  describes (iter_pos shr_1 n mrs) a (b * 2 ^ Zpos n).
Proof.
  induction n as [n IH | n IH |]; intros mrs a b Ha Hb D; cbn [iter_pos].
  - replace (b * 2 ^ Zpos n~1) with (b * 2 * 2 ^ Zpos n * 2 ^ Zpos n).
    + apply IH; [lia | | apply IH; [lia | lia | apply shr_1_describes; assumption]].
      assert (0 < 2 ^ Zpos n) by (apply Z.pow_pos_nonneg; lia). nia.
    + assert (E : Zpos n~1 = Zpos n + Zpos n + 1) by lia.
      rewrite E, !Z.pow_add_r by lia. ring.
  - replace (b * 2 ^ Zpos n~0) with (b * 2 ^ Zpos n * 2 ^ Zpos n).
    + apply IH; [lia | | apply IH; assumption].
      assert (0 < 2 ^ Zpos n) by (apply Z.pow_pos_nonneg; lia). nia.
    + assert (E : Zpos n~0 = Zpos n + Zpos n) by lia.
      rewrite E, !Z.pow_add_r by lia. ring.
  - replace (b * 2 ^ 1) with (b * 2) by (cbn; lia). apply shr_1_describes; assumption.
Qed.

Lemma shr_describes mrs e n a b :
  0 <= a -> 0 < b -> 0 <= n -> describes mrs a b ->
  describes (fst (shr mrs e n)) a (b * 2 ^ n) /\ snd (shr mrs e n) = e + n.
Proof.
  intros Ha Hb Hn D. destruct n as [| p | p]; try lia; cbn [shr fst snd].
  - change (2 ^ 0) with 1. rewrite Z.mul_1_r. split. + assumption. + lia.
  - split. + apply iter_shr_describes; assumption. + reflexivity.
Qed.

Lemma record_of_loc_describes a b :
  0 <= a -> 0 < b -> describes (shr_record_of_loc (a / b) (loc_of (a mod b) b)) a b.
Proof.
  intros Ha Hb. unfold describes.
  generalize (loc_of (a mod b) b). intros [| []]; split; reflexivity.
Qed.

(** Rounding a record to nearest even is rounding the fraction it describes. *)
Lemma rne_describes mrs a b :
  0 < b -> describes mrs a b ->
  round_nearest_even (shr_m mrs) (loc_of_shr_record mrs) = rne_div a b.
Proof.
  intros Hb [Hm Hl]. rewrite Hl, Hm. unfold rne_div, loc_of, round_nearest_even.
  destruct (Z.eqb_spec (a mod b) 0) as [E | E].
  - rewrite E. assert (C : (2 * 0 ?= b) = Lt) by (apply Z.compare_lt_iff; lia).
    rewrite C. reflexivity.
  - destruct (2 * (a mod b) ?= b); reflexivity.
Qed.

Lemma fexp_eq e : fexp prec emax e = Z.max (e - 53) (-1074).
Proof. reflexivity. Qed.

Lemma bounded_iff m e :
  bounded prec emax m e = true <->
  Z.max (Zpos (digits2_pos m) + e - 53) (-1074) = e /\ e <= 971.
Proof.
  unfold bounded, canonical_mantissa. rewrite fexp_eq, andb_true_iff, Z.eqb_eq, Z.leb_le.
  change (emax - prec) with 971. reflexivity.
Qed.

Lemma rne_div_bounds a b : 0 < b -> a / b <= rne_div a b <= a / b + 1.
Proof.
  intros Hb. unfold rne_div.
  destruct (2 * (a mod b) ?= b); [destruct (Z.even (a / b))| |]; lia.
Qed.

Lemma shr_noop mrs e n : n <= 0 -> shr mrs e n = (mrs, e).
Proof. destruct n; try lia; reflexivity. Qed.

Lemma pow2_pos n : 0 <= n -> 0 < 2 ^ n.
Proof. intros. apply Z.pow_pos_nonneg; lia. Qed.

Lemma digits_lt_pow x k : 0 <= x -> 0 <= k -> Zdigits2 x <= k -> x < 2 ^ k.
Proof.
  intros Hx Hk Hd. destruct (Z.eq_dec x 0) as [-> | Nx]; [apply pow2_pos; lia|].
  pose proof (Zdigits2_bounds x ltac:(lia)) as [_ U].
  apply Z.lt_le_trans with (2 ^ Zdigits2 x); [assumption|].
  apply Z.pow_le_mono_r; lia.
Qed.

Lemma digits_ge_pow x k : 0 < k -> k <= Zdigits2 x -> 0 <= x -> 2 ^ (k - 1) <= x.
Proof.
  intros Hk Hd Hx. destruct (Z.eq_dec x 0) as [-> | Nx]; [cbn in Hd; lia|].
  pose proof (Zdigits2_bounds x ltac:(lia)) as [L _].
  apply Z.le_trans with (2 ^ (Zdigits2 x - 1)); [|assumption].
  apply Z.pow_le_mono_r; lia.
Qed.

Lemma digits_le_of_lt x k : 0 <= x < 2 ^ k -> 0 <= k -> Zdigits2 x <= k.
Proof.
  intros [Hx Hlt] Hk. destruct (Z.eq_dec x 0) as [-> | Nx]; [cbn; lia|].
  pose proof (Zdigits2_bounds x ltac:(lia)) as [L _].
  destruct (Z_le_gt_dec (Zdigits2 x) k); [assumption|].
  assert (2 ^ k <= 2 ^ (Zdigits2 x - 1)) by (apply Z.pow_le_mono_r; lia). lia.
Qed.

(** [binary_round_aux] on the integer part and location of [a / b] at an
    exponent not above the float exponent [t] of the value: the result is
    canonical and is [a / (b * 2 ^ (t - ex))] rounded to nearest even, at
    exponent [t]. *)
Lemma bra_correct a b ex :
  0 <= a -> 0 < b ->
  let t := fexp prec emax (Zdigits2 (a / b) + ex) in
  ex <= t -> t <= 970 ->
  let f := binary_round_aux prec emax false (a / b) ex (loc_of (a mod b) b) in
  good f /\ sval f = rne_div a (b * 2 ^ (t - ex)) * 2 ^ (t + 1074).
Proof.
  intros Ha Hb t Hex Ht f. subst f.
  assert (Hq : 0 <= a / b) by (apply Z.div_pos; lia).
  pose proof (Zdigits2_nonneg (a / b)) as Hd0.
  pose proof (digits_lt_pow (a / b) _ Hq Hd0 (Z.le_refl _)) as Du.
  set (d := Zdigits2 (a / b)) in *.
  assert (Ht1 : -1074 <= t /\ d + ex - 53 <= t) by (subst t; rewrite fexp_eq; lia).
  assert (Ht2 : t = -1074 \/ t = d + ex - 53) by (subst t; rewrite fexp_eq; lia).
  set (n := t - ex).
  assert (Hn : 0 <= n) by (subst n; lia).
  assert (P : 0 < 2 ^ n) by (apply pow2_pos; lia).
  unfold binary_round_aux, shr_fexp. fold d. fold t. fold n.
  destruct (shr_describes (shr_record_of_loc (a / b) (loc_of (a mod b) b)) ex n a b Ha Hb Hn
              (record_of_loc_describes a b Ha Hb)) as [D1 E1].
  destruct (shr (shr_record_of_loc (a / b) (loc_of (a mod b) b)) ex n) as [mrs' e'].
  cbn [fst snd] in D1, E1.
  rewrite (rne_describes mrs' a (b * 2 ^ n)) by (try assumption; nia).
  assert (E1' : e' = t) by (subst n; lia). rewrite E1'. clear E1 E1' e'.
  pose proof (rne_div_bounds a (b * 2 ^ n) ltac:(nia)) as [Rl Ru].
  assert (Hfl : a / (b * 2 ^ n) = (a / b) / 2 ^ n) by (rewrite Z.div_div by lia; reflexivity).
  assert (Hup : a / (b * 2 ^ n) < 2 ^ 53).
  { rewrite Hfl. apply Z.div_lt_upper_bound; [lia|].
    rewrite <- Z.pow_add_r by lia.
    apply Z.lt_le_trans with (2 ^ d); [assumption|].
    apply Z.pow_le_mono_r; subst n; lia. }
  assert (Hlo : t <> -1074 -> 2 ^ 52 <= a / (b * 2 ^ n)).
  { intros Hne. rewrite Hfl. apply Z.div_le_lower_bound; [lia|].
    assert (Hdp : 0 < d) by lia.
    rewrite <- Z.pow_add_r by lia.
    apply Z.le_trans with (2 ^ (d - 1)); [|apply digits_ge_pow; subst d; lia].
    apply Z.pow_le_mono_r; subst n; lia. }
  assert (H0 : 0 <= a / (b * 2 ^ n)) by (apply Z.div_pos; nia).
  set (m1 := rne_div a (b * 2 ^ n)) in *.
  destruct (Z.eq_dec m1 (2 ^ 53)) as [Etop | Ntop].
  - (* the mantissa rounded up to the next binade *)
    rewrite Etop. change (Zdigits2 (2 ^ 53)) with 54.
    assert (En : fexp prec emax (54 + t) - t = 1) by (rewrite fexp_eq; lia).
    rewrite En. cbn [shr shr_record_of_loc iter_pos].
    change (shr_m (shr_1 {| shr_m := 2 ^ 53; shr_r := false; shr_s := false |})) with (2 ^ 52).
    change (2 ^ 52) with (Zpos 4503599627370496).
    assert (L : (t + 1 <=? emax - prec) = true) by (apply Z.leb_le; change (emax - prec) with 971; lia).
    rewrite L. split.
    + cbn [good]. apply bounded_iff. change (Zpos (digits2_pos 4503599627370496)) with 53. lia.
    + cbn [sval]. replace (t + 1 + 1074) with (1 + (t + 1074)) by lia.
      rewrite Z.pow_add_r by lia. change (2 ^ 53) with 9007199254740992. change (2 ^ 1) with 2. lia.
  - assert (Hm1 : 0 <= m1 < 2 ^ 53) by lia.
    assert (Hdm : Zdigits2 m1 <= 53).
    { destruct (Z.eq_dec m1 0) as [-> | Nz]; [cbn; lia|].
      pose proof (Zdigits2_bounds m1 ltac:(lia)) as [Ml Mu].
      destruct (Z_le_gt_dec (Zdigits2 m1) 53); [assumption|].
      assert (2 ^ 53 <= 2 ^ (Zdigits2 m1 - 1)) by (apply Z.pow_le_mono_r; lia). lia. }
    rewrite shr_noop by (rewrite fexp_eq; lia).
    cbn [shr_m shr_record_of_loc].
    destruct m1 as [| p | p] eqn:Em1; try lia.
    + split; [exact I | reflexivity].
    + assert (L : (t <=? emax - prec) = true) by (apply Z.leb_le; change (emax - prec) with 971; lia).
      rewrite L. split; [|reflexivity].
      cbn [good]. apply bounded_iff. split; [|lia].
      destruct Ht2 as [Ht2 | Ht2]; [cbn [Zdigits2] in Hdm; lia|].
      destruct (Z.eq_dec t (-1074)) as [E | E]; [cbn [Zdigits2] in Hdm; lia|].
      specialize (Hlo E).
      assert (Zdigits2 (Zpos p) = 53) by (apply Zdigits2_unique; change (53 - 1) with 52; lia).
      cbn [Zdigits2] in *. lia.
Qed.

(** [rne_div a b] is within a half of [a / b], strictly when it is odd. *)
Lemma rne_div_spec a b :
  0 < b ->
  (2 * rne_div a b - 1) * b <= 2 * a <= (2 * rne_div a b + 1) * b /\
  (Z.odd (rne_div a b) = true ->
   (2 * rne_div a b - 1) * b < 2 * a < (2 * rne_div a b + 1) * b).
Proof.
  intros Hb. unfold rne_div.
  pose proof (Z.div_mod a b ltac:(lia)) as E.
  pose proof (Z.mod_pos_bound a b Hb) as R.
  set (q := a / b) in *. set (r := a mod b) in *.
  destruct (Z.compare_spec (2 * r) b) as [C | C | C].
  - destruct (Z.even q) eqn:Ev.
    + split; [nia|]. rewrite <- Z.negb_even, Ev. discriminate.
    + split; [nia|]. rewrite <- Z.negb_even, Z.even_add, Ev. discriminate.
  - split; [nia|]. intros _. nia.
  - split; [nia|]. intros _. nia.
Qed.

(** Rounding to nearest even keeps the order of fractions. *)
Lemma rne_div_mono a1 b1 a2 b2 :
  0 < b1 -> 0 < b2 -> a1 * b2 <= a2 * b1 -> rne_div a1 b1 <= rne_div a2 b2.
Proof.
  intros H1 H2 Hle.
  destruct (rne_div_spec a1 b1 H1) as [[L1 U1] S1].
  destruct (rne_div_spec a2 b2 H2) as [[L2 U2] S2].
  set (n1 := rne_div a1 b1) in *. set (n2 := rne_div a2 b2) in *.
  destruct (Z_le_gt_dec n1 n2) as [|G]; [assumption|exfalso].
  assert (P : 0 < b1 * b2) by nia.
  assert (C1 : (2 * n1 - 1) * (b1 * b2) <= 2 * a1 * b2) by nia.
  assert (C2 : 2 * a2 * b1 <= (2 * n2 + 1) * (b1 * b2)) by nia.
  assert (C3 : (2 * n1 - 1) * (b1 * b2) <= (2 * n2 + 1) * (b1 * b2)) by nia.
  assert (E : n1 = n2 + 1) by nia.
  destruct (Z.odd n1) eqn:O1.
  - specialize (S1 eq_refl). nia.
  - assert (O2 : Z.odd n2 = true).
    { rewrite E, Z.odd_add in O1. destruct (Z.odd n2); [reflexivity | discriminate]. }
    specialize (S2 O2). nia.
Qed.

Lemma rne_div_exact k b : 0 < b -> rne_div (k * b) b = k.
Proof.
  intros Hb. unfold rne_div. rewrite Z.div_mul, Z.mod_mul by lia.
  assert (C : (2 * 0 ?= b) = Lt) by (apply Z.compare_lt_iff; lia).
  rewrite C. reflexivity.
Qed.

Lemma rne_div_scale a b c :
  0 < b -> 0 < c -> rne_div (a * c) (b * c) = rne_div a b.
Proof.
  intros Hb Hc. unfold rne_div.
  rewrite Z.div_mul_cancel_r, Z.mul_mod_distr_r by lia.
  assert (C : (2 * (a mod b * c) ?= b * c) = (2 * (a mod b) ?= b)).
  { destruct (Z.compare_spec (2 * (a mod b * c)) (b * c));
      destruct (Z.compare_spec (2 * (a mod b)) b); try reflexivity; nia. }
  rewrite C. reflexivity.
Qed.

Lemma Zdigits2_mono x y : 0 <= x <= y -> Zdigits2 x <= Zdigits2 y.
Proof.
  intros [Hx Hxy].
  destruct (Z.eq_dec x 0) as [-> | Nx]; [apply Zdigits2_nonneg|].
  pose proof (Zdigits2_bounds x ltac:(lia)) as [Xl Xu].
  pose proof (Zdigits2_bounds y ltac:(lia)) as [Yl Yu].
  destruct (Z_le_gt_dec (Zdigits2 x) (Zdigits2 y)); [assumption|].
  assert (2 ^ Zdigits2 y <= 2 ^ (Zdigits2 x - 1)).
  { apply Z.pow_le_mono_r; [lia|]. lia. }
  lia.
Qed.

Lemma div_frac_mono n1 d1 n2 d2 :
  0 < d1 -> 0 < d2 -> n1 * d2 <= n2 * d1 -> n1 / d1 <= n2 / d2.
Proof.
  intros H1 H2 Hle. apply Z.div_le_lower_bound; [assumption|].
  pose proof (Z.mul_div_le n1 d1 H1). nia.
Qed.

(** Rounding to binary64 keeps the order of exact values. *)
Lemma round_units_mono n1 d1 n2 d2 :
  0 <= n1 -> 0 < d1 -> 0 < d2 -> n1 * d2 <= n2 * d1 ->
  round_units n1 d1 <= round_units n2 d2.
Proof.
  intros Hn1 H1 H2 Hle. unfold round_units.
  assert (Hn2 : 0 <= n2) by nia.
  assert (Hq : n1 / d1 <= n2 / d2) by (apply div_frac_mono; assumption).
  assert (Hq1 : 0 <= n1 / d1) by (apply Z.div_pos; lia).
  assert (Hq2 : 0 <= n2 / d2) by (apply Z.div_pos; lia).
  pose proof (Zdigits2_mono (n1 / d1) (n2 / d2) (conj Hq1 Hq)) as Hd.
  set (s1 := Z.max (Zdigits2 (n1 / d1) - 53) 0).
  set (s2 := Z.max (Zdigits2 (n2 / d2) - 53) 0).
  assert (Hs : 0 <= s1 <= s2) by (subst s1 s2; lia).
  assert (P1 : 0 < 2 ^ s1) by (apply pow2_pos; lia).
  assert (P2 : 0 < 2 ^ s2) by (apply pow2_pos; lia).
  destruct (Z.eq_dec s1 s2) as [E | N].
  - rewrite <- E. apply Z.mul_le_mono_nonneg_r; [lia|].
    apply rne_div_mono; nia.
  - (* a lower binade on the left: at most 2^(53+s1), at least 2^(52+s2) *)
    assert (U : rne_div n1 (d1 * 2 ^ s1) <= 2 ^ 53).
    { rewrite <- (rne_div_exact (2 ^ 53) (d1 * 2 ^ s1)) by nia.
      apply rne_div_mono; try nia.
      assert (X : n1 / d1 < 2 ^ (53 + s1)) by (apply digits_lt_pow; subst s1; lia).
      rewrite Z.pow_add_r in X by lia.
      assert (Y : n1 <= 2 ^ 53 * (d1 * 2 ^ s1)).
      { pose proof (Z.div_mod n1 d1 ltac:(lia)). pose proof (Z.mod_pos_bound n1 d1 H1).
        set (c := 2 ^ 53 * 2 ^ s1) in *. replace (2 ^ 53 * (d1 * 2 ^ s1)) with (d1 * c) by (subst c; ring).
        nia. }
      apply Z.mul_le_mono_nonneg_r; nia. }
    assert (L : 2 ^ 52 <= rne_div n2 (d2 * 2 ^ s2)).
    { rewrite <- (rne_div_exact (2 ^ 52) (d2 * 2 ^ s2)) at 1 by nia.
      apply rne_div_mono; try nia.
      assert (X : 2 ^ (53 + s2 - 1) <= n2 / d2) by (apply digits_ge_pow; subst s2; lia).
      replace (53 + s2 - 1) with (52 + s2) in X by lia.
      rewrite Z.pow_add_r in X by lia.
      pose proof (Z.mul_div_le n2 d2 H2) as Y.
      assert (Z : 2 ^ 52 * 2 ^ s2 * d2 <= n2).
      { apply Z.le_trans with (d2 * (n2 / d2)); [|assumption].
        rewrite (Z.mul_comm d2). apply Z.mul_le_mono_nonneg_r; lia. }
      replace (2 ^ 52 * (d2 * 2 ^ s2) * (d2 * 2 ^ s2))
        with (2 ^ 52 * 2 ^ s2 * d2 * (d2 * 2 ^ s2)) by ring.
      apply Z.mul_le_mono_nonneg_r; nia. }
    apply Z.le_trans with (2 ^ 53 * 2 ^ s1); [nia|].
    apply Z.le_trans with (2 ^ 52 * 2 ^ s2); [|nia].
    rewrite <- !Z.pow_add_r by lia. apply Z.pow_le_mono_r; lia.
Qed.

(** [binary_round_aux] in units of [2 ^ -1074]. *)
Lemma bra_units a b ex :
  0 <= a -> 0 < b ->
  let t := fexp prec emax (Zdigits2 (a / b) + ex) in
  ex <= t -> t <= 970 ->
  let f := binary_round_aux prec emax false (a / b) ex (loc_of (a mod b) b) in
  good f /\
  sval f = round_units (a * 2 ^ Z.max (ex + 1074) 0) (b * 2 ^ Z.max (- (ex + 1074)) 0).
Proof.
  intros Ha Hb t Hex Ht f.
  destruct (bra_correct a b ex Ha Hb Hex Ht) as [G V]. fold t in V. fold f in G, V.
  split; [assumption|]. rewrite V. clear G V f.
  assert (Hq : 0 <= a / b) by (apply Z.div_pos; lia).
  pose proof (Zdigits2_nonneg (a / b)) as Hd0.
  set (d := Zdigits2 (a / b)) in *.
  assert (Et : t + 1074 = Z.max (d + ex + 1074 - 53) 0) by (subst t; rewrite fexp_eq; lia).
  unfold round_units.
  destruct (Z_le_gt_dec (ex + 1074) 0) as [K | K].
  - (* the input exponent is below the least one *)
    rewrite (Z.max_r (ex + 1074) 0) by lia. rewrite (Z.max_l (- (ex + 1074)) 0) by lia.
    set (j := - (ex + 1074)). assert (Hj : 0 <= j) by (subst j; lia).
    change (2 ^ 0) with 1. rewrite Z.mul_1_r.
    assert (Pj : 0 < 2 ^ j) by (apply pow2_pos; lia).
    assert (Hfl : a / (b * 2 ^ j) = (a / b) / 2 ^ j) by (rewrite Z.div_div by lia; reflexivity).
    assert (Es : Z.max (Zdigits2 (a / (b * 2 ^ j)) - 53) 0 = t + 1074).
    { rewrite Hfl, Et.
      assert (Q0 : 0 <= a / b / 2 ^ j) by (apply Z.div_pos; lia).
      destruct (Z_le_gt_dec (d - j - 53) 0) as [S | S].
      - assert (Zdigits2 (a / b / 2 ^ j) <= 53); [|subst j; lia].
        apply digits_le_of_lt; [|lia]. split; [assumption|].
        apply Z.div_lt_upper_bound; [lia|]. rewrite <- Z.pow_add_r by lia.
        apply digits_lt_pow; subst d; lia.
      - assert (Zdigits2 (a / b / 2 ^ j) = d - j); [|subst j; lia].
        assert (Hdp : 0 < d) by lia.
        assert (Qp : 2 ^ (d - 1) <= a / b) by (apply digits_ge_pow; subst d; lia).
        assert (Qu : a / b < 2 ^ d) by (apply digits_lt_pow; subst d; lia).
        assert (L : 2 ^ (d - j - 1) <= a / b / 2 ^ j).
        { apply Z.div_le_lower_bound; [lia|]. rewrite <- Z.pow_add_r by lia.
          replace (j + (d - j - 1)) with (d - 1) by lia. assumption. }
        assert (U : a / b / 2 ^ j < 2 ^ (d - j)).
        { apply Z.div_lt_upper_bound; [lia|]. rewrite <- Z.pow_add_r by lia.
          replace (j + (d - j)) with d by lia. assumption. }
        apply Zdigits2_unique; [split; assumption|].
        assert (0 < 2 ^ (d - j - 1)) by (apply pow2_pos; lia). lia. }
    rewrite Es. f_equal. f_equal.
    replace (t - ex) with (j + (t + 1074)) by (subst j; lia).
    rewrite Z.pow_add_r by lia. ring.
  - (* the input exponent is a float exponent *)
    rewrite (Z.max_l (ex + 1074) 0) by lia. rewrite (Z.max_r (- (ex + 1074)) 0) by lia.
    set (k := ex + 1074) in *.
    change (2 ^ 0) with 1. rewrite Z.mul_1_r.
    assert (Pk : 0 < 2 ^ k) by (apply pow2_pos; lia).
    assert (Hdp : 0 < d).
    { destruct (Z.eq_dec d 0) as [E | E]; [|lia]. exfalso.
      subst t. rewrite fexp_eq in Hex. fold d in Hex. lia. }
    assert (Qp : 2 ^ (d - 1) <= a / b) by (apply digits_ge_pow; subst d; lia).
    assert (Qu : a / b < 2 ^ d) by (apply digits_lt_pow; subst d; lia).
    pose proof (Z.div_mod a b ltac:(lia)) as Dm.
    pose proof (Z.mod_pos_bound a b Hb) as Rm.
    assert (Al : b * 2 ^ (d - 1) <= a) by nia.
    assert (Au : a < b * 2 ^ d) by nia.
    assert (Ed : Zdigits2 (a * 2 ^ k / b) = d + k).
    { assert (L : 2 ^ (d + k - 1) <= a * 2 ^ k / b).
      { apply Z.div_le_lower_bound; [lia|].
        replace (d + k - 1) with ((d - 1) + k) by lia. rewrite Z.pow_add_r by lia.
        rewrite Z.mul_assoc. apply Z.mul_le_mono_nonneg_r; lia. }
      assert (U : a * 2 ^ k / b < 2 ^ (d + k)).
      { apply Z.div_lt_upper_bound; [lia|]. rewrite Z.pow_add_r by lia.
        rewrite Z.mul_assoc. apply Z.mul_lt_mono_pos_r; lia. }
      apply Zdigits2_unique; [split; assumption|].
      assert (0 < 2 ^ (d + k - 1)) by (apply pow2_pos; lia). lia. }
    rewrite Ed.
    assert (Es : Z.max (d + k - 53) 0 = t + 1074) by (subst k; lia).
    rewrite Es. f_equal.
    replace (t + 1074) with ((t - ex) + k) by (subst k; lia).
    rewrite Z.pow_add_r by (subst k; lia).
    rewrite Z.mul_assoc. symmetry. apply rne_div_scale; [|assumption].
    assert (0 < 2 ^ (t - ex)) by (apply pow2_pos; lia). nia.
Qed.

Lemma round_units_ext n1 d1 n2 d2 :
  0 <= n1 -> 0 < d1 -> 0 < d2 -> n1 * d2 = n2 * d1 ->
  round_units n1 d1 = round_units n2 d2.
Proof.
  intros Hn H1 H2 E. assert (0 <= n2) by nia.
  apply Z.le_antisymm; apply round_units_mono; lia.
Qed.

Lemma round_units_0 d : 0 < d -> round_units 0 d = 0.
Proof.
  intros Hd. unfold round_units. rewrite Z.div_0_l by lia. cbn [Zdigits2].
  change (Z.max (0 - 53) 0) with 0. change (2 ^ 0) with 1.
  rewrite !Z.mul_1_r. replace 0 with (0 * d) at 1 by lia. apply rne_div_exact. assumption.
Qed.

Lemma digits_shift m k : 0 < m -> 0 <= k -> Zdigits2 (m * 2 ^ k) = Zdigits2 m + k.
Proof.
  intros Hm Hk. pose proof (Zdigits2_bounds m Hm) as [L U].
  assert (P : 0 < 2 ^ k) by (apply pow2_pos; lia).
  pose proof (Zdigits2_nonneg m).
  assert (D : 0 < Zdigits2 m) by (destruct m; cbn in *; lia).
  apply Zdigits2_unique; [|nia].
  replace (Zdigits2 m + k - 1) with ((Zdigits2 m - 1) + k) by lia.
  rewrite !Z.pow_add_r by lia. split.
  - apply Z.mul_le_mono_nonneg_r; lia.
  - apply Z.mul_lt_mono_pos_r; lia.
Qed.

(** What being canonical gives on a positive finite float. *)
Lemma good_finite m e :
  good (S754_finite false m e) ->
  -1074 <= e <= 971 /\ Zdigits2 (Zpos m) <= 53 /\ (Zdigits2 (Zpos m) = 53 \/ e = -1074)
  /\ 0 < Zdigits2 (Zpos m).
Proof.
  cbn [good]. rewrite bounded_iff. cbn [Zdigits2]. lia.
Qed.

Lemma good_valid f : good f -> valid_binary f = true.
Proof. destruct f as [s | s | | [] m e]; cbn; intros G; try contradiction; auto. Qed.

Lemma sval_nonneg f : 0 <= sval f.
Proof.
  destruct f as [s | s | | s m e]; cbn [sval]; lia.
Qed.

Lemma sval_finite_pos m e : good (S754_finite false m e) -> 0 < sval (S754_finite false m e).
Proof.
  intros G. apply good_finite in G. cbn [sval].
  assert (0 < 2 ^ (e + 1074)) by (apply pow2_pos; lia). nia.
Qed.

(** A float rounds to itself. *)
Lemma round_units_id f : good f -> round_units (sval f) 1 = sval f.
Proof.
  destruct f as [s | s | | [] m e]; cbn [good]; intros G; try contradiction.
  - apply round_units_0. lia.
  - pose proof (good_finite m e G) as (He & Hd & Hc & Hp).
    cbn [sval]. unfold round_units. rewrite Z.div_1_r, Z.mul_1_l.
    rewrite digits_shift by lia.
    assert (Es : Z.max (Zdigits2 (Zpos m) + (e + 1074) - 53) 0 = e + 1074) by lia.
    rewrite Es. rewrite rne_div_exact by (apply pow2_pos; lia). reflexivity.
Qed.

(** Comparison of canonical floats is comparison of their values. *)
Lemma SFcompare_units x y :
  good x -> good y -> SFcompare x y = Some (sval x ?= sval y).
Proof.
  intros Gx Gy.
  destruct x as [sx | sx | | [] mx ex]; cbn [good] in Gx; try contradiction;
    destruct y as [sy | sy | | [] my ey]; cbn [good] in Gy; try contradiction.
  - reflexivity.
  - pose proof (sval_finite_pos my ey Gy) as P. cbn [SFcompare]. f_equal.
    symmetry. apply Z.compare_lt_iff. cbn [sval] in *. lia.
  - pose proof (sval_finite_pos mx ex Gx) as P. cbn [SFcompare]. f_equal.
    symmetry. apply Z.compare_gt_iff. cbn [sval] in *. lia.
  - pose proof (good_finite mx ex Gx) as (Hex & Hdx & Hcx & Hpx).
    pose proof (good_finite my ey Gy) as (Hey & Hdy & Hcy & Hpy).
    pose proof (Zdigits2_bounds (Zpos mx) ltac:(lia)) as [Lx Ux].
    pose proof (Zdigits2_bounds (Zpos my) ltac:(lia)) as [Ly Uy].
    cbn [SFcompare sval]. f_equal.
    destruct (Z.compare_spec ex ey) as [E | E | E].
    + subst ey. change (Pos.compare_cont Eq mx my) with (Zpos mx ?= Zpos my).
      assert (P : 0 < 2 ^ (ex + 1074)) by (apply pow2_pos; lia).
      destruct (Z.compare_spec (Zpos mx) (Zpos my)); symmetry;
        [apply Z.compare_eq_iff | apply Z.compare_lt_iff | apply Z.compare_gt_iff]; nia.
    + symmetry. apply Z.compare_lt_iff.
      assert (Dy : Zdigits2 (Zpos my) = 53) by lia. rewrite Dy in Ly.
      assert (Xu : Zpos mx < 2 ^ 53).
      { apply Z.lt_le_trans with (2 ^ Zdigits2 (Zpos mx)); [assumption|].
        apply Z.pow_le_mono_r; lia. }
      replace (ey + 1074) with ((ey - ex - 1) + 1 + (ex + 1074)) by lia.
      rewrite (Z.pow_add_r 2 (ey - ex - 1 + 1) (ex + 1074)), (Z.pow_add_r 2 (ey - ex - 1) 1) by lia.
      assert (P : 0 < 2 ^ (ex + 1074)) by (apply pow2_pos; lia).
      assert (Q : 0 < 2 ^ (ey - ex - 1)) by (apply pow2_pos; lia).
      change (2 ^ 1) with 2. change (53 - 1) with 52 in Ly.
      change (2 ^ 53) with (2 * 2 ^ 52) in Xu. set (c := 2 ^ 52) in *.
      clearbody c. set (p := 2 ^ (ex + 1074)) in *. set (q := 2 ^ (ey - ex - 1)) in *.
      clearbody p q.
      assert (S1 : Zpos mx * p < 2 * Zpos my * p) by nia.
      assert (S2 : 2 * Zpos my * p * 1 <= 2 * Zpos my * p * q) by (apply Z.mul_le_mono_nonneg_l; nia).
      lia.
    + symmetry. apply Z.compare_gt_iff.
      assert (Dx : Zdigits2 (Zpos mx) = 53) by lia. rewrite Dx in Lx.
      assert (Yu : Zpos my < 2 ^ 53).
      { apply Z.lt_le_trans with (2 ^ Zdigits2 (Zpos my)); [assumption|].
        apply Z.pow_le_mono_r; lia. }
      replace (ex + 1074) with ((ex - ey - 1) + 1 + (ey + 1074)) by lia.
      rewrite (Z.pow_add_r 2 (ex - ey - 1 + 1) (ey + 1074)), (Z.pow_add_r 2 (ex - ey - 1) 1) by lia.
      assert (P : 0 < 2 ^ (ey + 1074)) by (apply pow2_pos; lia).
      assert (Q : 0 < 2 ^ (ex - ey - 1)) by (apply pow2_pos; lia).
      change (2 ^ 1) with 2. change (53 - 1) with 52 in Lx.
      change (2 ^ 53) with (2 * 2 ^ 52) in Yu. set (c := 2 ^ 52) in *.
      clearbody c. set (p := 2 ^ (ey + 1074)) in *. set (q := 2 ^ (ex - ey - 1)) in *.
      clearbody p q.
      assert (S1 : Zpos my * p < 2 * Zpos mx * p) by nia.
      assert (S2 : 2 * Zpos mx * p * 1 <= 2 * Zpos mx * p * q) by (apply Z.mul_le_mono_nonneg_l; nia).
      lia.
Qed.

Lemma SFleb_units x y : good x -> good y -> SFleb x y = (sval x <=? sval y).
Proof.
  intros Gx Gy. unfold SFleb. rewrite (SFcompare_units x y Gx Gy).
  unfold Z.leb. destruct (sval x ?= sval y); reflexivity.
Qed.

Lemma bra_units_exact m ex :
  0 <= m ->
  let t := fexp prec emax (Zdigits2 m + ex) in
  ex <= t -> t <= 970 ->
  let f := binary_round_aux prec emax false m ex loc_Exact in
  good f /\
  sval f = round_units (m * 2 ^ Z.max (ex + 1074) 0) (2 ^ Z.max (- (ex + 1074)) 0).
Proof.
  intros Hm t Hex Ht f.
  pose proof (bra_units m 1 ex Hm ltac:(lia)) as B.
  rewrite Z.div_1_r, Z.mod_1_r, Z.mul_1_l in B.
  exact (B Hex Ht).
Qed.

Lemma digits_pow2 n : 0 <= n -> Zdigits2 (2 ^ n) = n + 1.
Proof.
  intros Hn. rewrite <- (Z.mul_1_l (2 ^ n)). rewrite digits_shift by lia. change (Zdigits2 1) with 1. lia.
Qed.

Lemma digits_mul_lower x y :
  0 < x -> 0 < y -> Zdigits2 x + Zdigits2 y - 1 <= Zdigits2 (x * y).
Proof.
  intros Hx Hy.
  pose proof (Zdigits2_bounds x Hx) as [Lx _]. pose proof (Zdigits2_bounds y Hy) as [Ly _].
  assert (Dx : 0 < Zdigits2 x) by (destruct x; cbn in *; lia).
  assert (Dy : 0 < Zdigits2 y) by (destruct y; cbn in *; lia).
  assert (P : 2 ^ (Zdigits2 x - 1 + (Zdigits2 y - 1)) <= x * y).
  { rewrite Z.pow_add_r by lia.
    assert (0 < 2 ^ (Zdigits2 x - 1)) by (apply pow2_pos; lia).
    assert (0 < 2 ^ (Zdigits2 y - 1)) by (apply pow2_pos; lia). nia. }
  assert (M : Zdigits2 (2 ^ (Zdigits2 x - 1 + (Zdigits2 y - 1))) <= Zdigits2 (x * y)).
  { apply Zdigits2_mono. split; [|assumption]. apply Z.pow_nonneg. lia. }
  rewrite digits_pow2 in M by lia. lia.
Qed.

Lemma pow2_lt_inv a b : 0 <= a -> 2 ^ a < 2 ^ b -> a < b.
Proof.
  intros Ha H. destruct (Z_lt_le_dec a b); [assumption|].
  destruct (Z_lt_le_dec b 0).
  - rewrite (Z.pow_neg_r 2 b) in H by lia. assert (0 < 2 ^ a) by (apply pow2_pos; lia). lia.
  - assert (2 ^ b <= 2 ^ a) by (apply Z.pow_le_mono_r; lia). lia.
Qed.

(** Multiplication of two canonical floats, in units of [2 ^ -1074]. *)
Lemma SFmul_units x y :
  good x -> good y -> sval x * sval y < 2 ^ 3171 ->
  good (SF64mul x y) /\
  sval (SF64mul x y) = round_units (sval x * sval y) (2 ^ 1074).
Proof.
  assert (P74 : 0 < 2 ^ 1074) by (apply pow2_pos; lia).
  intros Gx Gy Hov.
  destruct x as [sx | sx | | [] mx ex]; cbn [good] in Gx; try contradiction;
    destruct y as [sy | sy | | [] my ey]; cbn [good] in Gy; try contradiction;
    unfold SF64mul; cbn [SFmul sval xorb].
  - split; [exact I|]. cbn [sval]. rewrite round_units_0 by lia. reflexivity.
  - split; [exact I|]. cbn [sval]. rewrite Z.mul_0_l, round_units_0 by lia. reflexivity.
  - split; [exact I|]. cbn [sval]. rewrite Z.mul_0_r, round_units_0 by lia. reflexivity.
  - pose proof (good_finite mx ex Gx) as (Hex & Hdx & Hcx & Hpx).
    pose proof (good_finite my ey Gy) as (Hey & Hdy & Hcy & Hpy).
    cbn [sval] in Hov.
    rewrite Pos2Z.inj_mul.
    set (a := Zpos mx * Zpos my) in *.
    assert (Ha : 0 < a) by (subst a; lia).
    pose proof (digits_mul_lower (Zpos mx) (Zpos my) ltac:(lia) ltac:(lia)) as Dl. fold a in Dl.
    pose proof (Zdigits2_bounds a Ha) as [La Ua].
    assert (Dp : 0 < Zdigits2 a) by lia.
    assert (Hex' : ex + ey <= fexp prec emax (Zdigits2 a + (ex + ey))) by (rewrite fexp_eq; lia).
    assert (Ht : fexp prec emax (Zdigits2 a + (ex + ey)) <= 970).
    { rewrite fexp_eq.
      assert (Zdigits2 a - 1 + (ex + 1074) + (ey + 1074) < 3171); [|lia].
      apply pow2_lt_inv; [lia|].
      apply Z.le_lt_trans with (Zpos mx * 2 ^ (ex + 1074) * (Zpos my * 2 ^ (ey + 1074))); [|assumption].
      rewrite !Z.pow_add_r by lia.
      assert (0 < 2 ^ (ex + 1074)) by (apply pow2_pos; lia).
      assert (0 < 2 ^ (ey + 1074)) by (apply pow2_pos; lia).
      replace (Zpos mx * 2 ^ (ex + 1074) * (Zpos my * 2 ^ (ey + 1074)))
        with (a * 2 ^ (ex + 1074) * 2 ^ (ey + 1074)) by (subst a; ring).
      apply Z.mul_le_mono_nonneg_r; [lia|]. apply Z.mul_le_mono_nonneg_r; lia. }
    destruct (bra_units_exact a (ex + ey) ltac:(lia) Hex' Ht) as [G V].
    split; [exact G|]. rewrite V.
    set (k := ex + ey + 1074).
    assert (Pk1 : 0 < 2 ^ Z.max k 0) by (apply pow2_pos; lia).
    assert (Pk2 : 0 < 2 ^ Z.max (- k) 0) by (apply pow2_pos; lia).
    apply round_units_ext; try nia.
    replace (Zpos mx * 2 ^ (ex + 1074) * (Zpos my * 2 ^ (ey + 1074)))
      with (a * (2 ^ (ex + 1074) * 2 ^ (ey + 1074))) by (subst a; ring).
    rewrite <- !Z.mul_assoc. f_equal.
    rewrite <- !Z.pow_add_r by lia. f_equal. subst k. lia.
Qed.

Lemma iter_xO m d : Zpos (Pos.iter xO m d) = Zpos m * 2 ^ Zpos d.
Proof.
  induction d as [| d IH] using Pos.peano_ind.
  - cbn [Pos.iter]. change (2 ^ 1) with 2. lia.
  - rewrite Pos.iter_succ, Pos2Z.inj_xO, IH, Pos2Z.inj_succ, Z.pow_succ_r by lia. ring.
Qed.

Lemma shl_align_fst m e e' :
  e' <= e -> Zpos (fst (shl_align m e e')) = Zpos m * 2 ^ (e - e').
Proof.
  intros H. unfold shl_align.
  destruct (e' - e) as [| d | d] eqn:E; cbn [fst].
  - replace (e - e') with 0 by lia. change (2 ^ 0) with 1. lia.
  - lia.
  - rewrite iter_xO. f_equal. f_equal. lia.
Qed.

Lemma shl_align_noop m e e' : e <= e' -> shl_align m e e' = (m, e).
Proof.
  intros H. unfold shl_align. destruct (e' - e) as [| d | d] eqn:E; try reflexivity. lia.
Qed.

(** Addition of two canonical floats, in units of [2 ^ -1074]. *)
Lemma SFadd_units x y :
  good x -> good y -> sval x + sval y < 2 ^ 2097 ->
  good (SF64add x y) /\
  sval (SF64add x y) = round_units (sval x + sval y) 1.
Proof.
  intros Gx Gy Hov.
  destruct x as [sx | sx | | [] mx ex] eqn:Ex; cbn [good] in Gx; try contradiction;
    destruct y as [sy | sy | | [] my ey] eqn:Ey; cbn [good] in Gy; try contradiction;
    unfold SF64add; cbn [SFadd].
  - destruct sx, sy; (split; [exact I|]); cbn [sval]; rewrite round_units_0 by lia; reflexivity.
  - split; [exact Gy|]. change (sval (S754_zero sx)) with 0. rewrite Z.add_0_l.
    symmetry. apply round_units_id. exact Gy.
  - split; [exact Gx|]. change (sval (S754_zero sy)) with 0. rewrite Z.add_0_r.
    symmetry. apply round_units_id. exact Gx.
  - pose proof (good_finite mx ex Gx) as (Hex & Hdx & Hcx & Hpx).
    pose proof (good_finite my ey Gy) as (Hey & Hdy & Hcy & Hpy).
    cbn [sval] in Hov |- *. cbn [cond_Zopp].
    set (ez := Z.min ex ey).
    rewrite <- Pos2Z.inj_add.
    set (M := (fst (shl_align mx ex ez) + fst (shl_align my ey ez))%positive).
    assert (EM : Zpos M = Zpos mx * 2 ^ (ex - ez) + Zpos my * 2 ^ (ey - ez)).
    { subst M. rewrite Pos2Z.inj_add, !shl_align_fst by (subst ez; lia). reflexivity. }
    assert (Px : 0 < 2 ^ (ex - ez)) by (apply pow2_pos; subst ez; lia).
    assert (Py : 0 < 2 ^ (ey - ez)) by (apply pow2_pos; subst ez; lia).
    assert (Pz : 0 < 2 ^ (ez + 1074)) by (apply pow2_pos; subst ez; lia).
    assert (EV : Zpos M * 2 ^ (ez + 1074)
                 = Zpos mx * 2 ^ (ex + 1074) + Zpos my * 2 ^ (ey + 1074)).
    { rewrite EM, Z.mul_add_distr_r, <- !Z.mul_assoc, <- !Z.pow_add_r by (subst ez; lia).
      f_equal; f_equal; f_equal; lia. }
    assert (Dm : Z.max (Zdigits2 (Zpos mx) + ex) (Zdigits2 (Zpos my) + ey) <= Zdigits2 (Zpos M) + ez
                 /\ ez <= fexp prec emax (Zdigits2 (Zpos M) + ez)).
    { assert (Ax : Zdigits2 (Zpos mx * 2 ^ (ex - ez)) <= Zdigits2 (Zpos M))
        by (apply Zdigits2_mono; nia).
      assert (Ay : Zdigits2 (Zpos my * 2 ^ (ey - ez)) <= Zdigits2 (Zpos M))
        by (apply Zdigits2_mono; nia).
      rewrite digits_shift in Ax, Ay by (subst ez; lia).
      rewrite fexp_eq. subst ez. lia. }
    destruct Dm as [Dm Hez].
    cbn [binary_normalize]. unfold binary_round.
    change (Zpos (digits2_pos M)) with (Zdigits2 (Zpos M)).
    rewrite shl_align_noop by exact Hez.
    assert (Ht : fexp prec emax (Zdigits2 (Zpos M) + ez) <= 970).
    { rewrite fexp_eq.
      pose proof (Zdigits2_bounds (Zpos M) ltac:(lia)) as [LM _].
      assert (DM : 0 < Zdigits2 (Zpos M)) by (cbn; lia).
      assert (Zdigits2 (Zpos M) - 1 + (ez + 1074) < 2097); [|lia].
      apply pow2_lt_inv; [subst ez; lia|].
      apply Z.le_lt_trans with (Zpos M * 2 ^ (ez + 1074)); [|rewrite EV; assumption].
      rewrite Z.pow_add_r by (subst ez; lia). apply Z.mul_le_mono_nonneg_r; lia. }
    destruct (bra_units_exact (Zpos M) ez ltac:(lia) Hez Ht) as [G V].
    split; [exact G|]. rewrite V.
    rewrite (Z.max_l (ez + 1074) 0), (Z.max_r (- (ez + 1074)) 0) by (subst ez; lia).
    rewrite EV. reflexivity.
Qed.

Lemma div_eucl_eq a b : Z.div_eucl a b = (a / b, a mod b).
Proof. unfold Z.div, Z.modulo. destruct (Z.div_eucl a b). reflexivity. Qed.

Lemma new_location_eq b r : 0 < b -> 0 <= r < b -> new_location b r = loc_of r b.
Proof.
  intros Hb Hr. unfold new_location, loc_of.
  destruct (Z.even b) eqn:Ev.
  - reflexivity.
  - unfold new_location_odd. destruct (r =? 0); [reflexivity|]. f_equal.
    assert (Hodd : Z.odd b = true) by (rewrite <- Z.negb_even, Ev; reflexivity).
    apply Z.odd_spec in Hodd. destruct Hodd as [c Hc].
    destruct (Z.compare_spec (2 * r + 1) b); destruct (Z.compare_spec (2 * r) b);
      try reflexivity; lia.
Qed.

(** The quotient of two positive [int]s, the smaller first, in units of
    [2 ^ -1074]. *)
Lemma SFdiv_ints_units a b :
  0 <= a <= b -> 0 < b ->
  good (SF64div (Z2SF a) (Z2SF b)) /\
  sval (SF64div (Z2SF a) (Z2SF b)) = round_units (a * 2 ^ 1074) b.
Proof.
  intros [Ha Hab] Hb.
  destruct b as [| pb | pb]; try lia.
  destruct a as [| pa | pa]; try lia.
  - unfold SF64div. cbn [Z2SF SFdiv xorb sval good]. split; [exact I|].
    rewrite Z.mul_0_l, round_units_0 by lia. reflexivity.
  - unfold SF64div. cbn [Z2SF SFdiv xorb]. unfold SFdiv_core_binary.
    set (a := Zpos pa) in *. set (b := Zpos pb) in *.
    set (d1 := Zdigits2 a). set (d2 := Zdigits2 b).
    assert (Hd : 0 < d1 <= d2).
    { split; [subst d1 a; cbn; lia|]. apply Zdigits2_mono. lia. }
    pose proof (Zdigits2_bounds a ltac:(lia)) as [La Ua]. fold d1 in La, Ua.
    pose proof (Zdigits2_bounds b ltac:(lia)) as [Lb Ub]. fold d2 in Lb, Ub.
    replace (d1 + 0 - (d2 + 0)) with (d1 - d2) by lia.
    change (0 - 0) with 0.
    set (e' := Z.min (fexp prec emax (d1 - d2)) 0).
    assert (He : e' = Z.max (d1 - d2 - 53) (-1074)) by (subst e'; rewrite fexp_eq; lia).
    set (s := 0 - e').
    assert (Hs : 53 <= s <= 1074) by (subst s; lia).
    assert (Em : match s with
                 | 0 => a
                 | Zpos _ => Z.shiftl a s
                 | Zneg _ => 0
                 end = a * 2 ^ s).
    { destruct s eqn:Es; try lia. rewrite Z.shiftl_mul_pow2 by lia. reflexivity. }
    rewrite Em, div_eucl_eq.
    assert (Ps : 0 < 2 ^ s) by (apply pow2_pos; lia).
    set (A := a * 2 ^ s).
    assert (HA : 0 <= A) by (subst A; nia).
    rewrite new_location_eq by (try apply Z.mod_pos_bound; lia).
    assert (Hq : 0 <= A / b) by (apply Z.div_pos; lia).
    assert (Hqu : A / b <= 2 ^ s).
    { apply Z.div_le_upper_bound; [lia|]. subst A. nia. }
    assert (Hdq : Zdigits2 (A / b) <= s + 1).
    { rewrite <- (digits_pow2 s) by lia. apply Zdigits2_mono. lia. }
    assert (Hex : e' <= fexp prec emax (Zdigits2 (A / b) + e')).
    { rewrite fexp_eq. destruct (Z.eq_dec e' (-1074)) as [E | E]; [lia|].
      assert (Es : s = 53 + d2 - d1) by (subst s; lia).
      assert (L : 2 ^ 52 <= A / b).
      { apply Z.div_le_lower_bound; [lia|].
        apply Z.le_trans with (2 ^ d2 * 2 ^ 52); [nia|].
        apply Z.le_trans with (2 ^ (d1 - 1) * 2 ^ s); [|subst A; nia].
        rewrite <- !Z.pow_add_r by lia. apply Z.pow_le_mono_r; lia. }
      assert (53 <= Zdigits2 (A / b)); [|lia].
      pose proof (digits_pow2 52 ltac:(lia)) as D52.
      pose proof (Zdigits2_mono (2 ^ 52) (A / b) ltac:(lia)). lia. }
    assert (Ht : fexp prec emax (Zdigits2 (A / b) + e') <= 970) by (rewrite fexp_eq; lia).
    destruct (bra_units A b e' HA ltac:(lia) Hex Ht) as [G V].
    split; [exact G|]. rewrite V.
    rewrite (Z.max_l (e' + 1074) 0), (Z.max_r (- (e' + 1074)) 0) by lia.
    change (2 ^ 0) with 1. rewrite Z.mul_1_r. f_equal.
    subst A. rewrite <- Z.mul_assoc, <- Z.pow_add_r by lia. f_equal. f_equal. subst s. lia.
Qed.

(** ** The same facts on primitive floats *)

Lemma fval_nonneg x : 0 <= fval x.
Proof. apply sval_nonneg. Qed.

(** [<=] on floats is [<=] on their values. *)
Lemma fleb_units x y : fgood x -> fgood y -> (x <=? y)%float = (fval x <=? fval y).
Proof. intros Gx Gy. rewrite FloatAxioms.leb_spec. apply SFleb_units; assumption. Qed.

(** The product of two floats is the rounded exact product. *)
Lemma fmul_units x y :
  fgood x -> fgood y -> fval x * fval y < 2 ^ 3171 ->
  fgood (x * y) /\ fval (x * y) = round_units (fval x * fval y) (2 ^ 1074).
Proof. intros Gx Gy H. unfold fgood, fval. rewrite FloatAxioms.mul_spec. apply SFmul_units; assumption. Qed.

(** The sum of two floats is the rounded exact sum. *)
Lemma fadd_units x y :
  fgood x -> fgood y -> fval x + fval y < 2 ^ 2097 ->
  fgood (x + y) /\ fval (x + y) = round_units (fval x + fval y) 1.
Proof. intros Gx Gy H. unfold fgood, fval. rewrite FloatAxioms.add_spec. apply SFadd_units; assumption. Qed.

Lemma fgood_not_infinity x : fgood x -> is_infinity x = false.
Proof.
  unfold fgood, is_infinity. intros G. rewrite FloatAxioms.eqb_spec, FloatAxioms.abs_spec.
  change (Prim2SF infinity) with (S754_infinity false).
  destruct (Prim2SF x) as [s | s | | [] m e]; cbn [good] in G; try contradiction; reflexivity.
Qed.

(** [a / b] on two [int]s with [0 <= a <= b] returns the exact quotient
    rounded to binary64. *)
Lemma int_truediv_units a b :
  0 <= a <= b -> 0 < b ->
  exists q, int_truediv a b = Ok q /\ fgood q /\ fval q = round_units (a * 2 ^ 1074) b.
Proof.
  intros Hab Hb. destruct (SFdiv_ints_units a b Hab Hb) as [G V].
  unfold int_truediv. destruct (Z.eqb_spec b 0) as [E | _]; [lia|].
  set (q := SF2Prim (SF64div (Z2SF a) (Z2SF b))).
  assert (Eq : Prim2SF q = SF64div (Z2SF a) (Z2SF b)).
  { subst q. apply Prim2SF_SF2Prim. apply good_valid. exact G. }
  assert (Gq : fgood q) by (unfold fgood; rewrite Eq; exact G).
  rewrite (fgood_not_infinity q Gq).
  exists q. split; [reflexivity|]. split; [exact Gq|]. unfold fval. rewrite Eq. exact V.
Qed.

(** ** Order and bounds of float expressions *)

Lemma round_units_pow2 k : 0 <= k -> round_units (2 ^ k) 1 = 2 ^ k.
Proof.
  intros Hk. unfold round_units. rewrite Z.div_1_r, Z.mul_1_l, digits_pow2 by lia.
  set (s := Z.max (k + 1 - 53) 0).
  assert (Hs : 0 <= s <= k) by (subst s; lia).
  replace (2 ^ k) with (2 ^ (k - s) * 2 ^ s) at 1
    by (rewrite <- Z.pow_add_r by lia; f_equal; lia).
  rewrite rne_div_exact by (apply pow2_pos; lia).
  rewrite <- Z.pow_add_r by lia. f_equal. lia.
Qed.

Lemma fmul_within i j x y :
  within i x -> within j y -> 1074 <= i + j <= 3170 ->
  within (i + j - 1074) (x * y).
Proof.
  intros [Gx Vx] [Gy Vy] Hij.
  pose proof (fval_nonneg x). pose proof (fval_nonneg y).
  assert (P : fval x * fval y <= 2 ^ (i + j)).
  { assert (0 <= 2 ^ (i + j)) by (apply Z.pow_nonneg; lia).
    destruct (Z_lt_le_dec i 0) as [Hi | Hi].
    { rewrite (Z.pow_neg_r 2 i) in Vx by lia. assert (fval x = 0) by lia. nia. }
    destruct (Z_lt_le_dec j 0) as [Hj | Hj].
    { rewrite (Z.pow_neg_r 2 j) in Vy by lia. assert (fval y = 0) by lia. nia. }
    rewrite Z.pow_add_r by lia. apply Z.mul_le_mono_nonneg; lia. }
  assert (B : fval x * fval y < 2 ^ 3171).
  { apply Z.le_lt_trans with (2 ^ (i + j)); [assumption|]. apply Z.pow_lt_mono_r; lia. }
  destruct (fmul_units x y Gx Gy B) as [G V]. split; [exact G|].
  rewrite V. rewrite <- (round_units_pow2 (i + j - 1074)) by lia.
  apply round_units_mono.
  - nia.
  - apply pow2_pos. lia.
  - lia.
  - rewrite Z.mul_1_r, <- Z.pow_add_r by lia. replace (i + j - 1074 + 1074) with (i + j) by lia.
    assumption.
Qed.

Lemma fadd_within i x y :
  within i x -> within i y -> 0 <= i <= 2095 -> within (i + 1) (x + y).
Proof.
  intros [Gx Vx] [Gy Vy] Hi.
  pose proof (fval_nonneg x). pose proof (fval_nonneg y).
  assert (P : fval x + fval y <= 2 ^ (i + 1)).
  { rewrite Z.pow_add_r by lia. change (2 ^ 1) with 2. lia. }
  assert (B : fval x + fval y < 2 ^ 2097).
  { apply Z.le_lt_trans with (2 ^ (i + 1)); [assumption|]. apply Z.pow_lt_mono_r; lia. }
  destruct (fadd_units x y Gx Gy B) as [G V]. split; [exact G|].
  rewrite V. rewrite <- (round_units_pow2 (i + 1)) by lia.
  apply round_units_mono; lia.
Qed.

(** Rounded multiplication and addition keep the order. *)
Lemma fmul_mono c x y i j :
  within i c -> within j y -> 1074 <= i + j <= 3170 ->
  fgood x -> fval x <= fval y ->
  fval (c * x) <= fval (c * y).
Proof.
  intros Wc Wy Hij Gx Hxy.
  assert (Wx : within j x) by (split; [exact Gx | destruct Wy; lia]).
  pose proof (fval_nonneg x). pose proof (fval_nonneg y). pose proof (fval_nonneg c).
  assert (bound : forall z, within j z -> fval c * fval z < 2 ^ 3171).
  { intros z Wz. pose proof (fval_nonneg z).
    destruct Wc as [_ Vc]. destruct Wz as [_ Vz].
    destruct (Z_lt_le_dec i 0) as [Hi | Hi].
    { rewrite Z.pow_neg_r in Vc by lia. assert (fval c = 0) by lia.
      assert (0 < 2 ^ 3171) by (apply pow2_pos; lia). nia. }
    destruct (Z_lt_le_dec j 0) as [Hj | Hj].
    { rewrite Z.pow_neg_r in Vz by lia. assert (fval z = 0) by lia.
      assert (0 < 2 ^ 3171) by (apply pow2_pos; lia). nia. }
    apply Z.le_lt_trans with (2 ^ (i + j)); [|apply Z.pow_lt_mono_r; lia].
    rewrite Z.pow_add_r by lia. apply Z.mul_le_mono_nonneg; lia. }
  destruct Wc as [Gc _]. destruct Wy as [Gy Vy].
  destruct (fmul_units c x Gc Gx (bound x Wx)) as [_ V1].
  destruct (fmul_units c y Gc Gy (bound y (conj Gy Vy))) as [_ V2].
  rewrite V1, V2. assert (0 < 2 ^ 1074) by (apply pow2_pos; lia).
  apply round_units_mono; nia.
Qed.

Lemma fadd_mono a a' b b' i :
  within i a' -> within i b' -> 0 <= i <= 2095 ->
  fgood a -> fgood b -> fval a <= fval a' -> fval b <= fval b' ->
  fval (a + b) <= fval (a' + b').
Proof.
  intros [Ga' Va'] [Gb' Vb'] Hi Ga Gb Ha Hb.
  pose proof (fval_nonneg a). pose proof (fval_nonneg b).
  assert (P : 2 ^ i + 2 ^ i < 2 ^ 2097).
  { replace (2 ^ i + 2 ^ i) with (2 ^ (i + 1)) by (rewrite Z.pow_add_r by lia; change (2 ^ 1) with 2; lia).
    apply Z.pow_lt_mono_r; lia. }
  destruct (fadd_units a b Ga Gb ltac:(lia)) as [_ V1].
  destruct (fadd_units a' b' Ga' Gb' ltac:(lia)) as [_ V2].
  rewrite V1, V2. apply round_units_mono; lia.
Qed.

Lemma fval_one : fval 1 = 2 ^ 1074.
Proof. vm_compute. reflexivity. Qed.

Lemma fgood_one : fgood 1.
Proof. vm_compute. reflexivity. Qed.

Lemma fgood_zero : fgood 0.
Proof. exact I. Qed.

Lemma within_one : within 1074 1.
Proof. split; [exact fgood_one | rewrite fval_one; lia]. Qed.

Lemma leb_zero_fgood x : fgood x -> (0 <=? x)%float = true.
Proof.
  intros G. rewrite (fleb_units 0 x fgood_zero G). apply Z.leb_le.
  change (fval 0) with 0. apply fval_nonneg.
Qed.

Ltac const_within :=
  split; [ vm_compute; first [exact I | reflexivity]
         | apply Z.leb_le; vm_compute; reflexivity ].

Lemma fgood_chain x y :
  (0 <=? x)%float = true -> (x <=? y)%float = true -> (y <=? 1)%float = true ->
  fgood x /\ fgood y.
Proof.
  rewrite !FloatAxioms.leb_spec. unfold fgood.
  change (Prim2SF 0) with (S754_zero false).
  change (Prim2SF 1) with (S754_finite false 4503599627370496 (-52)).
  pose proof (Prim2SF_valid x) as Vx. pose proof (Prim2SF_valid y) as Vy.
  destruct (Prim2SF x) as [sx | [] | | [] mx ex]; try discriminate;
    destruct (Prim2SF y) as [sy | [] | | [] my ey]; try discriminate;
    intros _ H1 H2; try discriminate H1; try discriminate H2;
    cbn [good]; auto.
Qed.

(** The quotient of a count by a total it does not exceed is in [0, 1]. *)
Lemma int_truediv_fraction a b :
  0 <= a <= b -> 0 < b -> exists q, int_truediv a b = Ok q /\ within 1074 q.
Proof.
  intros Hab Hb. destruct (int_truediv_units a b Hab Hb) as (q & E & G & V).
  exists q. split; [exact E|]. split; [exact G|].
  rewrite V. assert (0 < 2 ^ 1074) by (apply pow2_pos; lia).
  apply Z.le_trans with (round_units (2 ^ 1074) 1).
  - apply round_units_mono; nia.
  - rewrite round_units_pow2 by lia. lia.
Qed.

(** The weighted sum of [evaluate_social_post] does not decrease with the
    keyword score, and stays small. *)
Lemma quality_of_mono x y l h e :
  fgood x -> within 1074 y -> fval x <= fval y ->
  within 1077 (quality_of x l h e) /\ within 1077 (quality_of y l h e) /\
  fval (quality_of x l h e) <= fval (quality_of y l h e).
Proof.
  intros Gx Wy Hxy.
  assert (Wx : within 1074 x) by (split; [exact Gx | destruct Wy; lia]).
  assert (W3 : within 1074 0.3%float) by const_within.
  unfold quality_of.
  set (b := (0.3 * (if l then 1 else 0))%float).
  set (c := (0.2 * (if h then 1 else 0))%float).
  set (d := (0.2 * (if e then 1 else 0))%float).
  assert (Wb : within 1074 b) by (subst b; destruct l; const_within).
  assert (Wc : within 1075 c) by (subst c; destruct h; const_within).
  assert (Wd : within 1076 d) by (subst d; destruct e; const_within).
  pose proof (fmul_within 1074 1074 _ _ W3 Wx ltac:(lia)) as Wax.
  pose proof (fmul_within 1074 1074 _ _ W3 Wy ltac:(lia)) as Way.
  change (1074 + 1074 - 1074) with 1074 in Wax, Way.
  pose proof (fmul_mono _ x y 1074 1074 W3 Wy ltac:(lia) Gx Hxy) as Ma.
  pose proof (fadd_within 1074 _ _ Wax Wb ltac:(lia)) as Wbx.
  pose proof (fadd_within 1074 _ _ Way Wb ltac:(lia)) as Wby.
  pose proof (fadd_mono _ _ b b 1074 Way Wb ltac:(lia) (proj1 Wax) (proj1 Wb) Ma (Z.le_refl _)) as Mb.
  change (1074 + 1) with 1075 in Wbx, Wby.
  pose proof (fadd_within 1075 _ _ Wbx Wc ltac:(lia)) as Wcx.
  pose proof (fadd_within 1075 _ _ Wby Wc ltac:(lia)) as Wcy.
  pose proof (fadd_mono _ _ c c 1075 Wby Wc ltac:(lia) (proj1 Wbx) (proj1 Wc) Mb (Z.le_refl _)) as Mc.
  change (1075 + 1) with 1076 in Wcx, Wcy.
  pose proof (fadd_within 1076 _ _ Wcx Wd ltac:(lia)) as Wdx.
  pose proof (fadd_within 1076 _ _ Wcy Wd ltac:(lia)) as Wdy.
  pose proof (fadd_mono _ _ d d 1076 Wcy Wd ltac:(lia) (proj1 Wcx) (proj1 Wd) Mc (Z.le_refl _)) as Md.
  change (1076 + 1) with 1077 in Wdx, Wdy.
  split; [exact Wdx|]. split; [exact Wdy | exact Md].
Qed.

Lemma quality_of_leb_mono x y l h e :
  (0 <=? x)%float = true -> (x <=? y)%float = true -> (y <=? 1)%float = true ->
  (quality_of x l h e <=? quality_of y l h e)%float = true.
Proof.
  intros H0 Hxy H1. destruct (fgood_chain x y H0 Hxy H1) as [Gx Gy].
  assert (Wy : within 1074 y).
  { split; [exact Gy|]. rewrite (fleb_units y 1 Gy fgood_one) in H1.
    apply Z.leb_le in H1. rewrite fval_one in H1. exact H1. }
  rewrite (fleb_units x y Gx Gy) in Hxy. apply Z.leb_le in Hxy.
  destruct (quality_of_mono x y l h e Gx Wy Hxy) as ([G1 _] & [G2 _] & M).
  rewrite (fleb_units _ _ G1 G2). apply Z.leb_le. exact M.
Qed.

(** With the keyword score in [0, 1] the quality is in [0, 1]. *)
Lemma quality_of_range x l h e :
  within 1074 x ->
  (0 <=? quality_of x l h e)%float = true /\ (quality_of x l h e <=? 1)%float = true.
Proof.
  intros [Gx Vx]. rewrite <- fval_one in Vx.
  destruct (quality_of_mono x 1 l h e Gx within_one Vx) as ([G1 _] & [G2 _] & M).
  split; [apply leb_zero_fgood; exact G1|].
  rewrite (fleb_units _ _ G1 fgood_one). apply Z.leb_le.
  apply Z.le_trans with (fval (quality_of 1 l h e)); [exact M|].
  apply Z.leb_le. destruct l, h, e; vm_compute; reflexivity.
Qed.

(** Without the length credit the quality is at most 0.7. *)
Lemma quality_of_short x h e :
  within 1074 x -> (quality_of x false h e <=? 0.7)%float = true.
Proof.
  intros [Gx Vx]. rewrite <- fval_one in Vx.
  destruct (quality_of_mono x 1 false h e Gx within_one Vx) as ([G1 _] & [G2 _] & M).
  assert (G7 : fgood 0.7%float) by (vm_compute; reflexivity).
  rewrite (fleb_units _ _ G1 G7). apply Z.leb_le.
  apply Z.le_trans with (fval (quality_of 1 false h e)); [exact M|].
  apply Z.leb_le. destruct h, e; vm_compute; reflexivity.
Qed.

(** ** The harness *)

Lemma bind_Ok {A B : Type} (c : result A) (k : A -> result B) (b : B) :
  bind c k = Ok b -> exists a, c = Ok a /\ k a = Ok b.
Proof.
  destruct c as [a | e]; cbn [bind]; intros H; [exists a; split; [reflexivity | exact H] | discriminate H].
Qed.

Lemma within_unit_interval q :
  within 1074 q -> (0 <=? q)%float = true /\ (q <=? 1)%float = true.
Proof.
  intros [G V]. split; [apply leb_zero_fgood; exact G|].
  rewrite (fleb_units q 1 G fgood_one), fval_one. apply Z.leb_le. exact V.
Qed.

Lemma re_search_valid pattern text :
  valid_pattern pattern -> exists found, re_search pattern text = Ok found.
Proof.
  unfold valid_pattern, re_search. intros [L | E].
  - rewrite L. eexists. reflexivity.
  - destruct (literal_pattern pattern); [eexists; reflexivity|].
    destruct (re_engine pattern) as [matches |]; [eexists; reflexivity | congruence].
Qed.

Lemma matching_cons text pattern rest :
  matching text (pattern :: rest) =
  if match re_search pattern text with Ok found => found | Raise _ => false end
  then pattern :: matching text rest else matching text rest.
Proof. reflexivity. Qed.

Lemma matching_length text patterns :
  (List.length (matching text patterns) <= List.length patterns)%nat.
Proof.
  induction patterns as [| p ps IH]; [cbn; lia|].
  rewrite matching_cons. destruct (match re_search p text with Ok f => f | Raise _ => false end);
    cbn [List.length]; lia.
Qed.

(** The loop of [regex_match_score] counts the patterns that match. *)
Lemma count_matches_spec text patterns :
  Forall valid_pattern patterns ->
  forall score,
    count_matches text patterns score
    = Ok (score + Z.of_nat (List.length (matching text patterns))).
Proof.
  induction 1 as [| p ps Hp Hps IH]; intros score.
  - cbn. f_equal. lia.
  - cbn [count_matches]. rewrite matching_cons.
    destruct (re_search_valid p text Hp) as [found E]. rewrite E. cbn [bind].
    rewrite IH. destruct found; cbn [List.length]; f_equal; lia.
Qed.

(** What the local variables are when the scoring of a scenario returns. *)
Lemma score_scenario_Ok item output l :
  score_scenario item output = Ok l ->
  let all_posts := join (of_ascii " ") (map snd (get (social_posts output) [])) in
  Locals.overall l
  = (0.25 * Locals.relevance l + 0.20 * Locals.personalization l
     + 0.15 * Locals.trend_align l + 0.15 * Locals.event_cov l
     + 0.25 * Locals.post_quality_avg l)%float /\
  Locals.passed l = (0.75 <=? Locals.overall l)%float /\
  regex_match_score all_posts
    [ get (age_group (expected item)) [];
      get (gender (expected item)) [];
      get (market (expected item)) (of_ascii "Singapore|US") ]
  = Ok (Locals.personalization l) /\
  regex_match_score all_posts (get (trends (expected item)) []) = Ok (Locals.trend_align l) /\
  regex_match_score all_posts (get (events (expected item)) []) = Ok (Locals.event_cov l).
Proof.
  unfold score_scenario. cbv zeta. intros H.
  apply bind_Ok in H. destruct H as (personalization & Hp & H).
  apply bind_Ok in H. destruct H as (trend_align & Ht & H).
  apply bind_Ok in H. destruct H as (event_cov & He & H).
  apply bind_Ok in H. destruct H as (post_qualities & Hq & H).
  apply bind_Ok in H. destruct H as (post_quality_avg & Ha & H).
  injection H as <-. cbn [Locals.overall Locals.passed Locals.relevance Locals.personalization
                          Locals.trend_align Locals.event_cov Locals.post_quality_avg].
  repeat split; assumption.
Qed.

(** A float equal to 0.75 is at least 0.75. *)
Lemma eqb_threshold x : (x =? 0.75)%float = true -> (0.75 <=? x)%float = true.
Proof.
  intros H. assert (E : x = 0.75%float); [|rewrite E; reflexivity].
  rewrite FloatAxioms.eqb_spec in H. apply Prim2SF_inj.
  change (Prim2SF 0.75) with (S754_finite false 6755399441055744 (-53)) in *.
  unfold SFeqb in H.
  destruct (Prim2SF x) as [s | s | | s m e]; cbn [SFcompare] in H;
    try discriminate H; try (destruct s; discriminate H).
  destruct s; [discriminate H|].
  destruct (Z.compare_spec e (-53)) as [Ee | Ee | Ee]; try discriminate H.
  destruct (Pos.compare_cont Eq m 6755399441055744) eqn:C; try discriminate H.
  apply Pos.compare_eq in C. subst. reflexivity.
Qed.

(** The position [idx_from] returns is the initial best one or one of the list. *)
Lemma idx_from_bound better xs :
  forall i best j,
    idx_from better xs i best = Some j ->
    (exists b, best = Some (j, b)) \/ (i <= j < i + List.length xs)%nat.
Proof.
  induction xs as [| x xs IH]; intros i best j H; cbn [idx_from] in H.
  - destruct best as [[k b] |]; cbn in H; [|discriminate H].
    injection H as <-. left. exists b. reflexivity.
  - apply IH in H. cbn [List.length]. destruct H as [[b Hb] | Hr]; [|right; lia].
    destruct (is_nan x); [left; exists b; exact Hb|].
    destruct best as [[k b0] |].
    + destruct (better x b0).
      * injection Hb as <- <-. right. lia.
      * left. exists b. exact Hb.
    + injection Hb as <- <-. right. lia.
Qed.

(** [idx_from] finds a position as soon as one value is not NaN. *)
Lemma idx_from_found better xs :
  forall i best,
    best <> None \/ Exists (fun x => is_nan x = false) xs ->
    idx_from better xs i best <> None.
Proof.
  induction xs as [| x xs IH]; intros i best H; cbn [idx_from].
  - destruct H as [H | H]; [|inversion H].
    destruct best; [discriminate | contradiction].
  - apply IH. destruct (is_nan x) eqn:N.
    + destruct H as [H | H]; [left; exact H|].
      inversion H as [? ? Hx | ? ? Hx]; subst; [congruence | right; exact Hx].
    + left. destruct best as [[k b] |]; [destruct (better x b)|]; discriminate.
Qed.

Lemma count_passed results :
  List.length (filter (fun b : bool => b) (map passed results))
  = List.length (filter passed results).
Proof.
  induction results as [| r rs IH]; [reflexivity|].
  cbn [map filter]. destruct (passed r); cbn [List.length]; rewrite IH; reflexivity.
Qed.

Lemma filter_length {A : Type} (f : A -> bool) (l : list A) :
  (List.length (filter f l) <= List.length l)%nat.
Proof.
  induction l as [| a l IH]; [cbn; lia|].
  cbn [filter]. destruct (f a); cbn [List.length]; lia.
Qed.

Lemma contains_nil s : contains [] s = true.
Proof. destruct s; reflexivity. Qed.

Lemma re_search_empty text : re_search [] text = Ok true.
Proof.
  unfold re_search. cbn [literal_pattern forallb alternatives alternatives_from rev app existsb map].
  rewrite contains_nil. reflexivity.
Qed.

Lemma length_ok_spec post :
  length_ok post = true <-> 50 <= Z.of_nat (List.length (split post)) <= 280.
Proof. unfold length_ok. rewrite andb_true_iff, !Z.leb_le. reflexivity. Qed.

Lemma has_emoji_spec post :
  has_emoji post = true <->
  exists c, In c post /\ ((127744 <= c <= 129535)%N \/ (128512 <= c <= 128591)%N).
Proof.
  unfold has_emoji. rewrite existsb_exists. unfold emoji_range, between.
  split; intros (c & Hin & Hc); exists c; (split; [exact Hin|]).
  - rewrite orb_true_iff, !andb_true_iff, !N.leb_le in Hc. exact Hc.
  - rewrite orb_true_iff, !andb_true_iff, !N.leb_le. exact Hc.
Qed.

Lemma has_hashtag_spec post :
  has_hashtag post = true <->
  exists before c after, post = before ++ 35%N :: c :: after /\ is_word c = true.
Proof.
  unfold has_hashtag. split.
  - induction post as [| a post IH]; [discriminate|].
    destruct post as [| d rest]; [discriminate|].
    cbn [hashtag_in]. rewrite orb_true_iff, andb_true_iff, N.eqb_eq.
    intros [[-> Hw] | H].
    + exists [], d, rest. split; [reflexivity | exact Hw].
    + destruct (IH H) as (before & c & after & E & Hw).
      exists (a :: before), c, after. split; [rewrite E; reflexivity | exact Hw].
  - intros (before & c & after & -> & Hw).
    induction before as [| b before IH].
    + cbn [app hashtag_in]. rewrite N.eqb_refl, Hw. reflexivity.
    + cbn [app]. destruct (before ++ 35%N :: c :: after) as [| d rest] eqn:E.
      * destruct before; discriminate E.
      * change (hashtag_in is_word (b :: d :: rest))
          with ((b =? 35)%N && is_word d || hashtag_in is_word (d :: rest)).
        rewrite IH. apply orb_true_r.
Qed.

Lemma keywords_found_bounds post expected_keywords :
  0 <= keywords_found post expected_keywords <= Z.of_nat (List.length expected_keywords).
Proof.
  unfold keywords_found.
  pose proof (filter_length (fun kw => contains (lower kw) (lower post)) expected_keywords). lia.
Qed.

(** What [evaluate_social_post] returns when it returns. *)
Lemma evaluate_social_post_Ok post expected_keywords q :
  evaluate_social_post post expected_keywords = Ok q ->
  exists fraction,
    within 1074 fraction /\
    int_truediv (keywords_found post expected_keywords)
                (Z.of_nat (List.length expected_keywords)) = Ok fraction /\
    q = {| quality := quality_of fraction (length_ok post) (has_hashtag post) (has_emoji post);
           keyword_coverage := fraction |}.
Proof.
  unfold evaluate_social_post. intros H.
  apply bind_Ok in H. destruct H as (fraction & Hf & H). injection H as <-.
  exists fraction. split; [|split; [exact Hf | reflexivity]].
  destruct expected_keywords as [| kw kws]; [discriminate Hf|].
  destruct (int_truediv_fraction _ _ (keywords_found_bounds post (kw :: kws))
              ltac:(cbn [List.length]; lia)) as (f' & E & W).
  rewrite E in Hf. injection Hf as <-. exact W.
Qed.

(** C1: for a scenario the driver scores, the overall score is
    0.25*relevance + 0.20*personalization + 0.15*trendAlignment
    + 0.15*eventCoverage + 0.25*postQualityAvg, and the passed flag of its
    record is true if and only if this score is at least 0.75; a score of
    exactly 0.75 passes. *)
Theorem overall_weighted_sum_and_threshold agent item output r :
  agent (user_input item) = Some output ->
  evaluate_item agent item = Ok r ->
  exists l,
    score_scenario item output = Ok l /\ r = record_of item l /\
    Locals.overall l
    = (0.25 * Locals.relevance l + 0.20 * Locals.personalization l
       + 0.15 * Locals.trend_align l + 0.15 * Locals.event_cov l
       + 0.25 * Locals.post_quality_avg l)%float /\
    (passed r = true <-> (0.75 <=? Locals.overall l)%float = true) /\
    ((Locals.overall l =? 0.75)%float = true -> passed r = true).
Proof.
  intros Hagent H. unfold evaluate_item in H. rewrite Hagent in H.
  apply bind_Ok in H. destruct H as (l & Hl & H). injection H as <-.
  destruct (score_scenario_Ok item output l Hl) as (Ho & Hp & _).
  exists l. split; [exact Hl|]. split; [reflexivity|]. split; [exact Ho|].
  cbn [passed record_of]. rewrite Hp. split; [reflexivity|].
  apply eqb_threshold.
Qed.

Lemma starts_with_spec p s : starts_with p s = true <-> exists after, s = p ++ after.
Proof.
  revert s. induction p as [| a p IH]; intros s.
  - split; [intros _; exists s; reflexivity | intros _; destruct s; reflexivity].
  - destruct s as [| b s]; cbn [starts_with].
    + split; [discriminate | intros [after E]; discriminate E].
    + rewrite andb_true_iff, N.eqb_eq, IH. split.
      * intros [-> [after ->]]. exists after. reflexivity.
      * intros [after E]. injection E as -> ->. split; [reflexivity | exists after; reflexivity].
Qed.

(** [sub in s]: [sub] is a slice of [s]. *)
Lemma contains_spec sub s :
  contains sub s = true <-> exists before after, s = before ++ sub ++ after.
Proof.
  induction s as [| b s IH]; cbn [contains].
  - rewrite orb_false_r, starts_with_spec. split.
    + intros [after E]. exists [], after. exact E.
    + intros (before & after & E). symmetry in E.
      apply app_eq_nil in E. destruct E as [_ E]. apply app_eq_nil in E. destruct E as [-> ->].
      exists []. reflexivity.
  - rewrite orb_true_iff, starts_with_spec, IH. split.
    + intros [[after E] | (before & after & E)].
      * exists [], after. exact E.
      * exists (b :: before), after. rewrite E. reflexivity.
    + intros (before & after & E). destruct before as [| c before].
      * left. exists after. exact E.
      * right. injection E as _ E. exists before, after. exact E.
Qed.

(** C2: for a non-empty keyword list, [evaluate_social_post] returns
    0.3*(fraction of the keywords found in the lower-cased post)
    + 0.3*(1 if the post has 50 to 280 words) + 0.2*(1 if it has [#]
    followed by a word character) + 0.2*(1 if it has a character of the
    emoji ranges); this quality is in [0, 1] and does not decrease when
    the keyword fraction grows with the three checks fixed.  The fraction
    is the number of keywords whose lower case is a slice of the lower
    case of the post, over the number of keywords; on plain characters
    the lower case turns [A] to [Z] into [a] to [z] and nothing else. *)
Theorem evaluate_social_post_quality post expected_keywords :
  expected_keywords <> [] ->
  exists fraction,
    int_truediv
      (Z.of_nat (List.length
                   (filter (fun kw => contains (lower kw) (lower post)) expected_keywords)))
      (Z.of_nat (List.length expected_keywords)) = Ok fraction /\
    (forall kw, contains (lower kw) (lower post) = true <->
                exists before after, lower post = before ++ lower kw ++ after) /\
    (forall s, forallb plain s = true ->
               lower s = map (fun c => if ((65 <=? c) && (c <=? 90))%N then (c + 32)%N else c) s) /\
    evaluate_social_post post expected_keywords
    = Ok {| quality := (0.3 * fraction
                        + 0.3 * (if length_ok post then 1 else 0)
                        + 0.2 * (if has_hashtag post then 1 else 0)
                        + 0.2 * (if has_emoji post then 1 else 0))%float;
            keyword_coverage := fraction |} /\
    (forall q, evaluate_social_post post expected_keywords = Ok q ->
               (0 <=? quality q)%float = true /\ (quality q <=? 1)%float = true) /\
    (length_ok post = true <-> 50 <= Z.of_nat (List.length (split post)) <= 280) /\
    (has_hashtag post = true <->
     exists before c after, post = before ++ 35%N :: c :: after /\ is_word c = true) /\
    (has_emoji post = true <->
     exists c, In c post /\ ((127744 <= c <= 129535)%N \/ (128512 <= c <= 128591)%N)) /\
    (forall x y l h e,
        (0 <=? x)%float = true -> (x <=? y)%float = true -> (y <=? 1)%float = true ->
        (quality_of x l h e <=? quality_of y l h e)%float = true).
Proof.
  intros Hne.
  assert (Hlen : 0 < Z.of_nat (List.length expected_keywords)).
  { destruct expected_keywords; [contradiction | cbn [List.length]; lia]. }
  destruct (int_truediv_fraction _ _ (keywords_found_bounds post expected_keywords) Hlen)
    as (fraction & E & W).
  exists fraction. split; [exact E|].
  split; [intros kw; apply contains_spec|].
  split; [intros s Hs; unfold lower; rewrite Hs; reflexivity|].
  assert (Ev : evaluate_social_post post expected_keywords
               = Ok {| quality := quality_of fraction (length_ok post) (has_hashtag post)
                                             (has_emoji post);
                       keyword_coverage := fraction |}).
  { unfold evaluate_social_post. rewrite E. reflexivity. }
  split; [exact Ev|]. split.
  { intros q Hq. rewrite Ev in Hq. injection Hq as <-. cbn [quality].
    apply quality_of_range. exact W. }
  split; [apply length_ok_spec|]. split; [apply has_hashtag_spec|].
  split; [apply has_emoji_spec|]. intros x y l h e. apply quality_of_leb_mono.
Qed.

(** C3, amended: the festive post has 12 words, so its length check
    fails (with its keywords it gets 0.44), and whenever the length check
    of a post fails the returned quality is at most 0.7. *)
Theorem short_post_quality_at_most_0_7 post expected_keywords q :
  length_ok post = false ->
  evaluate_social_post post expected_keywords = Ok q ->
  (List.length (split festive_post) = 12%nat /\ length_ok festive_post = false /\
   evaluate_social_post festive_post festive_keywords
   = Ok {| quality := 0.44; keyword_coverage := 0.8 |}) /\
  (quality q <=? 0.7)%float = true.
Proof.
  intros Hshort Hq. split; [repeat split; vm_compute; reflexivity|].
  destruct (evaluate_social_post_Ok post expected_keywords q Hq) as (fraction & W & _ & ->).
  cbn [quality]. rewrite Hshort. apply quality_of_short. exact W.
Qed.

(** C4: when every pattern compiles, [regex_match_score] returns the number
    of patterns found in the text divided by the number of patterns (by 1
    for the empty list), a value in [0, 1]; on the empty list it returns 0
    and no division by zero occurs. *)
Theorem regex_match_score_fraction text patterns :
  Forall valid_pattern patterns ->
  regex_match_score text [] = Ok 0%float /\
  exists v,
    regex_match_score text patterns = Ok v /\
    int_truediv (Z.of_nat (List.length (matching text patterns)))
                (Z.max (Z.of_nat (List.length patterns)) 1) = Ok v /\
    (patterns <> [] ->
     int_truediv (Z.of_nat (List.length (matching text patterns)))
                 (Z.of_nat (List.length patterns)) = Ok v) /\
    (0 <=? v)%float = true /\ (v <=? 1)%float = true.
Proof.
  intros Hvalid. split; [reflexivity|].
  pose proof (matching_length text patterns) as Hle.
  destruct (int_truediv_fraction (Z.of_nat (List.length (matching text patterns)))
              (Z.max (Z.of_nat (List.length patterns)) 1) ltac:(lia) ltac:(lia))
    as (v & E & W).
  exists v. split.
  { unfold regex_match_score. rewrite (count_matches_spec text patterns Hvalid 0).
    cbn [bind]. rewrite Z.add_0_l. exact E. }
  split; [exact E|]. split.
  { intros Hne. rewrite <- E. f_equal.
    destruct patterns; [contradiction | cbn [List.length]; lia]. }
  apply within_unit_interval. exact W.
Qed.

Lemma column_of_records {A : Type} (records : list Row) (name : string) (field : Row -> A) :
  records <> [] -> In name ["scenario"; "overall"; "passed"]%string ->
  column (DataFrame_of records) name field = Ok (map field records).
Proof.
  intros Hne Hin. destruct records as [| r rs]; [contradiction|].
  unfold column. cbn [DataFrame_of columns rows].
  assert (E : existsb (String.eqb name) ["scenario"; "overall"; "passed"]%string = true).
  { apply existsb_exists. exists name. split; [exact Hin | apply String.eqb_refl]. }
  rewrite E. reflexivity.
Qed.

(** The label of the best row is found when some score is not NaN. *)
Lemma best_label_Ok better (records : list Row) :
  records <> [] ->
  Exists (fun x => is_nan x = false) (map row_overall records) ->
  exists label,
    (c <- column (DataFrame_of records) "overall" row_overall ;;
     i <- match idx_from better c 0 None with
          | Some i => Ok i
          | None => Raise ValueError
          end ;;
     loc_scenario (DataFrame_of records) i) = Ok label.
Proof.
  intros Hne Hex.
  rewrite (column_of_records records "overall" row_overall Hne) by (cbn; auto).
  cbn [bind].
  destruct (idx_from better (map row_overall records) 0 None) as [i |] eqn:E.
  - apply idx_from_bound in E. destruct E as [[b Hb] | Hi]; [discriminate Hb|].
    rewrite length_map in Hi. cbn [bind]. unfold loc_scenario.
    rewrite (column_of_records records "scenario" row_scenario Hne) by (cbn; auto).
    cbn [bind].
    destruct (nth_error (map row_scenario records) i) as [label |] eqn:N.
    + exists label. reflexivity.
    + apply nth_error_None in N. rewrite length_map in N. lia.
  - exfalso. revert E. apply idx_from_found. right. exact Hex.
Qed.

(** C5: for a non-empty list of N results, the pass rate returned by
    [compute_overall_score] is the number of results that passed divided
    by N; the function returns as soon as one overall score is a number. *)
Theorem pass_rate_is_fraction_passed results :
  results <> [] ->
  exists v,
    int_truediv (Z.of_nat (List.length (filter passed results)))
                (Z.of_nat (List.length results)) = Ok v /\
    (forall s, compute_overall_score results = Ok s ->
               pass_rate s = v /\ total_scenarios s = Z.of_nat (List.length results)) /\
    (Exists (fun r => is_nan (overall_score r) = false) results ->
     exists s, compute_overall_score results = Ok s).
Proof.
  intros Hne.
  assert (Hlen : 0 < Z.of_nat (List.length results)).
  { destruct results; [contradiction | cbn [List.length]; lia]. }
  pose proof (filter_length passed results) as Hcount.
  destruct (int_truediv_fraction (Z.of_nat (List.length (filter passed results)))
              (Z.of_nat (List.length results)) ltac:(lia) Hlen) as (v & E & _).
  exists v. split; [exact E|].
  set (to_row := fun r => {| row_scenario := scenario r;
                             row_overall := overall_score r;
                             row_passed := passed r |}).
  set (records := map to_row results).
  assert (Hrec : records <> []).
  { subst records. destruct results; [contradiction | discriminate]. }
  assert (Hmean : mean_bool (map row_passed records) = v).
  { unfold mean_bool. subst records. rewrite map_map.
    change (map (fun x => row_passed (to_row x)) results) with (map passed results).
    rewrite count_passed, length_map, E. reflexivity. }
  assert (Hunfold : compute_overall_score results
            = (best <- (c <- column (DataFrame_of records) "overall" row_overall ;;
                        i <- idxmax c ;; loc_scenario (DataFrame_of records) i) ;;
               worst <- (c <- column (DataFrame_of records) "overall" row_overall ;;
                         i <- idxmin c ;; loc_scenario (DataFrame_of records) i) ;;
               Ok {| total_scenarios := Z.of_nat (List.length records);
                     pass_rate := v;
                     avg_overall_score := series_mean (map row_overall records);
                     best_scenario := best;
                     worst_scenario := worst |})).
  { unfold compute_overall_score. cbv zeta. fold to_row. fold records.
    rewrite (column_of_records records "passed" row_passed Hrec) by (cbn; auto).
    cbn [bind].
    rewrite (column_of_records records "overall" row_overall Hrec) at 1 by (cbn; auto).
    cbn [bind]. rewrite Hmean.
    assert (Hempty : empty (DataFrame_of records) = false)
      by (destruct records; [contradiction | reflexivity]).
    rewrite Hempty. reflexivity. }
  rewrite Hunfold. split.
  - intros s H.
    apply bind_Ok in H. destruct H as (best & _ & H).
    apply bind_Ok in H. destruct H as (worst & _ & H).
    injection H as <-. cbn [pass_rate total_scenarios]. split; [reflexivity|].
    subst records. rewrite length_map. reflexivity.
  - intros Hex.
    assert (Hex' : Exists (fun x => is_nan x = false) (map row_overall records)).
    { subst records. rewrite map_map. apply Exists_exists.
      apply Exists_exists in Hex. destruct Hex as (r & Hin & Hr).
      exists (overall_score r). split; [|exact Hr].
      apply in_map_iff. exists r. split; [reflexivity | exact Hin]. }
    destruct (best_label_Ok (fun x b => (b <? x)%float) records Hrec Hex') as [best Hb].
    destruct (best_label_Ok (fun x b => (x <? b)%float) records Hrec Hex') as [worst Hw].
    unfold idxmax, idxmin. rewrite Hb, Hw. cbn [bind]. eexists. reflexivity.
Qed.

(** C6, the defect: on the empty list the frame has no column, and taking
    its [passed] column raises before any ["N/A"] label is made. *)
Theorem empty_results_raise_KeyError :
  compute_overall_score [] = Raise (KeyError "passed").
Proof. reflexivity. Qed.

(** C8: with an empty keyword list [evaluate_social_post] raises
    ZeroDivisionError whatever the post, where [regex_match_score] on an
    empty pattern list returns 0. *)
Theorem empty_keywords_raise_ZeroDivisionError post :
  evaluate_social_post post [] = Raise ZeroDivisionError /\
  (forall text, regex_match_score text [] = Ok 0%float).
Proof. split; [reflexivity | intros text; reflexivity]. Qed.

(** C9: the empty pattern is found in every text, so [regex_match_score]
    on it alone is 1; and a scenario without [age_group] and [gender] gets
    a personalization score of 2/3 or 1, whatever the posts are. *)
Theorem empty_pattern_pads_personalization text item output l :
  age_group (expected item) = None ->
  gender (expected item) = None ->
  score_scenario item output = Ok l ->
  regex_match_score text [[]] = Ok 1%float /\
  exists two_thirds,
    int_truediv 2 3 = Ok two_thirds /\
    (two_thirds <=? Locals.personalization l)%float = true /\
    (Locals.personalization l = two_thirds \/ Locals.personalization l = 1%float).
Proof.
  intros Hage Hgender Hl. split.
  { unfold regex_match_score. cbn [count_matches]. rewrite re_search_empty. reflexivity. }
  destruct (score_scenario_Ok item output l Hl) as (_ & _ & Hp & _).
  cbv zeta in Hp. rewrite Hage, Hgender in Hp. cbn [get] in Hp.
  unfold regex_match_score in Hp. cbn [count_matches] in Hp.
  rewrite !re_search_empty in Hp. cbn [bind] in Hp.
  destruct (re_search (get (market (expected item)) (of_ascii "Singapore|US"))
                      (join (of_ascii " ") (map snd (get (social_posts output) []))))
    as [found | e]; [|discriminate Hp].
  cbn [bind] in Hp. exists 0.6666666666666666%float. split; [reflexivity|].
  destruct found.
  - match type of Hp with
    | ?lhs = _ => assert (E : lhs = Ok 1%float) by (vm_compute; reflexivity)
    end.
    rewrite E in Hp. injection Hp as <-. split; [reflexivity | right; reflexivity].
  - match type of Hp with
    | ?lhs = _ => assert (E : lhs = Ok 0.6666666666666666%float) by (vm_compute; reflexivity)
    end.
    rewrite E in Hp. injection Hp as <-. split; [reflexivity | left; reflexivity].
Qed.

(** C10: the record keeps every score rounded to 3 places and the flag
    computed from the unrounded overall score; in the scenario that misses
    one trend in 400 the overall score is below 0.75, the record shows
    0.75 and the flag is false. *)
Theorem record_rounds_after_threshold :
  tfidf_cosine (of_ascii "? ") (of_ascii "?") = None ->
  (forall item output l,
      score_scenario item output = Ok l ->
      let r := record_of item l in
      relevance_score r = py_round (Locals.relevance l) 3 /\
      personalization_score r = py_round (Locals.personalization l) 3 /\
      trend_alignment r = py_round (Locals.trend_align l) 3 /\
      event_coverage r = py_round (Locals.event_cov l) 3 /\
      post_quality_avg r = py_round (Locals.post_quality_avg l) 3 /\
      overall_score r = py_round (Locals.overall l) 3 /\
      passed r = (0.75 <=? Locals.overall l)%float) /\
  exists l,
    score_scenario near_miss_item only_post = Ok l /\
    (Locals.overall l <? 0.75)%float = true /\
    overall_score (record_of near_miss_item l) = 0.75%float /\
    passed (record_of near_miss_item l) = false.
Proof.
  intros Hdegenerate. split.
  - intros item output l Hl. destruct (score_scenario_Ok item output l Hl) as (_ & Hp & _).
    cbn. rewrite Hp. repeat split; reflexivity.
  - exists {| Locals.relevance := 0;
              Locals.personalization := 1;
              Locals.trend_align := 0.99750000000000005;
              Locals.event_cov := 1;
              Locals.post_quality_avg := 1;
              Locals.overall := 0.74962499999999999;
              Locals.passed := false |}.
    split; [|split; [|split]]; try (vm_compute; reflexivity).
    unfold score_scenario, cosine_text_similarity. cbv zeta.
    change (user_input near_miss_item ++ of_ascii " "
            ++ rec_text_of (get (recommendations only_post) (RecDict None))
            ++ promo_text_of (get (promotions only_post) []))
      with (of_ascii "? ").
    change (user_input near_miss_item) with (of_ascii "?").
    rewrite Hdegenerate. vm_compute. reflexivity.
Qed.

(** ** Further facts on floats *)

(** Two canonical floats of the same positive value are the same float. *)
Lemma good_sval_inj x y :
  good x -> good y -> 0 < sval x -> sval x = sval y -> x = y.
Proof.
  intros Gx Gy Hpos E.
  pose proof (SFcompare_units x y Gx Gy) as C. rewrite E, Z.compare_refl in C.
  destruct x as [sx | sx | | [] mx ex]; cbn [good] in Gx; try contradiction;
    [cbn [sval] in Hpos; lia|].
  destruct y as [sy | sy | | [] my ey]; cbn [good] in Gy; try contradiction;
    [cbn [sval] in E, Hpos; lia|].
  cbn [SFcompare] in C.
  destruct (Z.compare_spec ex ey) as [Ee | Ee | Ee]; try discriminate C.
  injection C as C. apply Pos.compare_eq in C. subst. reflexivity.
Qed.

Lemma fval_inj x y : fgood x -> fgood y -> 0 < fval x -> fval x = fval y -> x = y.
Proof.
  intros Gx Gy Hpos E. apply Prim2SF_inj. apply good_sval_inj; assumption.
Qed.

(** A count divided by itself is 1, and zero divided by a count is 0. *)
Lemma int_truediv_same k : 0 < k -> int_truediv k k = Ok 1%float.
Proof.
  intros Hk. destruct (int_truediv_units k k ltac:(lia) Hk) as (q & E & G & V).
  rewrite E. f_equal. apply fval_inj; [exact G | exact fgood_one | |].
  - rewrite V. assert (0 < 2 ^ 1074) by (apply pow2_pos; lia).
    rewrite (round_units_ext (k * 2 ^ 1074) k (2 ^ 1074) 1) by nia.
    rewrite round_units_pow2 by lia. assumption.
  - rewrite V, fval_one. assert (0 < 2 ^ 1074) by (apply pow2_pos; lia).
    rewrite (round_units_ext (k * 2 ^ 1074) k (2 ^ 1074) 1) by nia.
    apply round_units_pow2. lia.
Qed.

Lemma int_truediv_zero k : 0 < k -> int_truediv 0 k = Ok 0%float.
Proof. intros Hk. destruct k as [| p | p]; try lia. reflexivity. Qed.

(** The final assertion of the suite: a rate of at least 7 in 10 is at
    least 0.7. *)
Lemma rate_reaches_threshold k n q :
  0 <= k <= n -> 0 < n -> int_truediv k n = Ok q ->
  7 * n <= 10 * k -> (0.7 <=? q)%float = true.
Proof.
  intros Hk Hn E Hrate.
  destruct (int_truediv_units k n Hk Hn) as (q' & E' & G & V).
  rewrite E in E'. injection E' as <-.
  assert (G7 : fgood 0.7%float) by (vm_compute; reflexivity).
  rewrite (fleb_units _ _ G7 G). apply Z.leb_le. rewrite V.
  assert (E7 : fval 0.7 = round_units (7 * 2 ^ 1074) 10) by (vm_compute; reflexivity).
  rewrite E7. assert (0 < 2 ^ 1074) by (apply pow2_pos; lia).
  apply round_units_mono; nia.
Qed.

(** Below 7 in 10 the rate is below 0.7, for any number of scenarios that
    a run can hold. *)
Lemma rate_misses_threshold k n q :
  0 <= k <= n -> 0 < n <= 2 ^ 49 -> int_truediv k n = Ok q ->
  10 * k < 7 * n -> (0.7 <=? q)%float = false.
Proof.
  intros Hk Hn E Hrate.
  destruct (int_truediv_units k n Hk ltac:(lia)) as (q' & E' & G & V).
  rewrite E in E'. injection E' as <-.
  assert (G7 : fgood 0.7%float) by (vm_compute; reflexivity).
  rewrite (fleb_units _ _ G7 G). apply Z.leb_gt. rewrite V.
  set (below := fval 0.7 - 2 ^ 1021).
  assert (Hid : round_units below 1 = below) by (vm_compute; reflexivity).
  apply Z.le_lt_trans with below; [|subst below; assert (0 < 2 ^ 1021) by (apply pow2_pos; lia); lia].
  rewrite <- Hid. apply round_units_mono; try lia.
  rewrite Z.mul_1_r.
  { assert (Hc : 7 * 2 ^ 1074 - 10 * below = 14 * 2 ^ 1021) by (vm_compute; reflexivity).
    assert (Hp : 2 ^ 1074 = 2 ^ 53 * 2 ^ 1021) by (rewrite <- Z.pow_add_r by lia; reflexivity).
    assert (P : 0 < 2 ^ 1021) by (apply pow2_pos; lia).
    assert (H49 : 14 * 2 ^ 49 <= 2 ^ 53) by (vm_compute; discriminate).
    set (u := 2 ^ 1021) in *. set (U := 2 ^ 1074) in *.
    assert (S1 : 10 * (k * U) <= (7 * n - 1) * U) by nia.
    assert (S2 : n * (14 * u) <= U).
    { rewrite Hp. apply Z.le_trans with (2 ^ 49 * (14 * u)); [nia|].
      replace (2 ^ 49 * (14 * u)) with (14 * 2 ^ 49 * u) by ring.
      apply Z.mul_le_mono_nonneg_r; lia. }
    clearbody u U below. nia. }
Qed.

Lemma digits_div_lower a b :
  0 <= a -> 0 < b -> Zdigits2 a - Zdigits2 b <= Zdigits2 (a / b).
Proof.
  intros Ha Hb. pose proof (Zdigits2_nonneg (a / b)) as Hq.
  destruct (Z_le_gt_dec (Zdigits2 a - Zdigits2 b) 0) as [|Hpos]; [lia|].
  pose proof (Zdigits2_bounds b Hb) as [_ Ub].
  pose proof (Zdigits2_nonneg b) as Hdb.
  assert (La : 2 ^ (Zdigits2 a - 1) <= a) by (apply digits_ge_pow; lia).
  assert (L : 2 ^ (Zdigits2 a - Zdigits2 b - 1) <= a / b).
  { apply Z.div_le_lower_bound; [lia|].
    apply Z.le_trans with (2 ^ Zdigits2 b * 2 ^ (Zdigits2 a - Zdigits2 b - 1)).
    - apply Z.mul_le_mono_nonneg_r; [apply Z.pow_nonneg|]; lia.
    - rewrite <- Z.pow_add_r by lia.
      replace (Zdigits2 b + (Zdigits2 a - Zdigits2 b - 1)) with (Zdigits2 a - 1) by lia.
      exact La. }
  pose proof (digits_pow2 (Zdigits2 a - Zdigits2 b - 1) ltac:(lia)) as D.
  pose proof (Zdigits2_mono (2 ^ (Zdigits2 a - Zdigits2 b - 1)) (a / b)
                ltac:(split; [apply Z.pow_nonneg; lia | exact L])).
  lia.
Qed.

Lemma digits_div_upper a b :
  0 <= a -> 0 < b -> Zdigits2 (a / b) <= Z.max 0 (Zdigits2 a - Zdigits2 b + 1).
Proof.
  intros Ha Hb.
  pose proof (Zdigits2_bounds b Hb) as [Lb _].
  pose proof (Zdigits2_nonneg a) as Hda.
  assert (Hdb : 0 < Zdigits2 b) by (destruct b; cbn in *; lia).
  assert (Ua : a < 2 ^ Zdigits2 a) by (apply digits_lt_pow; lia).
  assert (P : 0 < 2 ^ (Zdigits2 b - 1)) by (apply pow2_pos; lia).
  assert (Hq : 0 <= a / b) by (apply Z.div_pos; lia).
  apply digits_le_of_lt; [|lia]. split; [exact Hq|].
  apply Z.div_lt_upper_bound; [lia|].
  apply Z.lt_le_trans with (2 ^ Zdigits2 a); [exact Ua|].
  apply Z.le_trans with (2 ^ (Zdigits2 b - 1) * 2 ^ Z.max 0 (Zdigits2 a - Zdigits2 b + 1)).
  - rewrite <- Z.pow_add_r by lia. apply Z.pow_le_mono_r; lia.
  - apply Z.mul_le_mono_nonneg_r; [apply Z.pow_nonneg|]; lia.
Qed.

(** The quotient of a canonical float by one that is not smaller, in units
    of [2 ^ -1074]. *)
Lemma round_units_rescale a b s k ex ey :
  0 < a -> 0 < b -> 0 <= s -> 0 <= ex + 1074 -> 0 <= ey + 1074 ->
  s + k + ey = ex + 1074 ->
  round_units (a * 2 ^ s * 2 ^ Z.max k 0) (b * 2 ^ Z.max (- k) 0)
  = round_units (a * 2 ^ (ex + 1074) * 2 ^ 1074) (b * 2 ^ (ey + 1074)).
Proof.
  intros Ha Hb Hs Hx Hy E.
  assert (Hp : 2 ^ s * 2 ^ Z.max k 0 * 2 ^ (ey + 1074)
               = 2 ^ (ex + 1074) * 2 ^ 1074 * 2 ^ Z.max (- k) 0).
  { rewrite <- (Z.pow_add_r 2 s (Z.max k 0)) by lia.
    rewrite <- (Z.pow_add_r 2 (s + Z.max k 0) (ey + 1074)) by lia.
    rewrite <- (Z.pow_add_r 2 (ex + 1074) 1074) by lia.
    rewrite <- (Z.pow_add_r 2 (ex + 1074 + 1074) (Z.max (- k) 0)) by lia.
    f_equal. lia. }
  pose proof (pow2_pos s Hs) as P1.
  pose proof (pow2_pos (Z.max k 0) ltac:(lia)) as P2.
  pose proof (pow2_pos (Z.max (- k) 0) ltac:(lia)) as P3.
  pose proof (pow2_pos (ex + 1074) Hx) as P4.
  pose proof (pow2_pos (ey + 1074) Hy) as P5.
  revert Hp P1 P2 P3 P4 P5.
  generalize (2 ^ s) (2 ^ Z.max k 0) (2 ^ Z.max (- k) 0) (2 ^ (ex + 1074))
             (2 ^ (ey + 1074)) (2 ^ 1074).
  intros S P Q X Y C Hp P1 P2 P3 P4 P5.
  apply round_units_ext.
  - apply Z.mul_nonneg_nonneg; [apply Z.mul_nonneg_nonneg|]; lia.
  - apply Z.mul_pos_pos; lia.
  - apply Z.mul_pos_pos; lia.
  - replace (a * S * P * (b * Y)) with (a * b * (S * P * Y)) by ring.
    rewrite Hp. ring.
Qed.

Lemma SFdiv_units_le x y :
  good x -> good y -> 0 < sval y -> sval x <= sval y ->
  good (SF64div x y) /\
  sval (SF64div x y) = round_units (sval x * 2 ^ 1074) (sval y).
Proof.
  intros Gx Gy Hy Hxy.
  destruct y as [sy | sy | | [] my ey]; cbn [good] in Gy; try contradiction;
    [cbn [sval] in Hy; lia|].
  destruct x as [sx | sx | | [] mx ex]; cbn [good] in Gx; try contradiction.
  - unfold SF64div. cbn [SFdiv]. split; [exact I|].
    change (sval (S754_zero sx)) with 0. rewrite Z.mul_0_l, round_units_0 by exact Hy.
    reflexivity.
  - pose proof (good_finite mx ex Gx) as (Hex & Hdx & Hcx & Hpx).
    pose proof (good_finite my ey Gy) as (Hey & Hdy & Hcy & Hpy).
    unfold SF64div. cbn [SFdiv xorb]. unfold SFdiv_core_binary.
    cbn [sval] in *.
    set (a := Zpos mx) in *. set (b := Zpos my) in *.
    set (d1 := Zdigits2 a) in *. set (d2 := Zdigits2 b) in *.
    pose proof (Zdigits2_bounds a ltac:(lia)) as [La Ua]. fold d1 in La, Ua.
    pose proof (Zdigits2_bounds b ltac:(lia)) as [Lb Ub]. fold d2 in Lb, Ub.
    assert (Px : 0 < 2 ^ (ex + 1074)) by (apply pow2_pos; lia).
    assert (Py : 0 < 2 ^ (ey + 1074)) by (apply pow2_pos; lia).
    assert (Hmag : d1 + ex <= d2 + ey).
    { assert (d1 - 1 + (ex + 1074) < d2 + (ey + 1074)); [|lia].
      apply pow2_lt_inv; [lia|].
      rewrite (Z.pow_add_r 2 (d1 - 1) (ex + 1074)), (Z.pow_add_r 2 d2 (ey + 1074)) by lia.
      apply Z.le_lt_trans with (a * 2 ^ (ex + 1074)); [apply Z.mul_le_mono_nonneg_r; lia|].
      apply Z.le_lt_trans with (b * 2 ^ (ey + 1074)); [exact Hxy|].
      apply Z.mul_lt_mono_pos_r; lia. }
    set (e' := Z.min (fexp prec emax (d1 + ex - (d2 + ey))) (ex - ey)).
    assert (He : e' = Z.min (Z.max (d1 + ex - (d2 + ey) - 53) (-1074)) (ex - ey))
      by (subst e'; rewrite fexp_eq; reflexivity).
    set (s := ex - ey - e').
    assert (Hs : 0 <= s) by (subst s; lia).
    assert (Em : match s with
                 | 0 => a
                 | Zpos _ => Z.shiftl a s
                 | Zneg _ => 0
                 end = a * 2 ^ s).
    { destruct s eqn:Es; try lia. rewrite Z.shiftl_mul_pow2 by lia. reflexivity. }
    rewrite Em, div_eucl_eq.
    assert (Ps : 0 < 2 ^ s) by (apply pow2_pos; lia).
    set (A := a * 2 ^ s).
    assert (HA : 0 < A) by (subst A; nia).
    rewrite new_location_eq by (try apply Z.mod_pos_bound; lia).
    assert (DA : Zdigits2 A = d1 + s) by (subst A; rewrite digits_shift by lia; reflexivity).
    pose proof (digits_div_lower A b ltac:(lia) ltac:(lia)) as Dl.
    pose proof (digits_div_upper A b ltac:(lia) ltac:(lia)) as Du.
    rewrite DA in Dl, Du. fold d2 in Dl, Du.
    assert (Hex' : e' <= fexp prec emax (Zdigits2 (A / b) + e'))
      by (rewrite fexp_eq; subst s; lia).
    assert (Ht : fexp prec emax (Zdigits2 (A / b) + e') <= 970)
      by (rewrite fexp_eq; subst s; lia).
    destruct (bra_units A b e' ltac:(lia) ltac:(lia) Hex' Ht) as [G V].
    split; [exact G|]. rewrite V.
    subst A.
    apply (round_units_rescale a b s (e' + 1074) ex ey); lia.
Qed.

Lemma shl_align_snd m e e' : e' <= e -> snd (shl_align m e e') = e'.
Proof.
  intros H. unfold shl_align. destruct (e' - e) as [| d | d] eqn:E; cbn [snd]; lia.
Qed.

(** [float(n)] for a positive [int] below [2 ^ 1023] is [n] rounded. *)
Lemma float_of_int_units n :
  0 < n < 2 ^ 1023 ->
  fgood (float_of_int n) /\ fval (float_of_int n) = round_units (n * 2 ^ 1074) 1.
Proof.
  intros [Hn Hlt]. destruct n as [| p | p]; try lia.
  assert (S : good (binary_normalize prec emax (Zpos p) 0 false) /\
              sval (binary_normalize prec emax (Zpos p) 0 false)
              = round_units (Zpos p * 2 ^ 1074) 1).
  { cbn [binary_normalize]. unfold binary_round.
    change (Zpos (digits2_pos p)) with (Zdigits2 (Zpos p)).
    set (n := Zpos p) in *. set (dn := Zdigits2 n).
    assert (Hdn : 0 < dn <= 1023).
    { split; [subst dn n; cbn; lia|]. apply digits_le_of_lt; lia. }
    assert (ET : fexp prec emax (dn + 0) = dn - 53) by (rewrite fexp_eq; lia).
    rewrite ET.
    destruct (Z_le_gt_dec 53 dn) as [Hbig | Hsmall].
    - rewrite shl_align_noop by lia. cbv beta iota. fold n.
      destruct (bra_units_exact n 0 ltac:(lia)) as [G V];
        try (fold dn; rewrite ET; lia).
      split; [exact G|]. rewrite V. reflexivity.
    - pose proof (shl_align_fst p 0 (dn - 53) ltac:(lia)) as E1.
      pose proof (shl_align_snd p 0 (dn - 53) ltac:(lia)) as E2.
      destruct (shl_align p 0 (dn - 53)) as [mz ez]. cbn [fst snd] in E1, E2.
      cbv beta iota. fold n in E1. subst ez.
      assert (Pz : 0 < 2 ^ (0 - (dn - 53))) by (apply pow2_pos; lia).
      assert (Dz : Zdigits2 (Zpos mz) = 53).
      { rewrite E1, digits_shift by lia. fold dn. lia. }
      destruct (bra_units_exact (Zpos mz) (dn - 53) ltac:(lia)) as [G V];
        try (rewrite Dz, fexp_eq; lia).
      split; [exact G|]. rewrite V.
      rewrite (Z.max_l (dn - 53 + 1074) 0), (Z.max_r (- (dn - 53 + 1074)) 0) by lia.
      f_equal. rewrite E1, <- Z.mul_assoc, <- Z.pow_add_r by lia. f_equal. f_equal. lia. }
  destruct S as [G V]. unfold fgood, fval, float_of_int.
  rewrite (Prim2SF_SF2Prim _ (good_valid _ G)). split; assumption.
Qed.

(** The integers up to [2 ^ 53] are floats. *)
Lemma round_units_int j :
  0 <= j <= 2 ^ 53 -> round_units (j * 2 ^ 1074) 1 = j * 2 ^ 1074.
Proof.
  intros [H0 Hj]. destruct (Z.eq_dec j 0) as [-> | Nz]; [apply round_units_0; lia|].
  destruct (Z.eq_dec j (2 ^ 53)) as [-> | Ntop].
  { rewrite <- Z.pow_add_r by lia. apply round_units_pow2. lia. }
  assert (Hd : 0 < Zdigits2 j <= 53).
  { split; [destruct j; cbn; lia|]. apply digits_le_of_lt; lia. }
  unfold round_units. rewrite Z.div_1_r, Z.mul_1_l, digits_shift by lia.
  set (s := Z.max (Zdigits2 j + 1074 - 53) 0).
  assert (Hs : 0 <= s <= 1074) by (subst s; lia).
  replace (j * 2 ^ 1074) with (j * 2 ^ (1074 - s) * 2 ^ s) at 1
    by (rewrite <- Z.mul_assoc, <- Z.pow_add_r by lia; do 2 f_equal; lia).
  rewrite rne_div_exact by (apply pow2_pos; lia).
  rewrite <- Z.mul_assoc, <- Z.pow_add_r by lia. do 2 f_equal. lia.
Qed.

(** The running sum of [n] floats of [0, 1] is at most [n], and at most
    [2 ^ 53]. *)
Lemma fold_add_bound qs : forall acc k,
  Forall (within 1074) qs -> fgood acc -> 0 <= k ->
  fval acc <= Z.min k (2 ^ 53) * 2 ^ 1074 ->
  fgood (fold_left PrimFloat.add qs acc) /\
  fval (fold_left PrimFloat.add qs acc)
  <= Z.min (k + Z.of_nat (List.length qs)) (2 ^ 53) * 2 ^ 1074.
Proof.
  assert (U : 0 < 2 ^ 1074) by (apply pow2_pos; lia).
  assert (T : 0 < 2 ^ 53) by (apply pow2_pos; lia).
  induction qs as [| q qs IH]; intros acc k Hall Gacc Hk Hacc.
  - cbn [fold_left List.length]. rewrite Z.add_0_r. split; assumption.
  - inversion Hall as [| ? ? [Gq Vq] Hall']; subst.
    cbn [fold_left List.length].
    assert (B : fval acc + fval q < 2 ^ 2097).
    { apply Z.le_lt_trans with (2 ^ 53 * 2 ^ 1074 + 2 ^ 1074); [nia|].
      vm_compute. reflexivity. }
    destruct (fadd_units acc q Gacc Gq B) as [G V].
    replace (k + Z.of_nat (S (List.length qs))) with ((k + 1) + Z.of_nat (List.length qs)) by lia.
    apply IH; [exact Hall' | exact G | lia|].
    rewrite V.
    apply Z.le_trans with (round_units ((Z.min k (2 ^ 53) + 1) * 2 ^ 1074) 1).
    + pose proof (fval_nonneg acc). pose proof (fval_nonneg q).
      apply round_units_mono; nia.
    + destruct (Z_lt_le_dec k (2 ^ 53)) as [Hlt | Hge].
      * rewrite (Z.min_l k) by lia. rewrite (Z.min_l (k + 1)) by lia.
        rewrite round_units_int by lia. lia.
      * rewrite (Z.min_r k) by lia. rewrite (Z.min_r (k + 1)) by lia.
        assert (E : round_units ((2 ^ 53 + 1) * 2 ^ 1074) 1 = 2 ^ 53 * 2 ^ 1074)
          by (vm_compute; reflexivity).
        rewrite E. lia.
Qed.

(** The mean of floats of [0, 1] as the loop computes it is in [0, 1]. *)
Lemma mean_within qs :
  qs <> [] -> Z.of_nat (List.length qs) < 2 ^ 1023 -> Forall (within 1074) qs ->
  exists avg,
    float_div_int (py_sum qs) (Z.of_nat (List.length qs)) = Ok avg /\ within 1074 avg.
Proof.
  intros Hne Hlen Hall.
  assert (U : 0 < 2 ^ 1074) by (apply pow2_pos; lia).
  set (n := Z.of_nat (List.length qs)) in *.
  assert (Hn : 0 < n) by (subst n; destruct qs; [contradiction | cbn [List.length]; lia]).
  unfold float_div_int. destruct (Z.eqb_spec n 0) as [E | _]; [lia|].
  eexists. split; [reflexivity|].
  destruct (fold_add_bound qs 0%float 0 Hall fgood_zero ltac:(lia)) as [Gs Vs].
  { change (fval 0) with 0. rewrite Z.min_l by (assert (0 < 2 ^ 53) by (apply pow2_pos; lia); lia). lia. }
  fold (py_sum qs) in Gs, Vs. rewrite Z.add_0_l in Vs. fold n in Vs.
  destruct (float_of_int_units n ltac:(lia)) as [Gn Vn].
  assert (Hmin : 0 < Z.min n (2 ^ 53) <= 2 ^ 53)
    by (assert (0 < 2 ^ 53) by (apply pow2_pos; lia); lia).
  assert (Hge : Z.min n (2 ^ 53) * 2 ^ 1074 <= fval (float_of_int n)).
  { rewrite Vn, <- (round_units_int (Z.min n (2 ^ 53))) by lia.
    apply round_units_mono; nia. }
  destruct (SFdiv_units_le (Prim2SF (py_sum qs)) (Prim2SF (float_of_int n)) Gs Gn)
    as [G V].
  { unfold fval in Hge. nia. }
  { unfold fval in Hge, Vs. lia. }
  unfold within, fgood, fval. rewrite FloatAxioms.div_spec. split; [exact G|].
  rewrite V. apply Z.le_trans with (round_units (2 ^ 1074) 1).
  - pose proof (sval_nonneg (Prim2SF (py_sum qs))).
    unfold fval in Hge, Vs. apply round_units_mono; nia.
  - rewrite round_units_pow2 by lia. lia.
Qed.

Lemma within_le i j x : within i x -> 0 <= i <= j -> within j x.
Proof.
  intros [G V] Hij. split; [exact G|].
  apply Z.le_trans with (2 ^ i); [assumption|]. apply Z.pow_le_mono_r; lia.
Qed.

(** A weight times a score, against the same weight times a larger score. *)
Lemma weight_mono c x y :
  within 1074 c -> fgood x -> within 1074 y -> fval x <= fval y ->
  within 1074 (c * x) /\ within 1074 (c * y) /\ fval (c * x) <= fval (c * y).
Proof.
  intros Wc Gx Wy Hxy.
  assert (Wx : within 1074 x) by (split; [exact Gx | destruct Wy; lia]).
  pose proof (fmul_within 1074 1074 _ _ Wc Wx ltac:(lia)) as W1.
  pose proof (fmul_within 1074 1074 _ _ Wc Wy ltac:(lia)) as W2.
  change (1074 + 1074 - 1074) with 1074 in W1, W2.
  split; [exact W1|]. split; [exact W2|].
  apply (fmul_mono c x y 1074 1074 Wc Wy ltac:(lia) Gx Hxy).
Qed.

(** A sum of two terms, against the sum of two larger terms. *)
Lemma sum_mono i a a' b b' :
  0 <= i <= 2095 ->
  within i a -> within i a' -> within 1074 b -> within 1074 b' -> 1074 <= i ->
  fval a <= fval a' -> fval b <= fval b' ->
  within (i + 1) (a + b) /\ within (i + 1) (a' + b') /\ fval (a + b) <= fval (a' + b').
Proof.
  intros Hi Wa Wa' Wb Wb' Hi' Ha Hb.
  pose proof (within_le 1074 i b Wb ltac:(lia)) as Wbi.
  pose proof (within_le 1074 i b' Wb' ltac:(lia)) as Wbi'.
  split; [apply fadd_within; assumption|]. split; [apply fadd_within; assumption|].
  apply (fadd_mono a a' b b' i Wa' Wbi' Hi (proj1 Wa) (proj1 Wb) Ha Hb).
Qed.

(** The weighted sum of the loop does not decrease with any of the five
    scores. *)
Lemma overall_mono r p t e a r' p' t' e' a' :
  fgood r -> fgood p -> fgood t -> fgood e -> fgood a ->
  within 1074 r' -> within 1074 p' -> within 1074 t' -> within 1074 e' -> within 1074 a' ->
  fval r <= fval r' -> fval p <= fval p' -> fval t <= fval t' -> fval e <= fval e' ->
  fval a <= fval a' ->
  fgood (0.25 * r + 0.20 * p + 0.15 * t + 0.15 * e + 0.25 * a)%float /\
  fval (0.25 * r + 0.20 * p + 0.15 * t + 0.15 * e + 0.25 * a)%float
  <= fval (0.25 * r' + 0.20 * p' + 0.15 * t' + 0.15 * e' + 0.25 * a')%float.
Proof.
  intros Gr Gp Gt Ge Ga Wr Wp Wt We Wa Hr Hp Ht He Ha.
  assert (C25 : within 1074 0.25%float) by const_within.
  assert (C20 : within 1074 0.20%float) by const_within.
  assert (C15 : within 1074 0.15%float) by const_within.
  destruct (weight_mono _ r r' C25 Gr Wr Hr) as (W1 & W1' & M1).
  destruct (weight_mono _ p p' C20 Gp Wp Hp) as (W2 & W2' & M2).
  destruct (weight_mono _ t t' C15 Gt Wt Ht) as (W3 & W3' & M3).
  destruct (weight_mono _ e e' C15 Ge We He) as (W4 & W4' & M4).
  destruct (weight_mono _ a a' C25 Ga Wa Ha) as (W5 & W5' & M5).
  destruct (sum_mono 1074 _ _ _ _ ltac:(lia) W1 W1' W2 W2' ltac:(lia) M1 M2) as (S2 & S2' & N2).
  change (1074 + 1) with 1075 in S2, S2'.
  destruct (sum_mono 1075 _ _ _ _ ltac:(lia) S2 S2' W3 W3' ltac:(lia) N2 M3) as (S3 & S3' & N3).
  change (1075 + 1) with 1076 in S3, S3'.
  destruct (sum_mono 1076 _ _ _ _ ltac:(lia) S3 S3' W4 W4' ltac:(lia) N3 M4) as (S4 & S4' & N4).
  change (1076 + 1) with 1077 in S4, S4'.
  destruct (sum_mono 1077 _ _ _ _ ltac:(lia) S4 S4' W5 W5' ltac:(lia) N4 M5) as (S5 & S5' & N5).
  split; [exact (proj1 S5) | exact N5].
Qed.

(** With the five scores in [0, 1] the overall score is in [0, 1]. *)
Lemma overall_within r p t e a :
  within 1074 r -> within 1074 p -> within 1074 t -> within 1074 e -> within 1074 a ->
  within 1074 (0.25 * r + 0.20 * p + 0.15 * t + 0.15 * e + 0.25 * a)%float.
Proof.
  intros Wr Wp Wt We Wa.
  assert (V1 : forall x, within 1074 x -> fval x <= fval 1)
    by (intros x [_ V]; rewrite fval_one; exact V).
  destruct (overall_mono r p t e a 1 1 1 1 1
              (proj1 Wr) (proj1 Wp) (proj1 Wt) (proj1 We) (proj1 Wa)
              within_one within_one within_one within_one within_one
              (V1 _ Wr) (V1 _ Wp) (V1 _ Wt) (V1 _ We) (V1 _ Wa)) as [G M].
  split; [exact G|].
  apply Z.le_trans with (1 := M). apply Z.leb_le. vm_compute. reflexivity.
Qed.

(** Without trend and event credit the overall score is below 0.75. *)
Lemma overall_without_trends_and_events r p a :
  within 1074 r -> within 1074 p -> within 1074 a ->
  (0.75 <=? 0.25 * r + 0.20 * p + 0.15 * 0 + 0.15 * 0 + 0.25 * a)%float = false.
Proof.
  intros Wr Wp Wa.
  assert (V1 : forall x, within 1074 x -> fval x <= fval 1)
    by (intros x [_ V]; rewrite fval_one; exact V).
  assert (W0 : within 1074 0%float) by const_within.
  destruct (overall_mono r p 0 0 a 1 1 0 0 1
              (proj1 Wr) (proj1 Wp) fgood_zero fgood_zero (proj1 Wa)
              within_one within_one W0 W0 within_one
              (V1 _ Wr) (V1 _ Wp) (Z.le_refl _) (Z.le_refl _) (V1 _ Wa)) as [G M].
  assert (G75 : fgood 0.75%float) by (vm_compute; reflexivity).
  rewrite (fleb_units _ _ G75 G). apply Z.leb_gt.
  apply Z.le_lt_trans with (1 := M). apply Z.ltb_lt. vm_compute. reflexivity.
Qed.

Lemma SFltb_units x y : good x -> good y -> SFltb x y = (sval x <? sval y).
Proof.
  intros Gx Gy. unfold SFltb. rewrite (SFcompare_units x y Gx Gy).
  unfold Z.ltb. destruct (sval x ?= sval y); reflexivity.
Qed.

(** [<] on floats is [<] on their values. *)
Lemma fltb_units x y : fgood x -> fgood y -> (x <? y)%float = (fval x <? fval y).
Proof. intros Gx Gy. rewrite FloatAxioms.ltb_spec. apply SFltb_units; assumption. Qed.

(** A float between zero and a finite one is zero or positive and finite. *)
Lemma fgood_of_range x (lo hi : float) :
  Prim2SF lo = S754_zero false -> fgood hi ->
  (lo <=? x)%float = true -> (x <=? hi)%float = true -> fgood x.
Proof.
  intros Elo Ghi. rewrite !FloatAxioms.leb_spec, Elo. unfold fgood in *.
  pose proof (Prim2SF_valid x) as V.
  destruct (Prim2SF x) as [s | s | | s m e]; cbn [good].
  - intros; exact I.
  - destruct s; [discriminate|]. intros _.
    destruct (Prim2SF hi) as [s' | s' | | [] m' e']; cbn [good] in Ghi; try contradiction; discriminate.
  - discriminate.
  - destruct s; [discriminate|]. intros _ _. exact V.
Qed.

(** The floats of the interval [0, 1]. *)
Lemma unit_interval_within q :
  (0 <=? q)%float = true -> (q <=? 1)%float = true -> within 1074 q.
Proof.
  intros H0 H1.
  assert (G : fgood q) by (apply (fgood_of_range q 0%float 1%float); auto using fgood_one).
  split; [exact G|].
  rewrite (fleb_units q 1 G fgood_one), fval_one in H1. apply Z.leb_le. exact H1.
Qed.

(** [round(x, 3)] keeps a score in [0, 1]. *)
Lemma py_round_within x : within 1074 x -> within 1074 (py_round x 3).
Proof.
  intros [G V]. unfold py_round. unfold fgood, fval in *.
  destruct (Prim2SF x) as [s | s | | s m e] eqn:E.
  - split; [unfold fgood; rewrite E; exact I | unfold fval; rewrite E; exact V].
  - contradiction.
  - contradiction.
  - destruct s; [contradiction|].
    pose proof (good_finite m e G) as (He & _ & _ & _).
    cbn [sval] in V.
    change (10 ^ Z.of_N 3) with 1000.
    assert (Hn : 0 <= match e with
                      | Zneg k => rne_div (Zpos m * 1000) (2 ^ Zpos k)
                      | _ => Zpos m * 1000 * 2 ^ e
                      end <= 1000).
    { destruct e as [| k | k].
      - change (2 ^ (0 + 1074)) with (1 * 2 ^ 1074) in V.
        assert (Zpos m <= 1); [|lia].
        apply Z.mul_le_mono_pos_r with (2 ^ 1074); [apply pow2_pos; lia | exact V].
      - exfalso.
        rewrite (Z.pow_add_r 2 (Zpos k) 1074) in V by lia.
        assert (P : 2 <= 2 ^ Zpos k).
        { change 2 with (2 ^ 1) at 1. apply Z.pow_le_mono_r; lia. }
        assert (P74 : 0 < 2 ^ 1074) by (apply pow2_pos; lia).
        revert V P P74. generalize (2 ^ Zpos k) (2 ^ 1074). intros A B V P P74.
        assert (H2 : 2 * B <= Zpos m * (A * B)); [|lia].
        rewrite Z.mul_assoc. apply Z.mul_le_mono_nonneg_r; [lia | nia].
      - assert (Pk : 0 < 2 ^ Zpos k) by (apply pow2_pos; lia).
        split.
        + apply Z.le_trans with (Zpos m * 1000 / 2 ^ Zpos k);
            [apply Z.div_pos; [lia | exact Pk] | apply rne_div_bounds; exact Pk].
        + assert (Hm : Zpos m <= 2 ^ Zpos k).
          { assert (Ek : 2 ^ 1074 = 2 ^ Zpos k * 2 ^ (Zneg k + 1074)).
            { rewrite <- Z.pow_add_r by lia. f_equal. lia. }
            rewrite Ek in V.
            apply Z.mul_le_mono_pos_r with (2 ^ (Zneg k + 1074)); [apply pow2_pos; lia | exact V]. }
          apply Z.le_trans with (rne_div (1000 * 2 ^ Zpos k) (2 ^ Zpos k));
            [|rewrite (rne_div_exact 1000 (2 ^ Zpos k) Pk); lia].
          apply rne_div_mono; try exact Pk.
          apply Z.mul_le_mono_nonneg_r; lia. }
    set (n := match e with
              | Zneg k => rne_div (Zpos m * 1000) (2 ^ Zpos k)
              | _ => Zpos m * 1000 * 2 ^ e
              end) in *.
    destruct n as [| p | p] eqn:En; [| | lia].
    + split; vm_compute; [exact I | discriminate].
    + destruct (int_truediv_fraction (Zpos p) 1000 ltac:(lia) ltac:(lia)) as (q & Eq & W).
      unfold int_truediv in Eq. change (1000 =? 0) with false in Eq. cbv iota zeta in Eq.
      destruct (is_infinity _) in Eq; [discriminate Eq|].
      injection Eq as <-. exact W.
Qed.

(** A quotient of ints that is 1.0 has equal operands, up to [2 ^ 53]. *)
Lemma int_truediv_one_inv c n :
  0 <= c <= n -> 0 < n <= 2 ^ 53 -> int_truediv c n = Ok 1%float -> c = n.
Proof.
  intros Hc Hn E.
  destruct (Z.eq_dec c n) as [-> | Hne]; [reflexivity | exfalso].
  destruct (int_truediv_units c n Hc ltac:(lia)) as (q & E' & G & V).
  rewrite E in E'. injection E' as <-. rewrite fval_one in V.
  set (below := 2 ^ 1074 - 2 ^ 1021).
  assert (Hid : round_units below 1 = below) by (vm_compute; reflexivity).
  assert (Hlt : round_units (c * 2 ^ 1074) n <= below).
  { rewrite <- Hid. apply round_units_mono; lia. }
  assert (0 < 2 ^ 1021) by (apply pow2_pos; lia).
  subst below. lia.
Qed.

(** A quotient of ints that is 0.0 has the numerator 0, up to [2 ^ 53]. *)
Lemma int_truediv_zero_inv c n :
  0 <= c <= n -> 0 < n <= 2 ^ 53 -> int_truediv c n = Ok 0%float -> c = 0.
Proof.
  intros Hc Hn E.
  destruct (Z.eq_dec c 0) as [-> | Hne]; [reflexivity | exfalso].
  destruct (int_truediv_units c n Hc ltac:(lia)) as (q & E' & G & V).
  rewrite E in E'. injection E' as <-. change (fval 0) with 0 in V.
  assert (Hid : round_units 1 1 = 1) by (vm_compute; reflexivity).
  assert (Hge : 1 <= round_units (c * 2 ^ 1074) n); [|lia].
  rewrite <- Hid. apply round_units_mono; lia.
Qed.

(** [round(x, 3)] of a score in [0, 1], in units: the thousandths nearest
    to [x], then the float nearest to that decimal. *)
Lemma py_round_units x :
  within 1074 x ->
  fgood (py_round x 3) /\
  fval (py_round x 3)
  = round_units (rne_div (fval x * 1000) (2 ^ 1074) * 2 ^ 1074) 1000.
Proof.
  intros [G V]. unfold py_round. unfold fgood, fval in *.
  assert (U : 0 < 2 ^ 1074) by (apply pow2_pos; lia).
  destruct (Prim2SF x) as [s | s | | s m e] eqn:E.
  - rewrite E. split; [exact I|]. cbn [sval].
    change (0 * 1000) with (0 * 2 ^ 1074) at 1. rewrite (rne_div_exact 0 _ U).
    rewrite Z.mul_0_l, round_units_0 by lia. reflexivity.
  - contradiction.
  - contradiction.
  - destruct s; [contradiction|].
    pose proof (good_finite m e G) as (He & _ & _ & _).
    cbn [sval] in *.
    change (10 ^ Z.of_N 3) with 1000.
    set (N := rne_div (Zpos m * 2 ^ (e + 1074) * 1000) (2 ^ 1074)).
    assert (En : match e with
                 | Zneg k => rne_div (Zpos m * 1000) (2 ^ Zpos k)
                 | _ => Zpos m * 1000 * 2 ^ e
                 end = N).
    { subst N. destruct e as [| k | k].
      - change (2 ^ (0 + 1074)) with (2 ^ 1074). change (2 ^ 0) with 1.
        replace (Zpos m * 2 ^ 1074 * 1000) with (Zpos m * 1000 * 2 ^ 1074) by ring.
        rewrite (rne_div_exact _ _ U). ring.
      - exfalso.
        rewrite (Z.pow_add_r 2 (Zpos k) 1074) in V by lia.
        assert (P : 2 <= 2 ^ Zpos k).
        { change 2 with (2 ^ 1) at 1. apply Z.pow_le_mono_r; lia. }
        revert V P U. generalize (2 ^ Zpos k) (2 ^ 1074). intros A B V P U.
        assert (H2 : 2 * B <= Zpos m * (A * B)); [|lia].
        rewrite Z.mul_assoc. apply Z.mul_le_mono_nonneg_r; [lia | nia].
      - assert (Pk : 0 < 2 ^ Zpos k) by (apply pow2_pos; lia).
        assert (Pr : 0 < 2 ^ (Zneg k + 1074)) by (apply pow2_pos; lia).
        assert (Ek : 2 ^ 1074 = 2 ^ Zpos k * 2 ^ (Zneg k + 1074)).
        { rewrite <- Z.pow_add_r by lia. f_equal. lia. }
        rewrite Ek.
        replace (Zpos m * 2 ^ (Zneg k + 1074) * 1000)
          with (Zpos m * 1000 * 2 ^ (Zneg k + 1074)) by ring.
        rewrite (rne_div_scale _ _ _ Pk Pr). reflexivity. }
    rewrite En.
    assert (Hn : 0 <= N <= 1000).
    { subst N. split.
      - apply Z.le_trans with (Zpos m * 2 ^ (e + 1074) * 1000 / 2 ^ 1074);
          [apply Z.div_pos; [|exact U] | apply rne_div_bounds; exact U].
        apply Z.mul_nonneg_nonneg; [|lia].
        apply Z.mul_nonneg_nonneg; [lia | apply Z.pow_nonneg; lia].
      - apply Z.le_trans with (rne_div (1000 * 2 ^ 1074) (2 ^ 1074));
          [|rewrite (rne_div_exact 1000 _ U); lia].
        apply rne_div_mono; try exact U.
        apply Z.mul_le_mono_nonneg_r; [lia|].
        rewrite (Z.mul_comm 1000). apply Z.mul_le_mono_nonneg_r; [lia | exact V]. }
    clearbody N. destruct N as [| p | p]; [| | lia].
    + split; [exact I|]. rewrite Z.mul_0_l, round_units_0 by lia. reflexivity.
    + destruct (int_truediv_units (Zpos p) 1000 ltac:(lia) ltac:(lia)) as (q & Eq & Gq & Vq).
      unfold int_truediv in Eq. change (1000 =? 0) with false in Eq. cbv iota zeta in Eq.
      destruct (is_infinity _) in Eq; [discriminate Eq|].
      injection Eq as <-. split; [exact Gq | exact Vq].
Qed.

(** Rounding to 3 places keeps the order of two scores. *)
Lemma py_round_mono x y :
  fgood x -> within 1074 y -> fval x <= fval y ->
  fval (py_round x 3) <= fval (py_round y 3).
Proof.
  intros Gx Wy Hxy.
  assert (Wx : within 1074 x) by (split; [exact Gx | destruct Wy; lia]).
  destruct (py_round_units x Wx) as [_ Vx]. destruct (py_round_units y Wy) as [_ Vy].
  rewrite Vx, Vy.
  assert (U : 0 < 2 ^ 1074) by (apply pow2_pos; lia).
  assert (Hn : rne_div (fval x * 1000) (2 ^ 1074) <= rne_div (fval y * 1000) (2 ^ 1074)).
  { apply rne_div_mono; try exact U. apply Z.mul_le_mono_nonneg_r; lia. }
  assert (H0 : 0 <= rne_div (fval x * 1000) (2 ^ 1074)).
  { apply Z.le_trans with (fval x * 1000 / 2 ^ 1074);
      [apply Z.div_pos; [|exact U] | apply rne_div_bounds; exact U].
    pose proof (fval_nonneg x). lia. }
  revert Hn H0. generalize (rne_div (fval x * 1000) (2 ^ 1074)) (rne_div (fval y * 1000) (2 ^ 1074)).
  intros a b Hn H0.
  apply round_units_mono; lia.
Qed.

(** A score in [0, 1] of at least 0.75 is at least 0.75 once rounded. *)
Lemma py_round_keeps_threshold x :
  within 1074 x -> (0.75 <=? x)%float = true -> (0.75 <=? py_round x 3)%float = true.
Proof.
  intros Wx H.
  assert (G75 : fgood 0.75%float) by (vm_compute; reflexivity).
  rewrite (fleb_units _ _ G75 (proj1 Wx)) in H. apply Z.leb_le in H.
  pose proof (py_round_mono 0.75 x G75 Wx H) as M.
  assert (E75 : py_round 0.75 3 = 0.75%float) by (vm_compute; reflexivity).
  rewrite E75 in M.
  rewrite (fleb_units _ _ G75 (proj1 (py_round_within x Wx))). apply Z.leb_le. exact M.
Qed.

(** ** Scores between 0 and 1 *)

Lemma in_unit_interval_within x : in_unit_interval x = true <-> within 1074 x.
Proof.
  unfold in_unit_interval. rewrite andb_true_iff. split.
  - intros [H0 H1]. apply unit_interval_within; assumption.
  - apply within_unit_interval.
Qed.

(** The quotient of two ints does not decrease with the numerator. *)
Lemma int_truediv_mono a a' b q q' :
  0 <= a <= a' -> a' <= b -> 0 < b ->
  int_truediv a b = Ok q -> int_truediv a' b = Ok q' -> (q <=? q')%float = true.
Proof.
  intros Ha Ha' Hb E E'.
  destruct (int_truediv_units a b ltac:(lia) Hb) as (x & Ex & Gx & Vx).
  destruct (int_truediv_units a' b ltac:(lia) Hb) as (x' & Ex' & Gx' & Vx').
  rewrite Ex in E. injection E as <-. rewrite Ex' in E'. injection E' as <-.
  rewrite (fleb_units x x' Gx Gx'), Vx, Vx'. apply Z.leb_le.
  assert (P : 0 < 2 ^ 1074) by (apply pow2_pos; lia).
  apply round_units_mono; try assumption.
  - apply Z.mul_nonneg_nonneg; lia.
  - apply Z.mul_le_mono_nonneg_r; [lia|].
    apply Z.mul_le_mono_nonneg_r; lia.
Qed.

(** ** The loop over the patterns *)

(** [re.search] raises nothing but [re.error]. *)
Lemma re_search_Raise pattern text e : re_search pattern text = Raise e -> e = re_error.
Proof.
  unfold re_search. destruct (literal_pattern pattern); [discriminate|].
  destruct (re_engine pattern); [discriminate|]. intros H. injection H as <-. reflexivity.
Qed.

Lemma count_matches_bounds text patterns :
  forall score c,
    count_matches text patterns score = Ok c ->
    score <= c <= score + Z.of_nat (List.length patterns).
Proof.
  induction patterns as [| p ps IH]; intros score c H; cbn [count_matches] in H.
  - injection H as <-. cbn. lia.
  - apply bind_Ok in H. destruct H as (found & _ & H). apply IH in H.
    cbn [List.length]. destruct found; lia.
Qed.

(** Whatever the patterns, a score that is returned is in [0, 1]. *)
Lemma regex_match_score_within text patterns v :
  regex_match_score text patterns = Ok v -> within 1074 v.
Proof.
  unfold regex_match_score. intros H. apply bind_Ok in H. destruct H as (c & Hc & H).
  apply count_matches_bounds in Hc.
  destruct (int_truediv_fraction c (Z.max (Z.of_nat (List.length patterns)) 1)
              ltac:(lia) ltac:(lia)) as (q & E & W).
  rewrite E in H. injection H as <-. exact W.
Qed.

Lemma count_matches_perm text ps qs :
  Permutation ps qs ->
  forall score, count_matches text ps score = count_matches text qs score.
Proof.
  induction 1 as [| x l l' _ IH | x y l | l l' l'' _ IH1 _ IH2]; intros score.
  - reflexivity.
  - cbn [count_matches]. destruct (re_search x text); cbn [bind]; [apply IH | reflexivity].
  - cbn [count_matches].
    destruct (re_search y text) as [fy | ey] eqn:Ey, (re_search x text) as [fx | ex] eqn:Ex;
      cbn [bind]; try reflexivity.
    + f_equal. destruct fx, fy; lia.
    + apply re_search_Raise in Ey, Ex. subst. reflexivity.
  - rewrite IH1. apply IH2.
Qed.

Lemma count_matches_all text patterns :
  Forall (fun p => re_search p text = Ok true) patterns ->
  forall score,
    count_matches text patterns score = Ok (score + Z.of_nat (List.length patterns)).
Proof.
  induction 1 as [| p ps Hp _ IH]; intros score; cbn [count_matches].
  - cbn. f_equal. lia.
  - rewrite Hp. cbn [bind]. rewrite IH. cbn [List.length]. f_equal. lia.
Qed.

Lemma count_matches_none text patterns :
  Forall (fun p => re_search p text = Ok false) patterns ->
  forall score, count_matches text patterns score = Ok score.
Proof.
  induction 1 as [| p ps Hp _ IH]; intros score; cbn [count_matches].
  - reflexivity.
  - rewrite Hp. cbn [bind]. apply IH.
Qed.

(** ** Patterns and the joined posts *)

Lemma starts_with_app p s t : starts_with p s = true -> starts_with p (s ++ t) = true.
Proof.
  revert s. induction p as [| a p IH]; intros s H; [destruct (s ++ t); reflexivity|].
  destruct s as [| b s]; [discriminate H|].
  cbn [starts_with app] in *. apply andb_true_iff in H. destruct H as [H1 H2].
  rewrite H1, (IH s H2). reflexivity.
Qed.

Lemma starts_with_nil_r p : starts_with p [] = true -> p = [].
Proof. destruct p; [reflexivity | discriminate]. Qed.

Lemma contains_app_r sub s t : contains sub s = true -> contains sub (s ++ t) = true.
Proof.
  induction s as [| b s IH]; cbn [contains app]; intros H.
  - rewrite orb_false_r in H. apply starts_with_nil_r in H. subst. apply contains_nil.
  - apply orb_true_iff in H. destruct H as [H | H].
    + change (b :: s ++ t) with ((b :: s) ++ t). rewrite (starts_with_app _ _ t H). reflexivity.
    + rewrite (IH H). apply orb_true_r.
Qed.

Lemma contains_app_l sub s t : contains sub t = true -> contains sub (s ++ t) = true.
Proof.
  intros H. induction s as [| b s IH]; [exact H|].
  cbn [app contains]. rewrite IH. apply orb_true_r.
Qed.

(** A part of a joined text is a slice of it. *)
Lemma join_In sep p ps : In p ps -> exists pre suf, join sep ps = pre ++ p ++ suf.
Proof.
  induction ps as [| q rest IH]; [contradiction|]. intros [E | Hin].
  - subst q. destruct rest as [| r rest].
    + exists [], []. cbn. rewrite app_nil_r. reflexivity.
    + exists [], (sep ++ join sep (r :: rest)). reflexivity.
  - destruct (IH Hin) as (pre & suf & E).
    destruct rest as [| r rest]; [contradiction|].
    exists (q ++ sep ++ pre), suf.
    change (join sep (q :: r :: rest)) with (q ++ sep ++ join sep (r :: rest)).
    rewrite E, <- !app_assoc. reflexivity.
Qed.

(** A literal pattern found in a text is found in any text around it. *)
Lemma literal_search_mono pattern text pre suf :
  literal_pattern pattern = true ->
  re_search pattern text = Ok true -> re_search pattern (pre ++ text ++ suf) = Ok true.
Proof.
  unfold re_search. intros L. rewrite L. intros H. injection H as H. f_equal.
  apply existsb_exists in H. destruct H as (alt & Hin & Hc).
  apply existsb_exists. exists alt. split; [exact Hin|].
  rewrite !map_app. apply contains_app_l, contains_app_r. exact Hc.
Qed.

Lemma filter_length_le {A : Type} (f g : A -> bool) (l : list A) :
  (forall a, In a l -> f a = true -> g a = true) ->
  (List.length (filter f l) <= List.length (filter g l))%nat.
Proof.
  induction l as [| a l IH]; intros H; [cbn; lia|].
  assert (IH' := IH (fun b Hb => H b (or_intror Hb))).
  cbn [filter]. pose proof (H a (or_introl eq_refl)) as Ha.
  destruct (f a), (g a); cbn [List.length]; first [lia | discriminate (Ha eq_refl)].
Qed.

(** ** The loop over the scenarios *)

Lemma evaluate_item_scenario agent item r :
  evaluate_item agent item = Ok r -> scenario r = firstn 50 (user_input item).
Proof.
  unfold evaluate_item. destruct (agent (user_input item)) as [output |].
  - intros H. apply bind_Ok in H. destruct H as (l & _ & H). injection H as <-. reflexivity.
  - intros H. injection H as <-. reflexivity.
Qed.


(** ** The summary of a non-empty list of records *)

Lemma loc_scenario_of_records results i :
  results <> [] ->
  loc_scenario (DataFrame_of (map (fun r => {| row_scenario := scenario r;
                                               row_overall := overall_score r;
                                               row_passed := passed r |}) results)) i
  = match nth_error (map scenario results) i with
    | Some s => Ok s
    | None => Raise (KeyError "scenario")
    end.
Proof.
  intros Hne. unfold loc_scenario.
  rewrite column_of_records;
    [| destruct results; [contradiction | discriminate] | cbn; auto].
  cbn [bind]. rewrite map_map. reflexivity.
Qed.

Lemma compute_overall_score_nonempty results :
  results <> [] ->
  compute_overall_score results
  = (best <- (i <- idxmax (map overall_score results) ;;
              match nth_error (map scenario results) i with
              | Some s => Ok s
              | None => Raise (KeyError "scenario")
              end) ;;
     worst <- (i <- idxmin (map overall_score results) ;;
               match nth_error (map scenario results) i with
               | Some s => Ok s
               | None => Raise (KeyError "scenario")
               end) ;;
     Ok {| total_scenarios := Z.of_nat (List.length results);
           pass_rate := mean_bool (map passed results);
           avg_overall_score := series_mean (map overall_score results);
           best_scenario := best;
           worst_scenario := worst |}).
Proof.
  intros Hne. unfold compute_overall_score. cbv zeta.
  set (to_row := fun r => {| row_scenario := scenario r;
                             row_overall := overall_score r;
                             row_passed := passed r |}).
  set (records := map to_row results).
  assert (Hrec : records <> []).
  { subst records. destruct results; [contradiction | discriminate]. }
  assert (Hempty : empty (DataFrame_of records) = false)
    by (destruct records; [contradiction | reflexivity]).
  rewrite (column_of_records records "passed" row_passed Hrec) by (cbn; auto).
  rewrite (column_of_records records "overall" row_overall Hrec) by (cbn; auto).
  cbn [bind]. rewrite Hempty. cbn [negb].
  assert (Ep : map row_passed records = map passed results)
    by (subst records; rewrite map_map; reflexivity).
  assert (Eo : map row_overall records = map overall_score results)
    by (subst records; rewrite map_map; reflexivity).
  assert (En : Z.of_nat (List.length (rows (DataFrame_of records)))
               = Z.of_nat (List.length results))
    by (subst records; cbn [DataFrame_of rows]; rewrite length_map; reflexivity).
  rewrite Ep, Eo, En.
  destruct (idxmax (map overall_score results)) as [i | e]; cbn [bind]; [|reflexivity].
  subst records to_row. rewrite (loc_scenario_of_records results i Hne).
  destruct (nth_error (map scenario results) i) as [best |]; cbn [bind]; [|reflexivity].
  destruct (idxmin (map overall_score results)) as [j | e]; cbn [bind]; [|reflexivity].
  rewrite (loc_scenario_of_records results j Hne). reflexivity.
Qed.

(** The position [idx_from] returns with no best value yet is one of the
    list. *)
Lemma idx_from_label better results :
  Exists (fun r => is_nan (overall_score r) = false) results ->
  exists i label,
    idx_from better (map overall_score results) 0 None = Some i /\
    nth_error (map scenario results) i = Some label.
Proof.
  intros Hex.
  destruct (idx_from better (map overall_score results) 0 None) as [i |] eqn:E.
  - pose proof (idx_from_bound _ _ _ _ _ E) as [[b Hb] | Hi]; [discriminate Hb|].
    rewrite length_map in Hi.
    destruct (nth_error (map scenario results) i) as [label |] eqn:N.
    + exists i, label. split; [reflexivity | exact N].
    + apply nth_error_None in N. rewrite length_map in N. lia.
  - exfalso. revert E. apply idx_from_found. right.
    apply Exists_exists in Hex. destruct Hex as (r & Hin & Hr).
    apply Exists_exists. exists (overall_score r). split; [|exact Hr].
    apply in_map_iff. exists r. split; [reflexivity | exact Hin].
Qed.

(** A summary is returned as soon as one overall score is a number, and
    its pass rate is the quotient of the two counts. *)
Lemma compute_overall_score_returns results :
  Exists (fun r => is_nan (overall_score r) = false) results ->
  exists s rate,
    compute_overall_score results = Ok s /\
    pass_rate s = rate /\
    int_truediv (Z.of_nat (List.length (filter passed results)))
                (Z.of_nat (List.length results)) = Ok rate.
Proof.
  intros Hex.
  assert (Hne : results <> []) by (intros ->; inversion Hex).
  assert (Hlen : 0 < Z.of_nat (List.length results)).
  { destruct results; [contradiction | cbn [List.length]; lia]. }
  pose proof (filter_length passed results) as Hcount.
  destruct (int_truediv_fraction (Z.of_nat (List.length (filter passed results)))
              (Z.of_nat (List.length results)) ltac:(lia) Hlen) as (v & E & _).
  destruct (idx_from_label (fun x b => (b <? x)%float) results Hex) as (i & best & Hi & Hb).
  destruct (idx_from_label (fun x b => (x <? b)%float) results Hex) as (j & worst & Hj & Hw).
  rewrite (compute_overall_score_nonempty results Hne).
  unfold idxmax, idxmin. rewrite Hi, Hj. cbn [bind]. rewrite Hb, Hw. cbn [bind].
  eexists. exists v. split; [reflexivity|]. split; [|exact E].
  cbn [pass_rate]. unfold mean_bool. rewrite count_passed, length_map, E. reflexivity.
Qed.

(** ** The scores of a scenario *)

Lemma map_result_Forall {A B : Type} (f : A -> result B) (P : B -> Prop) (l : list A) :
  (forall a b, f a = Ok b -> P b) ->
  forall bs, map_result f l = Ok bs -> Forall P bs /\ List.length bs = List.length l.
Proof.
  intros Hf. induction l as [| a l IH]; intros bs H; cbn [map_result] in H.
  - injection H as <-. split; [constructor | reflexivity].
  - apply bind_Ok in H. destruct H as (b & Hb & H).
    apply bind_Ok in H. destruct H as (bs' & Hbs & H). injection H as <-.
    destruct (IH bs' Hbs) as [F L].
    split; [constructor; [exact (Hf a b Hb) | exact F] | cbn [List.length]; rewrite L; reflexivity].
Qed.

(** The quality of a post, when it is returned, is in [0, 1]. *)
Lemma post_quality_within post expected_keywords q :
  (e <- evaluate_social_post post expected_keywords ;; Ok (quality e)) = Ok q ->
  within 1074 q.
Proof.
  intros H. apply bind_Ok in H. destruct H as (e & He & H). injection H as <-.
  apply evaluate_social_post_Ok in He. destruct He as (fraction & W & _ & ->).
  cbn [quality]. apply in_unit_interval_within. unfold in_unit_interval.
  destruct (quality_of_range fraction (length_ok post) (has_hashtag post) (has_emoji post) W)
    as [H0 H1].
  rewrite H0, H1. reflexivity.
Qed.

(** Where the relevance and the average post quality of a scenario come from. *)
Lemma score_scenario_inv item output l :
  score_scenario item output = Ok l ->
  Locals.relevance l
  = cosine_text_similarity
      (user_input item ++ of_ascii " "
       ++ rec_text_of (get (recommendations output) (RecDict None))
       ++ promo_text_of (get (promotions output) []))
      (user_input item) /\
  exists post_qualities,
    map_result (fun post =>
                  e <- evaluate_social_post post (get (required_keywords (expected item)) []) ;;
                  Ok (quality e))
               (map snd (get (social_posts output) [])) = Ok post_qualities /\
    match post_qualities with
    | [] => Ok 0%float
    | _ :: _ => float_div_int (py_sum post_qualities) (Z.of_nat (List.length post_qualities))
    end = Ok (Locals.post_quality_avg l).
Proof.
  unfold score_scenario. cbv zeta. intros H.
  apply bind_Ok in H. destruct H as (personalization & Hp & H).
  apply bind_Ok in H. destruct H as (trend_align & Ht & H).
  apply bind_Ok in H. destruct H as (event_cov & He & H).
  apply bind_Ok in H. destruct H as (post_qualities & Hq & H).
  apply bind_Ok in H. destruct H as (post_quality_avg & Ha & H).
  injection H as <-. cbn [Locals.relevance Locals.post_quality_avg].
  split; [reflexivity|]. exists post_qualities. split; assumption.
Qed.

(** With a relevance in [0, 1], every score of a scenario is in [0, 1]. *)
Lemma scenario_scores_within item output l :
  score_scenario item output = Ok l ->
  within 1074 (Locals.relevance l) ->
  Z.of_nat (List.length (get (social_posts output) [])) < 2 ^ 1023 ->
  within 1074 (Locals.personalization l) /\
  within 1074 (Locals.trend_align l) /\
  within 1074 (Locals.event_cov l) /\
  within 1074 (Locals.post_quality_avg l) /\
  within 1074 (Locals.overall l).
Proof.
  intros Hl Wr Hposts.
  destruct (score_scenario_Ok item output l Hl) as (Ho & _ & Hp & Ht & He).
  destruct (score_scenario_inv item output l Hl) as (_ & qs & Hq & Ha).
  apply regex_match_score_within in Hp, Ht, He.
  assert (Wa : within 1074 (Locals.post_quality_avg l)).
  { destruct (map_result_Forall _ (within 1074) _
                (fun post q => post_quality_within post _ q) qs Hq) as [F L].
    destruct qs as [| q qs'].
    - injection Ha as <-. split; [exact I | vm_compute; discriminate].
    - rewrite length_map in L.
      destruct (mean_within (q :: qs') ltac:(discriminate) ltac:(rewrite L; exact Hposts) F)
        as (avg & E & W).
      rewrite E in Ha. injection Ha as <-. exact W. }
  repeat (split; [assumption|]).
  rewrite Ho. apply overall_within; assumption.
Qed.

(** ** The best and the worst scenario *)

Lemma fgood_not_nan x : fgood x -> is_nan x = false.
Proof.
  intros G. unfold is_nan. rewrite FloatAxioms.eqb_spec. unfold SFeqb.
  rewrite (SFcompare_units _ _ G G), Z.compare_refl. reflexivity.
Qed.

(** Among zero or positive finite scores, under an order given by an
    integer key, [idx_from] returns the first position of the best one. *)
Lemma idx_from_first_best better (key : float -> Z) xs :
  (forall x b, fgood x -> fgood b -> better x b = (key b <? key x)) ->
  Forall fgood xs ->
  forall i best j,
    (forall k b, best = Some (k, b) -> fgood b) ->
    idx_from better xs i best = Some j ->
    (exists b, best = Some (j, b) /\ Forall (fun y => key y <= key b) xs) \/
    (exists x, (i <= j)%nat /\ nth_error xs (j - i) = Some x /\
               Forall (fun y => key y <= key x) xs /\
               (forall k b, best = Some (k, b) -> key b < key x) /\
               (forall j' y, (j' < j - i)%nat -> nth_error xs j' = Some y -> key y < key x)).
Proof.
  intros Hb Hg. induction Hg as [| x xs Gx Gxs IH]; intros i best j Hbest H; cbn [idx_from] in H.
  - destruct best as [[k b] |]; cbn in H; [|discriminate H].
    injection H as <-. left. exists b. split; [reflexivity | constructor].
  - rewrite (fgood_not_nan x Gx) in H.
    assert (Hnew : forall y,
               (S i <= j)%nat -> nth_error xs (j - S i) = Some y ->
               Forall (fun z => key z <= key y) xs ->
               key x < key y ->
               (forall j' z, (j' < j - S i)%nat -> nth_error xs j' = Some z -> key z < key y) ->
               (i <= j)%nat /\ nth_error (x :: xs) (j - i) = Some y /\
               Forall (fun z => key z <= key y) (x :: xs) /\
               (forall j' z, (j' < j - i)%nat -> nth_error (x :: xs) j' = Some z -> key z < key y)).
    { intros y Hij Hn F Hx Hfirst. split; [lia|]. split; [|split].
      - replace (j - i)%nat with (S (j - S i)) by lia. exact Hn.
      - constructor; [lia | exact F].
      - intros j' z Hj' Hz. destruct j' as [| j'']; cbn [nth_error] in Hz.
        + injection Hz as <-. exact Hx.
        + apply (Hfirst j'' z); [lia | exact Hz]. }
    assert (Hhere : i = j ->
               (i <= j)%nat /\ nth_error (x :: xs) (j - i) = Some x /\
               (forall j' z, (j' < j - i)%nat -> nth_error (x :: xs) j' = Some z -> key z < key x)).
    { intros <-. split; [lia|]. rewrite Nat.sub_diag. split; [reflexivity|].
      intros j' z Hj'. lia. }
    destruct best as [[k b] |].
    + pose proof (Hbest k b eq_refl) as Gb. rewrite (Hb x b Gx Gb) in H.
      destruct (Z.ltb_spec (key b) (key x)) as [Hlt | Hge].
      * apply IH in H; [|intros k' b' E; injection E as <- <-; exact Gx].
        destruct H as [(b' & E & F) | (y & Hij & Hn & F & Hbetter & Hfirst)].
        -- injection E as <- <-. right. exists x.
           destruct (Hhere eq_refl) as (H1 & H2 & H3).
           split; [exact H1|]. split; [exact H2|].
           split; [constructor; [lia | exact F]|]. split; [|exact H3].
           intros k' b' E'. injection E' as <- <-. exact Hlt.
        -- right. exists y. pose proof (Hbetter i x eq_refl) as Hx.
           destruct (Hnew y Hij Hn F Hx Hfirst) as (H1 & H2 & H3 & H4).
           split; [exact H1|]. split; [exact H2|]. split; [exact H3|]. split; [|exact H4].
           intros k' b' E'. injection E' as <- <-. lia.
      * apply IH in H; [|exact Hbest].
        destruct H as [(b' & E & F) | (y & Hij & Hn & F & Hbetter & Hfirst)].
        -- injection E as <- <-. left. exists b. split; [reflexivity|].
           constructor; [exact Hge | exact F].
        -- right. exists y. pose proof (Hbetter k b eq_refl) as Hby.
           destruct (Hnew y Hij Hn F ltac:(lia) Hfirst) as (H1 & H2 & H3 & H4).
           split; [exact H1|]. split; [exact H2|]. split; [exact H3|]. split; [|exact H4].
           intros k' b' E'. injection E' as <- <-. exact Hby.
    + apply IH in H; [|intros k' b' E; injection E as <- <-; exact Gx].
      destruct H as [(b' & E & F) | (y & Hij & Hn & F & Hbetter & Hfirst)].
      * injection E as <- <-. right. exists x.
        destruct (Hhere eq_refl) as (H1 & H2 & H3).
        split; [exact H1|]. split; [exact H2|].
        split; [constructor; [lia | exact F]|]. split; [|exact H3].
        intros k' b' E'. discriminate E'.
      * right. exists y. pose proof (Hbetter i x eq_refl) as Hx.
        destruct (Hnew y Hij Hn F Hx Hfirst) as (H1 & H2 & H3 & H4).
        split; [exact H1|]. split; [exact H2|]. split; [exact H3|]. split; [|exact H4].
        intros k' b' E'. discriminate E'.
Qed.

(** The record behind the label that [idx_from] leads to. *)
Lemma idx_from_record better (key : float -> Z) results i label :
  (forall x b, fgood x -> fgood b -> better x b = (key b <? key x)) ->
  Forall (fun r => fgood (overall_score r)) results ->
  idx_from better (map overall_score results) 0 None = Some i ->
  nth_error (map scenario results) i = Some label ->
  exists r,
    nth_error results i = Some r /\ label = scenario r /\
    Forall (fun r' => key (overall_score r') <= key (overall_score r)) results /\
    (forall i' r', (i' < i)%nat -> nth_error results i' = Some r' ->
                   key (overall_score r') < key (overall_score r)).
Proof.
  intros Hb Hg Hi Hlabel.
  assert (Hg' : Forall fgood (map overall_score results)).
  { apply (proj2 (Forall_map overall_score fgood results)). exact Hg. }
  destruct (idx_from_first_best better key _ Hb Hg' 0%nat None i
              ltac:(intros k b E; discriminate E) Hi)
    as [(b & E & _) | (x & _ & Hn & F & _ & Hfirst)]; [discriminate E|].
  rewrite Nat.sub_0_r in Hn, Hfirst.
  rewrite nth_error_map in Hn, Hlabel.
  destruct (nth_error results i) as [r |] eqn:Er; [|discriminate Hn].
  cbn [option_map] in Hn, Hlabel. injection Hn as <-. injection Hlabel as <-.
  exists r. split; [reflexivity|]. split; [reflexivity|]. split.
  - pose proof (proj1 (Forall_map _ _ _) F) as F'. exact F'.
  - intros i' r' Hi' Hr'. apply (Hfirst i' (overall_score r') Hi').
    rewrite nth_error_map, Hr'. reflexivity.
Qed.

Lemma count_matches_all_inv text patterns :
  forall score,
    count_matches text patterns score = Ok (score + Z.of_nat (List.length patterns)) ->
    Forall (fun p => re_search p text = Ok true) patterns.
Proof.
  induction patterns as [| p ps IH]; intros score H; [constructor|].
  cbn [count_matches] in H. apply bind_Ok in H. destruct H as (found & Hp & H).
  pose proof (count_matches_bounds _ _ _ _ H) as B. cbn [List.length] in H, B.
  destruct found; [|lia].
  constructor; [exact Hp|]. apply (IH (score + 1)). rewrite H. f_equal. lia.
Qed.

Lemma count_matches_none_inv text patterns :
  forall score,
    count_matches text patterns score = Ok score ->
    Forall (fun p => re_search p text = Ok false) patterns.
Proof.
  induction patterns as [| p ps IH]; intros score H; [constructor|].
  cbn [count_matches] in H. apply bind_Ok in H. destruct H as (found & Hp & H).
  pose proof (count_matches_bounds _ _ _ _ H) as B.
  destruct found; [lia|].
  constructor; [exact Hp | exact (IH score H)].
Qed.

(** ** Further properties of the harness, one theorem for each *)

(** X1: the loop of the suite keeps the records it starts from and adds one
    record for each scenario, in the order of the dataset: the record that
    evaluating the scenario returns, labelled with the first 50 characters
    of the scenario's input. *)
Theorem evaluate_dataset_records agent dataset results rs :
  evaluate_dataset agent dataset results = Ok rs ->
  exists new,
    rs = results ++ new /\
    Forall2 (fun item r => evaluate_item agent item = Ok r /\
                           scenario r = firstn 50 (user_input item))
            dataset new.
Proof.
  revert results rs. induction dataset as [| item rest IH]; intros results rs H.
  - cbn [evaluate_dataset] in H. injection H as <-. exists [].
    split; [rewrite app_nil_r; reflexivity | constructor].
  - cbn [evaluate_dataset] in H. apply bind_Ok in H. destruct H as (r & Hr & H).
    destruct (IH _ _ H) as (new & E & F). exists (r :: new). split.
    + rewrite E, <- app_assoc. reflexivity.
    + constructor; [|exact F].
      split; [exact Hr | exact (evaluate_item_scenario agent item r Hr)].
Qed.


(** X3: the final assertion.  With k records passed out of n, the suite
    returns its records when 10 k >= 7 n, and its final assertion fails
    when 10 k < 7 n, for any number of scenarios up to 2^49. *)
Theorem suite_threshold_is_seven_in_ten agent file dataset results :
  load_evaluation_dataset file = Ok dataset ->
  evaluate_dataset agent dataset [] = Ok results ->
  Exists (fun r => is_nan (overall_score r) = false) results ->
  (7 * Z.of_nat (List.length results) <= 10 * Z.of_nat (List.length (filter passed results)) ->
   test_full_evaluation_suite agent file = Ok results) /\
  (Z.of_nat (List.length results) <= 2 ^ 49 ->
   10 * Z.of_nat (List.length (filter passed results)) < 7 * Z.of_nat (List.length results) ->
   test_full_evaluation_suite agent file = Raise AssertionError).
Proof.
  intros Hload Hdata Hex.
  destruct (compute_overall_score_returns results Hex) as (s & rate & Es & Er & Ediv).
  assert (Hn : 0 < Z.of_nat (List.length results)).
  { destruct results; [inversion Hex | cbn [List.length]; lia]. }
  pose proof (filter_length passed results) as Hk.
  unfold test_full_evaluation_suite. rewrite Hload. cbn [bind]. rewrite Hdata. cbn [bind].
  rewrite Es. cbn [bind]. rewrite Er. split.
  - intros Hrate.
    rewrite (rate_reaches_threshold (Z.of_nat (List.length (filter passed results)))
               (Z.of_nat (List.length results)) rate ltac:(lia) Hn Ediv Hrate).
    reflexivity.
  - intros Hsize Hrate.
    rewrite (rate_misses_threshold (Z.of_nat (List.length (filter passed results)))
               (Z.of_nat (List.length results)) rate ltac:(lia) ltac:(lia) Ediv Hrate).
    reflexivity.
Qed.

(** X4: the score of [regex_match_score] does not depend on the order of
    the patterns, whether it is returned or [re.error] is raised. *)
Theorem regex_match_score_permutation text patterns patterns' :
  Permutation patterns patterns' ->
  regex_match_score text patterns = regex_match_score text patterns'.
Proof.
  intros P. unfold regex_match_score.
  rewrite (count_matches_perm text _ _ P 0), (Permutation_length P). reflexivity.
Qed.

(** X5: for up to 2^53 patterns, [regex_match_score] returns 0.0 exactly
    when every pattern is searched and none is found, and, on a list that
    is not empty, 1.0 exactly when every pattern is found. *)
Theorem regex_match_score_extremes text patterns :
  Z.of_nat (List.length patterns) <= 2 ^ 53 ->
  (regex_match_score text patterns = Ok 0%float <->
   Forall (fun p => re_search p text = Ok false) patterns) /\
  (patterns <> [] ->
   (regex_match_score text patterns = Ok 1%float <->
    Forall (fun p => re_search p text = Ok true) patterns)).
Proof.
  intros Hsize. unfold regex_match_score. split; [|intros Hne]; split.
  - intros H. apply bind_Ok in H. destruct H as (c & Hc & H).
    pose proof (count_matches_bounds _ _ _ _ Hc) as B.
    destruct patterns as [| p ps]; [constructor|].
    apply int_truediv_zero_inv in H; [|lia | cbn [List.length] in *; lia].
    subst c. exact (count_matches_none_inv _ _ _ Hc).
  - intros F. rewrite (count_matches_none text patterns F 0). cbn [bind].
    apply int_truediv_zero. lia.
  - intros H. apply bind_Ok in H. destruct H as (c & Hc & H).
    pose proof (count_matches_bounds _ _ _ _ Hc) as B.
    assert (Hn : 0 < Z.of_nat (List.length patterns)).
    { destruct patterns; [contradiction | cbn [List.length]; lia]. }
    apply int_truediv_one_inv in H; [|lia | lia].
    apply (count_matches_all_inv text patterns 0). rewrite Hc. f_equal. lia.
  - intros F. rewrite (count_matches_all text patterns F 0). cbn [bind].
    assert (Hn : 0 < Z.of_nat (List.length patterns)).
    { destruct patterns; [contradiction | cbn [List.length]; lia]. }
    rewrite Z.add_0_l, Z.max_l by lia. apply int_truediv_same. exact Hn.
Qed.

(** X6: a pattern of plain characters and [|] found in one post is found
    in the posts joined, so that the score of the joined posts is at
    least the score of any one of them. *)
Theorem joined_posts_score_at_least sep posts post patterns v :
  In post posts ->
  Forall (fun p => literal_pattern p = true) patterns ->
  regex_match_score post patterns = Ok v ->
  (forall p, In p patterns -> re_search p post = Ok true ->
             re_search p (join sep posts) = Ok true) /\
  exists w,
    regex_match_score (join sep posts) patterns = Ok w /\ (v <=? w)%float = true.
Proof.
  intros Hin Hlit Hv.
  destruct (join_In sep post posts Hin) as (pre & suf & Ej).
  assert (Hmono : forall p, In p patterns -> re_search p post = Ok true ->
                            re_search p (join sep posts) = Ok true).
  { intros p Hp Hfound. rewrite Ej. apply literal_search_mono; [|exact Hfound].
    rewrite Forall_forall in Hlit. exact (Hlit p Hp). }
  split; [exact Hmono|].
  assert (Hvalid : Forall valid_pattern patterns).
  { apply Forall_impl with (2 := Hlit). intros p L. left. exact L. }
  unfold regex_match_score in *.
  rewrite (count_matches_spec post patterns Hvalid 0) in Hv.
  rewrite (count_matches_spec (join sep posts) patterns Hvalid 0).
  cbn [bind] in *. rewrite Z.add_0_l in *.
  pose proof (matching_length (join sep posts) patterns) as Hup.
  assert (Hle : (List.length (matching post patterns)
                 <= List.length (matching (join sep posts) patterns))%nat).
  { unfold matching. apply filter_length_le. intros p Hp Hf.
    destruct (re_search p post) as [[] |] eqn:E; try discriminate Hf.
    rewrite (Hmono p Hp E). reflexivity. }
  destruct (int_truediv_fraction (Z.of_nat (List.length (matching (join sep posts) patterns)))
              (Z.max (Z.of_nat (List.length patterns)) 1) ltac:(lia) ltac:(lia))
    as (w & Ew & _).
  exists w. split; [exact Ew|].
  apply (int_truediv_mono _ _ _ v w) with (4 := Hv) (5 := Ew); lia.
Qed.


(** X8: a scenario whose expected criteria name no trend and no event
    cannot pass: both scores are 0 and the overall score stays below
    0.75, whatever the agent answers. *)
Theorem no_trend_no_event_never_passes item output l :
  get (trends (expected item)) [] = [] ->
  get (events (expected item)) [] = [] ->
  in_unit_interval (Locals.relevance l) = true ->
  Z.of_nat (List.length (get (social_posts output) [])) < 2 ^ 1023 ->
  score_scenario item output = Ok l ->
  Locals.trend_align l = 0%float /\ Locals.event_cov l = 0%float /\
  (Locals.overall l <? 0.75)%float = true /\ Locals.passed l = false.
Proof.
  intros Ht He Hr Hposts Hl.
  apply in_unit_interval_within in Hr.
  destruct (scenario_scores_within item output l Hl Hr Hposts) as (Wp & _ & _ & Wa & Wo).
  destruct (score_scenario_Ok item output l Hl) as (Ho & Hpass & _ & Et & Ee).
  rewrite Ht in Et. rewrite He in Ee.
  assert (E0 : forall text, regex_match_score text [] = Ok 0%float)
    by (intros text; reflexivity).
  rewrite E0 in Et, Ee. injection Et as Et. injection Ee as Ee.
  assert (Hlow : (0.75 <=? Locals.overall l)%float = false).
  { rewrite Ho, <- Et, <- Ee. apply overall_without_trends_and_events; assumption. }
  split; [symmetry; exact Et|]. split; [symmetry; exact Ee|].
  split; [|rewrite Hpass; exact Hlow].
  assert (G75 : fgood 0.75%float) by (vm_compute; reflexivity).
  rewrite (fleb_units _ _ G75 (proj1 Wo)) in Hlow.
  rewrite (fltb_units _ _ (proj1 Wo) G75). apply Z.ltb_lt. apply Z.leb_gt in Hlow. exact Hlow.
Qed.

(** X9: over records whose overall scores are between 0 and 1, the best
    scenario of the summary is the label of the first record with the
    greatest overall score and the worst scenario the label of the first
    record with the least. *)
Theorem best_and_worst_scenario results s :
  Forall (fun r => in_unit_interval (overall_score r) = true) results ->
  compute_overall_score results = Ok s ->
  exists i best j worst,
    nth_error results i = Some best /\
    best_scenario s = scenario best /\
    Forall (fun r => (overall_score r <=? overall_score best)%float = true) results /\
    (forall i' r, (i' < i)%nat -> nth_error results i' = Some r ->
                  (overall_score r <? overall_score best)%float = true) /\
    nth_error results j = Some worst /\
    worst_scenario s = scenario worst /\
    Forall (fun r => (overall_score worst <=? overall_score r)%float = true) results /\
    (forall j' r, (j' < j)%nat -> nth_error results j' = Some r ->
                  (overall_score worst <? overall_score r)%float = true).
Proof.
  intros Hunit H.
  assert (Hne : results <> []) by (intros ->; discriminate H).
  assert (Hg : Forall (fun r => fgood (overall_score r)) results).
  { apply Forall_impl with (2 := Hunit). intros r Hr.
    apply in_unit_interval_within in Hr. exact (proj1 Hr). }
  rewrite (compute_overall_score_nonempty results Hne) in H.
  apply bind_Ok in H. destruct H as (lbest & Hbest & H).
  apply bind_Ok in H. destruct H as (lworst & Hworst & H).
  injection H as <-. cbn [best_scenario worst_scenario].
  apply bind_Ok in Hbest. destruct Hbest as (i & Hi & Hbest).
  apply bind_Ok in Hworst. destruct Hworst as (j & Hj & Hworst).
  unfold idxmax in Hi. unfold idxmin in Hj.
  destruct (idx_from _ _ 0%nat None) as [i0 |] eqn:Ei in Hi; [|discriminate Hi].
  injection Hi as ->.
  destruct (idx_from _ _ 0%nat None) as [j0 |] eqn:Ej in Hj; [|discriminate Hj].
  injection Hj as ->.
  destruct (nth_error (map scenario results) i) as [li |] eqn:Li; [|discriminate Hbest].
  injection Hbest as ->.
  destruct (nth_error (map scenario results) j) as [lj |] eqn:Lj; [|discriminate Hworst].
  injection Hworst as ->.
  destruct (idx_from_record (fun x b => (b <? x)%float) fval results i lbest
              ltac:(intros x b Gx Gb; apply fltb_units; assumption) Hg Ei Li)
    as (best & Nb & Eb & Fb & Firstb).
  destruct (idx_from_record (fun x b => (x <? b)%float) (fun x => - fval x) results j lworst)
    as (worst & Nw & Ew & Fw & Firstw); try assumption.
  { intros x b Gx Gb. rewrite (fltb_units x b Gx Gb).
    destruct (Z.ltb_spec (fval x) (fval b)), (Z.ltb_spec (- fval b) (- fval x));
      first [reflexivity | lia]. }
  assert (Gof : forall r n, nth_error results n = Some r -> fgood (overall_score r)).
  { intros r n Hn. rewrite Forall_forall in Hg. apply Hg. exact (nth_error_In _ _ Hn). }
  exists i, best, j, worst.
  split; [exact Nb|]. split; [exact Eb|]. split; [|split; [|split; [exact Nw|split; [exact Ew|split]]]].
  - rewrite Forall_forall in *. intros r Hr.
    rewrite (fleb_units _ _ (Hg r Hr) (Gof best i Nb)). apply Z.leb_le. exact (Fb r Hr).
  - intros i' r Hi' Hr.
    rewrite (fltb_units _ _ (Gof r i' Hr) (Gof best i Nb)). apply Z.ltb_lt.
    exact (Firstb i' r Hi' Hr).
  - rewrite Forall_forall in *. intros r Hr.
    rewrite (fleb_units _ _ (Gof worst j Nw) (Hg r Hr)). apply Z.leb_le.
    pose proof (Fw r Hr). lia.
  - intros j' r Hj' Hr.
    rewrite (fltb_units _ _ (Gof worst j Nw) (Gof r j' Hr)). apply Z.ltb_lt.
    pose proof (Firstw j' r Hj' Hr). lia.
Qed.

(** X10: text added before or after a post of plain characters loses no
    keyword: the keyword coverage of the longer post is at least that of
    the post. *)
Theorem keyword_coverage_grows_with_text (before post after : str) expected_keywords e e' :
  forallb plain (before ++ post ++ after) = true ->
  evaluate_social_post post expected_keywords = Ok e ->
  evaluate_social_post (before ++ post ++ after) expected_keywords = Ok e' ->
  (keyword_coverage e <=? keyword_coverage e')%float = true.
Proof.
  intros Hplain He He'.
  apply evaluate_social_post_Ok in He, He'.
  destruct He as (f & _ & Ef & ->). destruct He' as (f' & _ & Ef' & ->).
  cbn [keyword_coverage].
  assert (Hn : 0 < Z.of_nat (List.length expected_keywords)).
  { destruct expected_keywords; [discriminate Ef | cbn [List.length]; lia]. }
  pose proof (keywords_found_bounds post expected_keywords) as B.
  pose proof (keywords_found_bounds (before ++ post ++ after) expected_keywords) as B'.
  apply (int_truediv_mono _ _ _ f f') with (4 := Ef) (5 := Ef'); try lia.
  split; [lia|]. unfold keywords_found. apply inj_le. apply filter_length_le.
  intros kw _ Hkw.
  assert (Hpost : forallb plain post = true).
  { rewrite !forallb_app in Hplain. apply andb_true_iff in Hplain. destruct Hplain as [_ H].
    apply andb_true_iff in H. exact (proj1 H). }
  unfold lower at 2. rewrite Hplain, !map_app.
  unfold lower at 2 in Hkw. rewrite Hpost in Hkw.
  apply contains_app_l, contains_app_r. exact Hkw.
Qed.

Lemma regex_match_score_valid text patterns :
  Forall valid_pattern patterns -> exists v, regex_match_score text patterns = Ok v.
Proof.
  intros Hvalid. unfold regex_match_score.
  rewrite (count_matches_spec text patterns Hvalid 0). cbn [bind].
  pose proof (matching_length text patterns) as Hup.
  destruct (int_truediv_fraction (0 + Z.of_nat (List.length (matching text patterns)))
              (Z.max (Z.of_nat (List.length patterns)) 1) ltac:(lia) ltac:(lia))
    as (v & E & _).
  exists v. exact E.
Qed.

(** X11: a scenario without required keywords cannot be scored once the
    agent returns a post: when the expected patterns compile, scoring it
    raises ZeroDivisionError instead of giving a record. *)
Theorem scenario_without_keywords_raises agent item output :
  agent (user_input item) = Some output ->
  get (required_keywords (expected item)) [] = [] ->
  get (social_posts output) [] <> [] ->
  Forall valid_pattern
         ([ get (age_group (expected item)) [];
            get (gender (expected item)) [];
            get (market (expected item)) (of_ascii "Singapore|US") ]
          ++ get (trends (expected item)) [] ++ get (events (expected item)) []) ->
  evaluate_item agent item = Raise ZeroDivisionError.
Proof.
  intros Hagent Hkw Hposts Hvalid.
  apply Forall_app in Hvalid. destruct Hvalid as [Vp Vte].
  apply Forall_app in Vte. destruct Vte as [Vt Ve].
  unfold evaluate_item. rewrite Hagent. unfold score_scenario. cbv zeta.
  destruct (regex_match_score_valid
              (join (of_ascii " ") (map snd (get (social_posts output) []))) _ Vp) as (p & Ep).
  destruct (regex_match_score_valid
              (join (of_ascii " ") (map snd (get (social_posts output) []))) _ Vt) as (t & Et).
  destruct (regex_match_score_valid
              (join (of_ascii " ") (map snd (get (social_posts output) []))) _ Ve) as (e & Ee).
  rewrite Ep. cbn [bind]. rewrite Et. cbn [bind]. rewrite Ee. cbn [bind].
  rewrite Hkw. destruct (get (social_posts output) []) as [| post posts]; [contradiction|].
  reflexivity.
Qed.

Lemma evaluate_dataset_raise agent before item after e :
  Forall (fun it => exists r, evaluate_item agent it = Ok r) before ->
  evaluate_item agent item = Raise e ->
  forall results, evaluate_dataset agent (before ++ item :: after) results = Raise e.
Proof.
  intros Hbefore Hitem. induction Hbefore as [| it rest [r Hr] _ IH]; intros results.
  - cbn [app evaluate_dataset]. rewrite Hitem. reflexivity.
  - cbn [app evaluate_dataset]. rewrite Hr. cbn [bind]. apply IH.
Qed.

(** X12: the suite scores nothing after an exception.  When scoring a
    scenario raises and the scenarios before it were scored, the whole
    suite raises that exception: no summary is computed and no record is
    returned. *)
Theorem first_exception_aborts_suite agent file before item after e :
  load_evaluation_dataset file = Ok (before ++ item :: after) ->
  Forall (fun it => exists r, evaluate_item agent it = Ok r) before ->
  evaluate_item agent item = Raise e ->
  test_full_evaluation_suite agent file = Raise e.
Proof.
  intros Hload Hbefore Hitem. unfold test_full_evaluation_suite.
  rewrite Hload. cbn [bind].
  rewrite (evaluate_dataset_raise agent before item after e Hbefore Hitem []). reflexivity.
Qed.

Lemma map_result_returns {A B : Type} (f : A -> result B) (l : list A) :
  (forall a, In a l -> exists b, f a = Ok b) -> exists bs, map_result f l = Ok bs.
Proof.
  induction l as [| a l IH]; intros Hf; [exists []; reflexivity|].
  destruct (Hf a (or_introl eq_refl)) as [b Hb].
  destruct (IH (fun a' Ha' => Hf a' (or_intror Ha'))) as [bs Hbs].
  exists (b :: bs). cbn [map_result]. rewrite Hb. cbn [bind]. rewrite Hbs. reflexivity.
Qed.

(** A scenario is scored when its patterns compile and it has keywords. *)
Lemma score_scenario_returns item output :
  Forall valid_pattern
         ([ get (age_group (expected item)) [];
            get (gender (expected item)) [];
            get (market (expected item)) (of_ascii "Singapore|US") ]
          ++ get (trends (expected item)) [] ++ get (events (expected item)) []) ->
  get (required_keywords (expected item)) [] <> [] ->
  exists l, score_scenario item output = Ok l.
Proof.
  intros Hvalid Hkw.
  apply Forall_app in Hvalid. destruct Hvalid as [Vp Vte].
  apply Forall_app in Vte. destruct Vte as [Vt Ve].
  unfold score_scenario. cbv zeta.
  destruct (regex_match_score_valid
              (join (of_ascii " ") (map snd (get (social_posts output) []))) _ Vp) as (p & Ep).
  destruct (regex_match_score_valid
              (join (of_ascii " ") (map snd (get (social_posts output) []))) _ Vt) as (t & Et).
  destruct (regex_match_score_valid
              (join (of_ascii " ") (map snd (get (social_posts output) []))) _ Ve) as (e & Ee).
  rewrite Ep. cbn [bind]. rewrite Et. cbn [bind]. rewrite Ee. cbn [bind].
  destruct (map_result_returns
              (fun post =>
                 e <- evaluate_social_post post (get (required_keywords (expected item)) []) ;;
                 Ok (quality e))
              (map snd (get (social_posts output) []))) as [qs Hqs].
  { intros post _. unfold evaluate_social_post.
    assert (Hlen : 0 < Z.of_nat (List.length (get (required_keywords (expected item)) []))).
    { destruct (get (required_keywords (expected item)) []);
        [contradiction | cbn [List.length]; lia]. }
    destruct (int_truediv_fraction _ _
                (keywords_found_bounds post (get (required_keywords (expected item)) [])) Hlen)
      as (fraction & E & _).
    rewrite E. cbn [bind]. eexists. reflexivity. }
  rewrite Hqs. cbn [bind].
  destruct qs as [| q qs]; cbn [bind]; [eexists; reflexivity|].
  unfold float_div_int.
  destruct (Z.eqb_spec (Z.of_nat (List.length (q :: qs))) 0) as [E | _];
    [cbn [List.length] in E; lia|].
  cbn [bind]. eexists. reflexivity.
Qed.

Lemma evaluate_item_returns agent item :
  Forall valid_pattern
         ([ get (age_group (expected item)) [];
            get (gender (expected item)) [];
            get (market (expected item)) (of_ascii "Singapore|US") ]
          ++ get (trends (expected item)) [] ++ get (events (expected item)) []) ->
  get (required_keywords (expected item)) [] <> [] ->
  exists r, evaluate_item agent item = Ok r.
Proof.
  intros Hvalid Hkw. unfold evaluate_item.
  destruct (agent (user_input item)) as [output |]; [|eexists; reflexivity].
  destruct (score_scenario_returns item output Hvalid Hkw) as [l Hl].
  rewrite Hl. cbn [bind]. eexists. reflexivity.
Qed.

(** X13: with the dataset file missing the suite runs on the two built-in
    scenarios.  Whatever the agent does, the loop yields two records, as
    soon as [re] compiles the one built-in pattern that is not literal;
    1 passed out of 2 is below 0.7, so that, an overall score being a
    number, the suite returns the two records when both passed and its
    final assertion fails when one did not. *)
Theorem fallback_suite_needs_both agent :
  re_engine (of_ascii "12.12") <> None ->
  exists r1 r2,
    evaluate_dataset agent fallback_dataset [] = Ok [r1; r2] /\
    (is_nan (overall_score r1) = false \/ is_nan (overall_score r2) = false ->
     (passed r1 = true /\ passed r2 = true ->
      test_full_evaluation_suite agent FileMissing = Ok [r1; r2]) /\
     (passed r1 = false \/ passed r2 = false ->
      test_full_evaluation_suite agent FileMissing = Raise AssertionError)).
Proof.
  intros Hengine.
  assert (Hitem : forall item, In item fallback_dataset ->
                               exists r, evaluate_item agent item = Ok r).
  { intros item Hin. apply evaluate_item_returns.
    - destruct Hin as [<- | [<- | []]];
        match goal with
        | |- Forall _ ?l => let l' := eval vm_compute in l in change l with l'
        end;
        repeat (apply Forall_cons; [first [left; reflexivity | right; exact Hengine]|]);
        apply Forall_nil.
    - destruct Hin as [<- | [<- | []]]; discriminate. }
  destruct (Hitem (nth 0 fallback_dataset bare_item) (or_introl eq_refl)) as [r1 H1].
  destruct (Hitem (nth 1 fallback_dataset bare_item) (or_intror (or_introl eq_refl)))
    as [r2 H2].
  exists r1, r2.
  assert (Hdata : evaluate_dataset agent fallback_dataset [] = Ok [r1; r2]).
  { change fallback_dataset
      with [nth 0 fallback_dataset bare_item; nth 1 fallback_dataset bare_item].
    cbn [evaluate_dataset]. rewrite H1. cbn [bind app]. rewrite H2. reflexivity. }
  split; [exact Hdata|]. intros Hnum.
  assert (Hex : Exists (fun r => is_nan (overall_score r) = false) [r1; r2]).
  { destruct Hnum as [N1 | N2];
      [apply Exists_cons_hd; exact N1 | apply Exists_cons_tl, Exists_cons_hd; exact N2]. }
  destruct (compute_overall_score_returns [r1; r2] Hex) as (s & rate & Es & Er & Ediv).
  unfold test_full_evaluation_suite. cbn [load_evaluation_dataset bind].
  rewrite Hdata. cbn [bind]. rewrite Es. cbn [bind]. rewrite Er.
  pose proof (filter_length passed [r1; r2]) as Hk. cbn [List.length] in Hk.
  cbn [List.length] in Ediv. split.
  - intros [P1 P2]. cbn [filter] in Ediv. rewrite P1, P2 in Ediv. cbn [List.length] in Ediv.
    rewrite (rate_reaches_threshold 2 2 rate ltac:(lia) ltac:(lia) Ediv ltac:(lia)).
    reflexivity.
  - intros Hsome.
    assert (Hcount : Z.of_nat (List.length (filter passed [r1; r2])) <= 1).
    { cbn [filter]. destruct Hsome as [P1 | P2].
      - rewrite P1. destruct (passed r2); cbn [List.length]; lia.
      - rewrite P2. destruct (passed r1); cbn [List.length]; lia. }
    rewrite (rate_misses_threshold (Z.of_nat (List.length (filter passed [r1; r2]))) 2 rate
               ltac:(lia) ltac:(lia) Ediv ltac:(lia)).
    reflexivity.
Qed.

(** A float between two zero or positive finite ones is one of them. *)
Lemma fgood_between x lo hi :
  fgood lo -> fgood hi ->
  (lo <=? x)%float = true -> (x <=? hi)%float = true -> fgood x.
Proof.
  intros Glo Ghi. rewrite !FloatAxioms.leb_spec. unfold fgood in *.
  pose proof (Prim2SF_valid x) as V.
  destruct (Prim2SF x) as [s | s | | s m e]; cbn [good].
  - intros; exact I.
  - destruct s.
    + destruct (Prim2SF lo) as [s' | s' | | [] m' e']; cbn [good] in Glo;
        try contradiction; discriminate.
    + intros _.
      destruct (Prim2SF hi) as [s' | s' | | [] m' e']; cbn [good] in Ghi;
        try contradiction; discriminate.
  - destruct (Prim2SF lo) as [s' | s' | | s' m' e']; discriminate.
  - destruct s; [|intros _ _; exact V].
    destruct (Prim2SF lo) as [s' | s' | | [] m' e']; cbn [good] in Glo;
      try contradiction; discriminate.
Qed.

(** X14: the record of a scenario that passed with an overall score of at
    most 1 shows an overall score of at least 0.75: rounding to 3 places
    never takes a passing score below the threshold. *)
Theorem passed_record_shows_threshold item output l :
  score_scenario item output = Ok l ->
  (Locals.overall l <=? 1)%float = true ->
  passed (record_of item l) = true ->
  (0.75 <=? overall_score (record_of item l))%float = true.
Proof.
  intros Hl Hone. destruct (score_scenario_Ok item output l Hl) as (_ & Hpass & _).
  cbn [record_of overall_score passed]. rewrite Hpass. intros H75.
  assert (G75 : fgood 0.75%float) by (vm_compute; reflexivity).
  assert (Go : fgood (Locals.overall l)) by exact (fgood_between _ _ _ G75 fgood_one H75 Hone).
  apply py_round_keeps_threshold; [|exact H75].
  split; [exact Go|].
  rewrite (fleb_units _ _ Go fgood_one), fval_one in Hone. apply Z.leb_le. exact Hone.
Qed.

(** X15: the overall score keeps the order of the scores.  Of two scored
    scenarios with relevances in [0, 1], the one that is at least as good
    on each of the five scores has an overall score at least as high, and
    passes if the other does. *)
Theorem higher_scores_keep_passing item output l item' output' l' :
  score_scenario item output = Ok l ->
  score_scenario item' output' = Ok l' ->
  Z.of_nat (List.length (get (social_posts output) [])) < 2 ^ 1023 ->
  Z.of_nat (List.length (get (social_posts output') [])) < 2 ^ 1023 ->
  in_unit_interval (Locals.relevance l) = true ->
  in_unit_interval (Locals.relevance l') = true ->
  (Locals.relevance l <=? Locals.relevance l')%float = true ->
  (Locals.personalization l <=? Locals.personalization l')%float = true ->
  (Locals.trend_align l <=? Locals.trend_align l')%float = true ->
  (Locals.event_cov l <=? Locals.event_cov l')%float = true ->
  (Locals.post_quality_avg l <=? Locals.post_quality_avg l')%float = true ->
  (Locals.overall l <=? Locals.overall l')%float = true /\
  (Locals.passed l = true -> Locals.passed l' = true).
Proof.
  intros Hl Hl' Hposts Hposts' Hr Hr' Lr Lp Lt Le La.
  apply in_unit_interval_within in Hr, Hr'.
  destruct (scenario_scores_within item output l Hl Hr Hposts) as (Wp & Wt & We & Wa & Wo).
  destruct (scenario_scores_within item' output' l' Hl' Hr' Hposts')
    as (Wp' & Wt' & We' & Wa' & Wo').
  destruct (score_scenario_Ok item output l Hl) as (Ho & Hpass & _).
  destruct (score_scenario_Ok item' output' l' Hl') as (Ho' & Hpass' & _).
  rewrite (fleb_units _ _ (proj1 Hr) (proj1 Hr')) in Lr. apply Z.leb_le in Lr.
  rewrite (fleb_units _ _ (proj1 Wp) (proj1 Wp')) in Lp. apply Z.leb_le in Lp.
  rewrite (fleb_units _ _ (proj1 Wt) (proj1 Wt')) in Lt. apply Z.leb_le in Lt.
  rewrite (fleb_units _ _ (proj1 We) (proj1 We')) in Le. apply Z.leb_le in Le.
  rewrite (fleb_units _ _ (proj1 Wa) (proj1 Wa')) in La. apply Z.leb_le in La.
  destruct (overall_mono _ _ _ _ _ _ _ _ _ _
              (proj1 Hr) (proj1 Wp) (proj1 Wt) (proj1 We) (proj1 Wa)
              Hr' Wp' Wt' We' Wa' Lr Lp Lt Le La) as [_ M].
  rewrite <- Ho, <- Ho' in M.
  assert (G75 : fgood 0.75%float) by (vm_compute; reflexivity).
  split.
  - rewrite (fleb_units _ _ (proj1 Wo) (proj1 Wo')). apply Z.leb_le. exact M.
  - rewrite Hpass, Hpass'.
    rewrite (fleb_units _ _ G75 (proj1 Wo)), (fleb_units _ _ G75 (proj1 Wo')).
    intros H. apply Z.leb_le in H. apply Z.leb_le. lia.
Qed.

End Harness.

(** * The statements above on concrete inputs *)

Unset Implicit Arguments.
Local Open Scope Z_scope.

Lemma overall_weighted_sum_and_threshold_witness :
  always only_post (user_input borderline_item) = Some only_post /\
  evaluate_item no_letters no_case no_engine no_vocabulary (always only_post) borderline_item
  = Ok borderline_record /\
  exists l,
    score_scenario no_letters no_case no_engine no_vocabulary borderline_item only_post = Ok l /\
    borderline_record = record_of borderline_item l /\
    Locals.overall l
    = (0.25 * Locals.relevance l + 0.20 * Locals.personalization l
       + 0.15 * Locals.trend_align l + 0.15 * Locals.event_cov l
       + 0.25 * Locals.post_quality_avg l)%float /\
    (passed borderline_record = true <-> (0.75 <=? Locals.overall l)%float = true) /\
    ((Locals.overall l =? 0.75)%float = true -> passed borderline_record = true).
Proof.
  split; [reflexivity|]. split; [vm_compute; reflexivity|].
  apply (overall_weighted_sum_and_threshold no_letters no_case no_engine no_vocabulary
           (always only_post) borderline_item only_post borderline_record);
    [reflexivity | vm_compute; reflexivity].
Defined.

Lemma evaluate_social_post_quality_witness :
  festive_keywords <> [] /\
  filter (fun kw => contains (lower no_case kw) (lower no_case festive_post)) festive_keywords
  = map of_ascii ["perfume"; "bundle"; "gift"; "holiday"]%string /\
  evaluate_social_post no_letters no_case festive_post festive_keywords
  = Ok {| quality := 0.44; keyword_coverage := 0.8 |} /\
  exists fraction,
    int_truediv
      (Z.of_nat (List.length
                   (filter (fun kw => contains (lower no_case kw) (lower no_case festive_post))
                           festive_keywords)))
      (Z.of_nat (List.length festive_keywords)) = Ok fraction /\
    (forall kw, contains (lower no_case kw) (lower no_case festive_post) = true <->
                exists before after,
                  lower no_case festive_post = before ++ lower no_case kw ++ after) /\
    (forall s, forallb plain s = true ->
               lower no_case s
               = map (fun c => if ((65 <=? c) && (c <=? 90))%N then (c + 32)%N else c) s) /\
    evaluate_social_post no_letters no_case festive_post festive_keywords
    = Ok {| quality := (0.3 * fraction
                        + 0.3 * (if length_ok festive_post then 1 else 0)
                        + 0.2 * (if has_hashtag no_letters festive_post then 1 else 0)
                        + 0.2 * (if has_emoji festive_post then 1 else 0))%float;
            keyword_coverage := fraction |} /\
    (forall q, evaluate_social_post no_letters no_case festive_post festive_keywords = Ok q ->
               (0 <=? quality q)%float = true /\ (quality q <=? 1)%float = true) /\
    (length_ok festive_post = true <-> 50 <= Z.of_nat (List.length (split festive_post)) <= 280) /\
    (has_hashtag no_letters festive_post = true <->
     exists before c after,
       festive_post = before ++ 35%N :: c :: after /\ is_word no_letters c = true) /\
    (has_emoji festive_post = true <->
     exists c, In c festive_post /\ ((127744 <= c <= 129535)%N \/ (128512 <= c <= 128591)%N)) /\
    (forall x y l h e,
        (0 <=? x)%float = true -> (x <=? y)%float = true -> (y <=? 1)%float = true ->
        (quality_of x l h e <=? quality_of y l h e)%float = true).
Proof.
  split; [discriminate|]. split; [vm_compute; reflexivity|].
  split; [vm_compute; reflexivity|].
  apply (evaluate_social_post_quality no_letters no_case festive_post festive_keywords).
  discriminate.
Defined.

Lemma short_post_quality_at_most_0_7_witness :
  length_ok festive_post_full = false /\
  evaluate_social_post no_letters no_case festive_post_full festive_keywords
  = Ok {| quality := 0.7; keyword_coverage := 1 |} /\
  (List.length (split festive_post) = 12%nat /\ length_ok festive_post = false /\
   evaluate_social_post no_letters no_case festive_post festive_keywords
   = Ok {| quality := 0.44; keyword_coverage := 0.8 |}) /\
  (0.7 <=? 0.7)%float = true.
Proof.
  split; [reflexivity|]. split; [vm_compute; reflexivity|].
  apply (short_post_quality_at_most_0_7 no_letters no_case festive_post_full festive_keywords
           {| quality := 0.7; keyword_coverage := 1 |});
    [reflexivity | vm_compute; reflexivity].
Defined.

(** C3 as stated fails: the festive post with every keyword, its hashtag
    and an emoji is short, and its quality is 0.7, not below. *)
Lemma short_post_quality_reaches_0_7 :
  length_ok festive_post_full = false /\
  (forall unicode_isalnum unicode_lower,
      evaluate_social_post unicode_isalnum unicode_lower festive_post_full festive_keywords
      = Ok {| quality := 0.7; keyword_coverage := 1 |}) /\
  (0.7 <? 0.7)%float = false.
Proof.
  split; [reflexivity|]. split; [|reflexivity].
  intros unicode_isalnum unicode_lower. vm_compute. reflexivity.
Qed.

Lemma regex_match_score_fraction_witness :
  Forall (valid_pattern no_engine)
         (map of_ascii ["floral"; "gift set"; "sustainable"; "long-lasting"]%string) /\
  regex_match_score no_engine festive_post [] = Ok 0%float /\
  exists v,
    regex_match_score no_engine festive_post
      (map of_ascii ["floral"; "gift set"; "sustainable"; "long-lasting"]%string) = Ok v /\
    int_truediv
      (Z.of_nat (List.length
         (matching no_engine festive_post
            (map of_ascii ["floral"; "gift set"; "sustainable"; "long-lasting"]%string))))
      (Z.max (Z.of_nat (List.length
         (map of_ascii ["floral"; "gift set"; "sustainable"; "long-lasting"]%string))) 1)
    = Ok v /\
    (map of_ascii ["floral"; "gift set"; "sustainable"; "long-lasting"]%string <> [] ->
     int_truediv
       (Z.of_nat (List.length
          (matching no_engine festive_post
             (map of_ascii ["floral"; "gift set"; "sustainable"; "long-lasting"]%string))))
       (Z.of_nat (List.length
          (map of_ascii ["floral"; "gift set"; "sustainable"; "long-lasting"]%string)))
     = Ok v) /\
    (0 <=? v)%float = true /\ (v <=? 1)%float = true.
Proof.
  assert (V : Forall (valid_pattern no_engine)
                (map of_ascii ["floral"; "gift set"; "sustainable"; "long-lasting"]%string)).
  { repeat constructor; left; reflexivity. }
  split; [exact V|].
  apply (regex_match_score_fraction no_engine festive_post _ V).
Defined.

Lemma pass_rate_is_fraction_passed_witness :
  [borderline_record; failed_record borderline_item] <> [] /\
  exists v,
    int_truediv
      (Z.of_nat (List.length (filter passed [borderline_record; failed_record borderline_item])))
      (Z.of_nat (List.length [borderline_record; failed_record borderline_item])) = Ok v /\
    (forall s,
        compute_overall_score running_mean [borderline_record; failed_record borderline_item]
        = Ok s ->
        pass_rate s = v /\
        total_scenarios s
        = Z.of_nat (List.length [borderline_record; failed_record borderline_item])) /\
    (Exists (fun r => is_nan (overall_score r) = false)
            [borderline_record; failed_record borderline_item] ->
     exists s,
       compute_overall_score running_mean [borderline_record; failed_record borderline_item]
       = Ok s).
Proof.
  split; [discriminate|].
  apply (pass_rate_is_fraction_passed running_mean). discriminate.
Defined.

Lemma empty_pattern_pads_personalization_witness :
  age_group (expected perfume_item) = None /\
  gender (expected perfume_item) = None /\
  exists l,
    score_scenario no_letters no_case no_engine no_vocabulary perfume_item festive_only = Ok l /\
    regex_match_score no_engine festive_post [[]] = Ok 1%float /\
    exists two_thirds,
      int_truediv 2 3 = Ok two_thirds /\
      (two_thirds <=? Locals.personalization l)%float = true /\
      (Locals.personalization l = two_thirds \/ Locals.personalization l = 1%float).
Proof.
  split; [reflexivity|]. split; [reflexivity|].
  eexists. split; [vm_compute; reflexivity|].
  apply (empty_pattern_pads_personalization no_letters no_case no_engine no_vocabulary
           festive_post perfume_item festive_only);
    [reflexivity | reflexivity | vm_compute; reflexivity].
Defined.

Lemma record_rounds_after_threshold_witness :
  no_vocabulary (of_ascii "? ") (of_ascii "?") = None /\
  exists l,
    score_scenario no_letters no_case no_engine no_vocabulary near_miss_item only_post = Ok l /\
    (Locals.overall l <? 0.75)%float = true /\
    overall_score (record_of near_miss_item l) = 0.75%float /\
    passed (record_of near_miss_item l) = false.
Proof.
  split; [reflexivity|].
  apply (record_rounds_after_threshold no_letters no_case no_engine no_vocabulary).
  reflexivity.
Defined.

Lemma evaluate_dataset_records_witness :
  evaluate_dataset no_letters no_case no_engine no_vocabulary (always only_post)
    [borderline_item] [failed_record bare_item]
  = Ok [failed_record bare_item; borderline_record] /\
  exists new,
    [failed_record bare_item; borderline_record] = [failed_record bare_item] ++ new /\
    Forall2 (fun item r =>
               evaluate_item no_letters no_case no_engine no_vocabulary (always only_post) item
               = Ok r /\
               scenario r = firstn 50 (user_input item))
            [borderline_item] new.
Proof.
  split; [vm_compute; reflexivity|].
  apply (evaluate_dataset_records no_letters no_case no_engine no_vocabulary
           (always only_post) [borderline_item] [failed_record bare_item]).
  vm_compute. reflexivity.
Defined.


Lemma suite_threshold_is_seven_in_ten_witness :
  load_evaluation_dataset (FileParsed [borderline_item]) = Ok [borderline_item] /\
  evaluate_dataset no_letters no_case no_engine no_vocabulary (always only_post)
    [borderline_item] [] = Ok [borderline_record] /\
  Exists (fun r => is_nan (overall_score r) = false) [borderline_record] /\
  (7 * Z.of_nat (List.length [borderline_record])
   <= 10 * Z.of_nat (List.length (filter passed [borderline_record])) ->
   test_full_evaluation_suite no_letters no_case no_engine no_vocabulary running_mean
     (always only_post) (FileParsed [borderline_item]) = Ok [borderline_record]) /\
  (Z.of_nat (List.length [borderline_record]) <= 2 ^ 49 ->
   10 * Z.of_nat (List.length (filter passed [borderline_record]))
   < 7 * Z.of_nat (List.length [borderline_record]) ->
   test_full_evaluation_suite no_letters no_case no_engine no_vocabulary running_mean
     (always only_post) (FileParsed [borderline_item]) = Raise AssertionError).
Proof.
  split; [reflexivity|]. split; [vm_compute; reflexivity|].
  split; [apply Exists_cons_hd; reflexivity|].
  apply (suite_threshold_is_seven_in_ten no_letters no_case no_engine no_vocabulary running_mean
           (always only_post) (FileParsed [borderline_item]) [borderline_item]
           [borderline_record]);
    [reflexivity | vm_compute; reflexivity | apply Exists_cons_hd; reflexivity].
Defined.

Lemma regex_match_score_permutation_witness :
  Permutation [of_ascii "perfume"; of_ascii "zzz"] [of_ascii "zzz"; of_ascii "perfume"] /\
  regex_match_score no_engine festive_post [of_ascii "perfume"; of_ascii "zzz"]
  = regex_match_score no_engine festive_post [of_ascii "zzz"; of_ascii "perfume"].
Proof.
  split; [apply perm_swap|].
  apply (regex_match_score_permutation no_engine festive_post). apply perm_swap.
Defined.

Lemma regex_match_score_extremes_witness :
  Z.of_nat (List.length [of_ascii "perfume"; of_ascii "christmas"]) <= 2 ^ 53 /\
  (regex_match_score no_engine festive_post [of_ascii "perfume"; of_ascii "christmas"]
   = Ok 0%float <->
   Forall (fun p => re_search no_engine p festive_post = Ok false)
          [of_ascii "perfume"; of_ascii "christmas"]) /\
  ([of_ascii "perfume"; of_ascii "christmas"] <> [] ->
   (regex_match_score no_engine festive_post [of_ascii "perfume"; of_ascii "christmas"]
    = Ok 1%float <->
    Forall (fun p => re_search no_engine p festive_post = Ok true)
           [of_ascii "perfume"; of_ascii "christmas"])).
Proof.
  split; [vm_compute; discriminate|].
  apply (regex_match_score_extremes no_engine festive_post
           [of_ascii "perfume"; of_ascii "christmas"]).
  vm_compute. discriminate.
Defined.

Lemma joined_posts_score_at_least_witness :
  In festive_post [long_post; festive_post] /\
  Forall (fun p => literal_pattern p = true) [of_ascii "perfume"; of_ascii "bonus"] /\
  regex_match_score no_engine festive_post [of_ascii "perfume"; of_ascii "bonus"]
  = Ok 0.5%float /\
  (forall p, In p [of_ascii "perfume"; of_ascii "bonus"] ->
             re_search no_engine p festive_post = Ok true ->
             re_search no_engine p (join (of_ascii " ") [long_post; festive_post]) = Ok true) /\
  exists w,
    regex_match_score no_engine (join (of_ascii " ") [long_post; festive_post])
      [of_ascii "perfume"; of_ascii "bonus"] = Ok w /\
    (0.5 <=? w)%float = true.
Proof.
  split; [right; left; reflexivity|].
  split; [repeat constructor|].
  split; [vm_compute; reflexivity|].
  apply (joined_posts_score_at_least no_engine (of_ascii " ") [long_post; festive_post]
           festive_post [of_ascii "perfume"; of_ascii "bonus"] 0.5%float);
    [right; left; reflexivity | repeat constructor | vm_compute; reflexivity].
Defined.


Lemma no_trend_no_event_never_passes_witness :
  get (trends (expected bare_item)) [] = [] /\
  get (events (expected bare_item)) [] = [] /\
  Z.of_nat (List.length (get (social_posts no_answer) [])) < 2 ^ 1023 /\
  exists l,
    score_scenario no_letters no_case no_engine no_vocabulary bare_item no_answer = Ok l /\
    in_unit_interval (Locals.relevance l) = true /\
    Locals.trend_align l = 0%float /\ Locals.event_cov l = 0%float /\
    (Locals.overall l <? 0.75)%float = true /\ Locals.passed l = false.
Proof.
  split; [reflexivity|]. split; [reflexivity|]. split; [vm_compute; reflexivity|].
  eexists. split; [vm_compute; reflexivity|]. split; [reflexivity|].
  apply (no_trend_no_event_never_passes no_letters no_case no_engine no_vocabulary
           bare_item no_answer);
    [reflexivity | reflexivity | reflexivity | vm_compute; reflexivity
     | vm_compute; reflexivity].
Defined.

Lemma best_and_worst_scenario_witness :
  Forall (fun r => in_unit_interval (overall_score r) = true)
         [failed_record bare_item; borderline_record; borderline_record] /\
  exists s,
    compute_overall_score running_mean
      [failed_record bare_item; borderline_record; borderline_record] = Ok s /\
    exists i best j worst,
      nth_error [failed_record bare_item; borderline_record; borderline_record] i = Some best /\
      best_scenario s = scenario best /\
      Forall (fun r => (overall_score r <=? overall_score best)%float = true)
             [failed_record bare_item; borderline_record; borderline_record] /\
      (forall i' r, (i' < i)%nat ->
                    nth_error [failed_record bare_item; borderline_record; borderline_record] i'
                    = Some r ->
                    (overall_score r <? overall_score best)%float = true) /\
      nth_error [failed_record bare_item; borderline_record; borderline_record] j = Some worst /\
      worst_scenario s = scenario worst /\
      Forall (fun r => (overall_score worst <=? overall_score r)%float = true)
             [failed_record bare_item; borderline_record; borderline_record] /\
      (forall j' r, (j' < j)%nat ->
                    nth_error [failed_record bare_item; borderline_record; borderline_record] j'
                    = Some r ->
                    (overall_score worst <? overall_score r)%float = true).
Proof.
  split; [repeat constructor|].
  eexists. split; [vm_compute; reflexivity|].
  apply (best_and_worst_scenario running_mean
           [failed_record bare_item; borderline_record; borderline_record]);
    [repeat constructor | vm_compute; reflexivity].
Defined.

Lemma keyword_coverage_grows_with_text_witness :
  forallb plain ([] ++ festive_post ++ of_ascii " discount " ++ [127873%N]) = true /\
  evaluate_social_post no_letters no_case festive_post festive_keywords
  = Ok {| quality := 0.44; keyword_coverage := 0.8 |} /\
  evaluate_social_post no_letters no_case
    ([] ++ festive_post ++ of_ascii " discount " ++ [127873%N]) festive_keywords
  = Ok {| quality := 0.7; keyword_coverage := 1 |} /\
  (0.8 <=? 1)%float = true.
Proof.
  split; [vm_compute; reflexivity|]. split; [vm_compute; reflexivity|].
  split; [vm_compute; reflexivity|].
  apply (keyword_coverage_grows_with_text no_letters no_case
           [] festive_post (of_ascii " discount " ++ [127873%N]) festive_keywords
           {| quality := 0.44; keyword_coverage := 0.8 |}
           {| quality := 0.7; keyword_coverage := 1 |});
    vm_compute; reflexivity.
Defined.

Lemma scenario_without_keywords_raises_witness :
  always only_post (user_input bare_item) = Some only_post /\
  get (required_keywords (expected bare_item)) [] = [] /\
  get (social_posts only_post) [] <> [] /\
  Forall (valid_pattern no_engine)
         ([ get (age_group (expected bare_item)) [];
            get (gender (expected bare_item)) [];
            get (market (expected bare_item)) (of_ascii "Singapore|US") ]
          ++ get (trends (expected bare_item)) [] ++ get (events (expected bare_item)) []) /\
  evaluate_item no_letters no_case no_engine no_vocabulary (always only_post) bare_item
  = Raise ZeroDivisionError.
Proof.
  assert (V : Forall (valid_pattern no_engine)
                ([ get (age_group (expected bare_item)) [];
                   get (gender (expected bare_item)) [];
                   get (market (expected bare_item)) (of_ascii "Singapore|US") ]
                 ++ get (trends (expected bare_item)) []
                 ++ get (events (expected bare_item)) [])).
  { repeat constructor; left; reflexivity. }
  split; [reflexivity|]. split; [reflexivity|]. split; [discriminate|]. split; [exact V|].
  apply (scenario_without_keywords_raises no_letters no_case no_engine no_vocabulary
           (always only_post) bare_item only_post);
    [reflexivity | reflexivity | discriminate | exact V].
Defined.

Lemma first_exception_aborts_suite_witness :
  load_evaluation_dataset (FileParsed [borderline_item; bare_item; borderline_item])
  = Ok ([borderline_item] ++ bare_item :: [borderline_item]) /\
  Forall (fun it => exists r,
              evaluate_item no_letters no_case no_engine no_vocabulary (always only_post) it
              = Ok r)
         [borderline_item] /\
  evaluate_item no_letters no_case no_engine no_vocabulary (always only_post) bare_item
  = Raise ZeroDivisionError /\
  test_full_evaluation_suite no_letters no_case no_engine no_vocabulary running_mean
    (always only_post) (FileParsed [borderline_item; bare_item; borderline_item])
  = Raise ZeroDivisionError.
Proof.
  assert (F : Forall (fun it => exists r,
                          evaluate_item no_letters no_case no_engine no_vocabulary
                            (always only_post) it = Ok r)
                     [borderline_item]).
  { constructor; [|constructor]. exists borderline_record. vm_compute. reflexivity. }
  split; [reflexivity|]. split; [exact F|]. split; [vm_compute; reflexivity|].
  apply (first_exception_aborts_suite no_letters no_case no_engine no_vocabulary running_mean
           (always only_post) (FileParsed [borderline_item; bare_item; borderline_item])
           [borderline_item] bare_item [borderline_item] ZeroDivisionError);
    [reflexivity | exact F | vm_compute; reflexivity].
Defined.

Lemma fallback_suite_needs_both_witness :
  dot_engine (of_ascii "12.12") <> None /\
  evaluate_dataset no_letters no_case dot_engine no_vocabulary (always only_post)
    fallback_dataset []
  = Ok [ {| scenario := of_ascii "I want to create sales and promotion event from No";
            relevance_score := 0;
            personalization_score := 0;
            trend_alignment := 0;
            event_coverage := 0;
            post_quality_avg := 0.75;
            overall_score := 0.188;
            passed := false |};
         {| scenario := of_ascii "Perfume promotion for Christmas and New Year, wome";
            relevance_score := 0;
            personalization_score := 1;
            trend_alignment := 0;
            event_coverage := 0;
            post_quality_avg := 0.76;
            overall_score := 0.39;
            passed := false |} ] /\
  exists r1 r2,
    evaluate_dataset no_letters no_case dot_engine no_vocabulary (always only_post)
      fallback_dataset [] = Ok [r1; r2] /\
    (is_nan (overall_score r1) = false \/ is_nan (overall_score r2) = false ->
     (passed r1 = true /\ passed r2 = true ->
      test_full_evaluation_suite no_letters no_case dot_engine no_vocabulary running_mean
        (always only_post) FileMissing = Ok [r1; r2]) /\
     (passed r1 = false \/ passed r2 = false ->
      test_full_evaluation_suite no_letters no_case dot_engine no_vocabulary running_mean
        (always only_post) FileMissing = Raise AssertionError)).
Proof.
  split; [discriminate|]. split; [vm_compute; reflexivity|].
  apply (fallback_suite_needs_both no_letters no_case dot_engine no_vocabulary running_mean
           (always only_post)).
  discriminate.
Defined.

Lemma passed_record_shows_threshold_witness :
  exists l,
    score_scenario no_letters no_case no_engine no_vocabulary borderline_item only_post = Ok l /\
    (Locals.overall l <=? 1)%float = true /\
    passed (record_of borderline_item l) = true /\
    (0.75 <=? overall_score (record_of borderline_item l))%float = true.
Proof.
  eexists. split; [vm_compute; reflexivity|]. split; [reflexivity|]. split; [reflexivity|].
  apply (passed_record_shows_threshold no_letters no_case no_engine no_vocabulary
           borderline_item only_post);
    [vm_compute; reflexivity | reflexivity | reflexivity].
Defined.

Lemma higher_scores_keep_passing_witness :
  Z.of_nat (List.length (get (social_posts only_post) [])) < 2 ^ 1023 /\
  exists l l',
    score_scenario no_letters no_case no_engine no_vocabulary near_miss_item only_post = Ok l /\
    score_scenario no_letters no_case no_engine no_vocabulary borderline_item only_post = Ok l' /\
    in_unit_interval (Locals.relevance l) = true /\
    in_unit_interval (Locals.relevance l') = true /\
    (Locals.relevance l <=? Locals.relevance l')%float = true /\
    (Locals.personalization l <=? Locals.personalization l')%float = true /\
    (Locals.trend_align l <=? Locals.trend_align l')%float = true /\
    (Locals.event_cov l <=? Locals.event_cov l')%float = true /\
    (Locals.post_quality_avg l <=? Locals.post_quality_avg l')%float = true /\
    (Locals.overall l <=? Locals.overall l')%float = true /\
    (Locals.passed l = true -> Locals.passed l' = true).
Proof.
  split; [vm_compute; reflexivity|].
  eexists. eexists.
  split; [vm_compute; reflexivity|]. split; [vm_compute; reflexivity|].
  split; [reflexivity|]. split; [reflexivity|]. split; [reflexivity|].
  split; [reflexivity|]. split; [reflexivity|]. split; [reflexivity|].
  split; [reflexivity|].
  apply (higher_scores_keep_passing no_letters no_case no_engine no_vocabulary
           near_miss_item only_post _ borderline_item only_post _);
    first [reflexivity | vm_compute; reflexivity].
Defined.
